(** * Image-Analysis: a shallow embedding of the media analysis pipeline

    The development follows the layout of the repository:

    - [MediaUtils]      : [src/utils/mediaUtils.ts]
                          ([formatTime], [extractFramesFromVideo]);
    - [Types]           : [src/types.ts];
    - [Retry]           : [utils/retry] ([withExponentialBackoff]);
    - [GeminiService]   : [src/services/geminiService.ts]
                          ([analyzeImage], [analyzeVideoFrames]);
    - [ImageAnalyzer]   : [src/components/ImageAnalyzer.tsx]
                          ([aggregatedObjects] and the bounding-box overlay);
    - [WebcamAnalyzer]  : the webcam component ([startCamera] and its
                          bounding-box overlay).

    [JsNumber], [Async], [Session], [Json] and [JsObject] hold what these
    modules share with the runtime: numbers, promises, the observable
    events of a run, JSON values and the property lookup of object
    literals.  The modules whose names end in [Spec] hold the
    vocabulary of the statements, [Scenarios] a few concrete runs; the
    properties follow.

    JavaScript numbers that only ever hold integers in the code paths below
    (frame counters, sampling times, delays, box coordinates) are integers
    of [Z]; numbers that may carry a fraction (a video duration, a number of
    seconds) are exact rationals of [Q].  Promises are modelled by their
    settlement: a computation either resolves with a value or rejects with
    an error, and threads the state of the outside world explicitly. *)

From Stdlib Require Import ZArith QArith Qround Lia Lqa Ascii String.
From stdpp Require Import base strings list gmap pretty.

Local Open Scope Z_scope.

(** ** Numbers *)

Module JsNumber.

(** [Math.floor] on a rational. *)
Definition Math_floor (x : Q) : Z := Qfloor x.

(** [Math.round]: the nearest integer, halves rounded up. *)
Definition Math_round (x : Q) : Z := Qfloor (x + (1 # 2)).

(** [Math.trunc], used by the remainder operator. *)
Definition Math_trunc (x : Q) : Z :=
  if Qle_bool 0 x then Qfloor x else Qceiling x.

(** The remainder operator [a % b]: the result takes the sign of [a]. *)
Definition rem (a b : Q) : Q :=
  (a - b * inject_Z (Math_trunc (a / b)))%Q.

(** [a > b] with an integer on the left and a rational on the right. *)
Definition gt_ZQ (a : Z) (b : Q) : bool := negb (Qle_bool (inject_Z a) b).

(** [n.toString()] for an integer [n]: its decimal numeral, with a minus
    sign when it is negative (the notation of JavaScript for integers
    below [10^21] in absolute value). *)
Definition toString (n : Z) : string := pretty n.

(** [s.padStart(2, '0')]. *)
Definition padStart2 (s : string) : string :=
  match String.length s with
  | O => "00" +:+ s
  | S O => "0" +:+ s
  | _ => s
  end.

End JsNumber.

(** ** [src/utils/mediaUtils.ts] *)

Module MediaUtils.
Import JsNumber.

(** [formatTime]: minutes and seconds of a number of seconds. *)
Definition formatTime (seconds : Q) : string :=
  let mins := Math_floor (seconds / 60) in
  let secs := Math_floor (rem seconds 60) in
  padStart2 (toString mins) +:+ ":" +:+ padStart2 (toString secs).

(** [ExtractedFrame]. *)
Record ExtractedFrame := {
  timestamp : Z;
  base64 : string
}.

(** What the promise of [extractFramesFromVideo] can be rejected with. *)
Inductive rejection :=
| ErrorMessage (msg : string)   (* [new Error(msg)] *)
| MediaErrorEvent.              (* the event handed to [video.onerror] *)

(** How the promise settles.  [Pending] is a promise that is never
    settled; in the model below it is only produced when the recursion
    budget of [captureFrame] is used up. *)
Inductive settlement :=
| Resolve (frames : list ExtractedFrame)
| Reject (r : rejection)
| Pending.

(** The video element and the canvas, as far as the sampler observes
    them: the duration announced by the metadata, whether the canvas
    yields a 2d context, whether a seek to a given time completes
    ([seeked]) or fails ([error]), and the JPEG data drawn at that time. *)
Record VideoSource := {
  duration : Q;
  has_context : bool;
  seek_completes : Z -> bool;
  jpeg_at : Z -> string
}.

Definition interval : Z := 3.
Definition maxFrames : Z := 10.

(** The loop state: the local variables [currentTime], [frameCount] and
    [frames], and the percentages passed to [onProgress] so far. *)
Record sampler := {
  currentTime : Z;
  frameCount : Z;
  frames : list ExtractedFrame;
  progress : list Z
}.

Definition initial : sampler :=
  {| currentTime := 0; frameCount := 0; frames := []; progress := [] |}.

(** The body of [video.onseeked], up to the call of [captureFrame]. *)
Definition onseeked (v : VideoSource) (s : sampler) : sampler :=
  let frameCount' := frameCount s + 1 in
  {| currentTime := currentTime s + interval;
     frameCount := frameCount';
     frames := frames s ++ [ {| timestamp := currentTime s;
                                base64 := jpeg_at v (currentTime s) |} ];
     progress := progress s ++
       [ Z.min 100 (Math_round ((inject_Z frameCount' / inject_Z maxFrames) * 100)) ] |}.

(** [captureFrame] together with the [seeked] and [error] handlers it
    triggers.  Every call but the last sets [video.currentTime] and
    continues in [onseeked]; [fuel] bounds the number of such rounds. *)
Fixpoint captureFrame (fuel : nat) (v : VideoSource) (s : sampler)
  : settlement * sampler :=
  if gt_ZQ (currentTime s) (duration v) || (maxFrames <=? frameCount s)
  then (Resolve (frames s), s)
  else
    match fuel with
    | O => (Pending, s)
    | S fuel' =>
        if seek_completes v (currentTime s) then
          if has_context v then captureFrame fuel' v (onseeked v s)
          else (Reject (ErrorMessage "Could not get canvas context"), s)
        else (Reject MediaErrorEvent, s)
    end.

(** The file handed to the [video] element: either its metadata loads
    and the element behaves as a [VideoSource], or the element reports an
    error first. *)
Inductive VideoFile :=
| MetadataLoaded (v : VideoSource)
| LoadFailed.

(** [extractFramesFromVideo].  At most [maxFrames] frames are captured,
    so [maxFrames] rounds of [captureFrame] are enough. *)
Definition extractFramesFromVideo (file : VideoFile) : settlement * sampler :=
  match file with
  | MetadataLoaded v => captureFrame (Z.to_nat maxFrames) v initial
  | LoadFailed => (Reject (ErrorMessage "Failed to load video file"), initial)
  end.

End MediaUtils.

(** ** [src/types.ts] *)

Module Types.

(** [VideoFrameAnalysis]. *)
Record VideoFrameAnalysis := {
  timestamp : string;   (* e.g. "00:03" *)
  analysis : string
}.

(** [VideoAnalysisResult]. *)
Record VideoAnalysisResult := {
  frames : list VideoFrameAnalysis;
  finalReport : string
}.

End Types.

(** ** Promises and effects *)

Module Async.

(** A thrown value: an [Error] or a [DOMException], by name and message. *)
Record JsError := {
  name : string;
  message : string
}.

(** [new Error(msg)]. *)
Definition Error (msg : string) : JsError :=
  {| name := "Error"; message := msg |}.

(** A settled promise. *)
Inductive outcome (A : Type) :=
| Resolved (a : A)
| Rejected (e : JsError).
Arguments Resolved {A} a.
Arguments Rejected {A} e.

(** An asynchronous computation over a state [S]. *)
Definition M (S A : Type) : Type := S -> outcome A * S.

Section Monad.
Context {S : Type}.

Definition ret {A} (a : A) : M S A := fun s => (Resolved a, s).

Definition throw {A} (e : JsError) : M S A := fun s => (Rejected e, s).

Definition bind {A B} (c : M S A) (k : A -> M S B) : M S B :=
  fun s =>
    match c s with
    | (Resolved a, s') => k a s'
    | (Rejected e, s') => (Rejected e, s')
    end.

(** [try { return await c } catch (error) { handler }]. *)
Definition try_catch {A} (c : M S A) (handler : JsError -> M S A) : M S A :=
  fun s =>
    match c s with
    | (Resolved a, s') => (Resolved a, s')
    | (Rejected e, s') => handler e s'
    end.

(** A state update that cannot fail. *)
Definition modify (f : S -> S) : M S unit := fun s => (Resolved tt, f s).

End Monad.

Notation "'let*' x ':=' c 'in' k" := (bind c (fun x => k))
  (at level 10, x name, c at level 100, k at level 200).

(** JavaScript truthiness of an optional string: [undefined] and the
    empty string are falsy. *)
Definition truthy (t : option string) : bool :=
  match t with
  | Some s => negb (String.eqb s "")
  | None => false
  end.

(** [t || fallback] for an optional string [t]. *)
Definition or_else (t : option string) (fallback : string) : string :=
  match t with
  | Some s => if String.eqb s "" then fallback else s
  | None => fallback
  end.

End Async.

(** ** The inference session *)

Module Session.
Import Async.

(** What is sent in one chat turn: an inline JPEG with a text prompt, or a
    text alone. *)
Inductive message :=
| FrameMessage (data : string) (prompt : string)
| TextMessage (text : string).

(** What the run does that an observer can see, in order. *)
Inductive event :=
| ConsoleWarn (delay : Z) (error : JsError)   (* the warning before a retry *)
| SetTimeout (delay : Z)                      (* the wait before a retry *)
| GenerateContent (image : string)            (* a still-image request *)
| ChatSend (m : message)                      (* a chat turn is requested *)
| FrameAnalyzed (r : Types.VideoFrameAnalysis). (* [onFrameAnalyzed(r)] *)

(** The state threaded through a run: the inference service (and
    whatever else the wrapped operation depends on), and the events so
    far. *)
Record session (W : Type) := {
  world : W;
  trace : list event
}.
Arguments world {W} s.
Arguments trace {W} s.

Definition log {W} (e : event) (s : session W) : session W :=
  {| world := world s; trace := trace s ++ [e] |}.

Definition emit {W} (e : event) : M (session W) unit := modify (log e).

(** An operation of the outside world, which leaves the trace alone. *)
Definition perform {W A} (op : W -> outcome A * W) : M (session W) A :=
  fun s =>
    let '(o, w) := op (world s) in
    (o, {| world := w; trace := trace s |}).

End Session.

(** ** [utils/retry] *)

Module Retry.
Import Async Session.

Section Backoff.
Context {W T : Type}.

(** [withExponentialBackoff] by recursion on the retries that are
    left; [retries <= 0] in the source is [O] here. *)
Fixpoint backoff (fn : M (session W) T) (retries : nat) (delay : Z)
  : M (session W) T :=
  try_catch fn (fun error =>
    match retries with
    | O => throw error
    | S retries' =>
        let* _ := emit (ConsoleWarn delay error) in
        let* _ := emit (SetTimeout delay) in
        backoff fn retries' (delay * 2)
    end).

Definition withExponentialBackoff (fn : M (session W) T)
    (retries : Z) (delay : Z) : M (session W) T :=
  backoff fn (Z.to_nat retries) delay.

End Backoff.

(** The default arguments [retries = 3] and [delay = 1000]. *)
Definition default_retries : Z := 3.
Definition default_delay : Z := 1000.

End Retry.

(** ** JSON values *)

Module Json.
Import Async.

(** A value produced by [JSON.parse]. *)
#[local] Unset Elimination Schemes.
Inductive json :=
| JNull
| JBool (b : bool)
| JNumber (q : Q)
| JString (s : string)
| JArray (items : list json)
| JObject (fields : list (string * json)).
#[local] Set Elimination Schemes.

(** The property [key] of a parsed object. *)
Fixpoint property (key : string) (fields : list (string * json)) : option json :=
  match fields with
  | [] => None
  | (k, v) :: rest => if String.eqb k key then Some v else property key rest
  end.

(** Assignment to the property [key]: a key that is already there keeps
    its place and takes the new value. *)
Fixpoint set_property (key : string) (v : json) (fields : list (string * json))
  : list (string * json) :=
  match fields with
  | [] => [(key, v)]
  | (k, v') :: rest =>
      if String.eqb k key then (k, v) :: rest
      else (k, v') :: set_property key v rest
  end.

(** *** A reader for JSON texts

    [parse] stands for the [JSON.parse] of the runtime on the part of the
    JSON grammar that the responses of the service use: objects, arrays,
    strings without escape sequences, integers, [true], [false] and
    [null], with white space between tokens.  Every other text is
    rejected here with a [SyntaxError]. *)

Definition code (c : ascii) : nat := nat_of_ascii c.

Definition has_code (c : ascii) (n : nat) : bool := Nat.eqb (code c) n.

Definition is_space (c : ascii) : bool :=
  has_code c 32 || has_code c 9 || has_code c 10 || has_code c 13.

Fixpoint skip_space (cs : list ascii) : list ascii :=
  match cs with
  | c :: rest => if is_space c then skip_space rest else cs
  | [] => []
  end.

Definition digit_value (c : ascii) : option Z :=
  if Nat.leb 48 (code c) && Nat.leb (code c) 57
  then Some (Z.of_nat (code c - 48))
  else None.

(** The digits at the front of [cs], read as a decimal numeral after
    [acc]. *)
Fixpoint digits (acc : Z) (cs : list ascii) : Z * list ascii :=
  match cs with
  | c :: rest =>
      match digit_value c with
      | Some d => digits (acc * 10 + d) rest
      | None => (acc, cs)
      end
  | [] => (acc, [])
  end.

(** An integer without sign: no leading zero, no fraction, no exponent. *)
Definition natural (cs : list ascii) : option (Z * list ascii) :=
  match cs with
  | c :: rest =>
      match digit_value c with
      | Some d =>
          let '(n, rest') := digits d rest in
          let leading_zero :=
            Z.eqb d 0 && negb (Nat.eqb (length rest') (length rest)) in
          let continues :=
            match rest' with
            | c' :: _ => has_code c' 46 || has_code c' 101 || has_code c' 69
            | [] => false
            end in
          if leading_zero || continues then None else Some (n, rest')
      | None => None
      end
  | [] => None
  end.

(** The characters of a string up to its closing quote (code 34); a
    backslash (code 92) or a control character is not read. *)
Fixpoint string_body (cs : list ascii) : option (string * list ascii) :=
  match cs with
  | [] => None
  | c :: rest =>
      if has_code c 34 then Some (EmptyString, rest)
      else if has_code c 92 || Nat.ltb (code c) 32 then None
      else
        match string_body rest with
        | Some (s, rest') => Some (String c s, rest')
        | None => None
        end
  end.

(** [cs] without the prefix [word], if it starts with it. *)
Fixpoint keyword (word : list ascii) (cs : list ascii) : option (list ascii) :=
  match word, cs with
  | [], _ => Some cs
  | w :: word', c :: rest => if Ascii.eqb w c then keyword word' rest else None
  | _ :: _, [] => None
  end.

Definition literal (cs : list ascii) : option (json * list ascii) :=
  match keyword (list_ascii_of_string "true") cs with
  | Some rest => Some (JBool true, rest)
  | None =>
      match keyword (list_ascii_of_string "false") cs with
      | Some rest => Some (JBool false, rest)
      | None =>
          match keyword (list_ascii_of_string "null") cs with
          | Some rest => Some (JNull, rest)
          | None => None
          end
      end
  end.

(** A value, the elements of an array after its opening bracket, and the
    members of an object after its opening brace.  [fuel] bounds the
    nesting and the number of elements. *)
Fixpoint value (fuel : nat) (cs : list ascii) {struct fuel}
  : option (json * list ascii) :=
  match fuel with
  | O => None
  | S fuel' =>
      match skip_space cs with
      | [] => None
      | c :: rest =>
          if has_code c 34 then
            match string_body rest with
            | Some (s, rest') => Some (JString s, rest')
            | None => None
            end
          else if has_code c 91 then
            match skip_space rest with
            | c' :: rest' =>
                if has_code c' 93 then Some (JArray [], rest')
                else
                  match elements fuel' rest with
                  | Some (vs, rest'') => Some (JArray vs, rest'')
                  | None => None
                  end
            | [] => None
            end
          else if has_code c 123 then
            match skip_space rest with
            | c' :: rest' =>
                if has_code c' 125 then Some (JObject [], rest')
                else
                  match members fuel' rest with
                  | Some (ms, rest'') =>
                      Some (JObject (foldl (fun acc kv => set_property (fst kv) (snd kv) acc) [] ms),
                            rest'')
                  | None => None
                  end
            | [] => None
            end
          else if has_code c 45 then
            match natural rest with
            | Some (n, rest') => Some (JNumber (inject_Z (- n)), rest')
            | None => None
            end
          else
            match natural (c :: rest) with
            | Some (n, rest') => Some (JNumber (inject_Z n), rest')
            | None => literal (c :: rest)
            end
      end
  end

with elements (fuel : nat) (cs : list ascii) {struct fuel}
  : option (list json * list ascii) :=
  match fuel with
  | O => None
  | S fuel' =>
      match value fuel' cs with
      | Some (v, rest) =>
          match skip_space rest with
          | c :: rest' =>
              if has_code c 44 then
                match elements fuel' rest' with
                | Some (vs, rest'') => Some (v :: vs, rest'')
                | None => None
                end
              else if has_code c 93 then Some ([v], rest')
              else None
          | [] => None
          end
      | None => None
      end
  end

with members (fuel : nat) (cs : list ascii) {struct fuel}
  : option (list (string * json) * list ascii) :=
  match fuel with
  | O => None
  | S fuel' =>
      match skip_space cs with
      | c :: rest =>
          if has_code c 34 then
            match string_body rest with
            | Some (key, rest1) =>
                match skip_space rest1 with
                | c1 :: rest2 =>
                    if has_code c1 58 then
                      match value fuel' rest2 with
                      | Some (v, rest3) =>
                          match skip_space rest3 with
                          | c3 :: rest4 =>
                              if has_code c3 44 then
                                match members fuel' rest4 with
                                | Some (ms, rest5) => Some ((key, v) :: ms, rest5)
                                | None => None
                                end
                              else if has_code c3 125 then Some ([(key, v)], rest4)
                              else None
                          | [] => None
                          end
                      | None => None
                      end
                    else None
                | [] => None
                end
            | None => None
            end
          else None
      | [] => None
      end
  end.

Definition SyntaxError : JsError :=
  {| name := "SyntaxError"; message := "Unexpected token in JSON" |}.

(** [JSON.parse(text)]. *)
Definition parse (text : string) : outcome json :=
  match value (S (String.length text)) (list_ascii_of_string text) with
  | Some (v, rest) =>
      match skip_space rest with
      | [] => Resolved v
      | _ :: _ => Rejected SyntaxError
      end
  | None => Rejected SyntaxError
  end.

End Json.

(** ** [src/services/geminiService.ts] *)

Module GeminiService.
Import Async Session Retry.
Export Json.

(** The [responseSchema] that [analyzeImage] sends along with its
    request, read as a predicate on parsed values. *)
Module Schema.

Definition is_string (v : json) : bool :=
  match v with JString _ => true | _ => false end.

(** [Type.INTEGER]. *)
Definition is_integer (v : json) : bool :=
  match v with
  | JNumber q => Qeq_bool q (inject_Z (Qfloor q))
  | _ => false
  end.

(** [enum: ["High", "Medium", "Low"]]. *)
Definition is_confidence (v : json) : bool :=
  match v with
  | JString s => String.eqb s "High" || String.eqb s "Medium" || String.eqb s "Low"
  | _ => false
  end.

Definition is_box (v : json) : bool :=
  match v with
  | JArray items => forallb is_integer items
  | _ => false
  end.

Definition required (key : string) (check : json -> bool)
    (fields : list (string * json)) : bool :=
  match property key fields with
  | Some v => check v
  | None => false
  end.

(** An element of [objects]. *)
Definition is_detected_object (v : json) : bool :=
  match v with
  | JObject fields =>
      required "name" is_string fields
      && required "confidence" is_confidence fields
      && required "box_2d" is_box fields
  | _ => false
  end.

Definition is_objects (v : json) : bool :=
  match v with
  | JArray items => forallb is_detected_object items
  | _ => false
  end.

(** The whole schema. *)
Definition conforms (v : json) : bool :=
  match v with
  | JObject fields =>
      required "objects" is_objects fields
      && required "narrative" is_string fields
  | _ => false
  end.

End Schema.

(** [GenerateContentResponse], of which only [text] is read; [None] is
    [undefined]. *)
Record response := {
  text : option string
}.

Section Service.
(** The inference service and the JSON parser of the runtime. *)
Context {W : Type}.
Variable generateContent : string -> W -> outcome response * W.
Variable sendMessage : message -> W -> outcome response * W.
Variable JSON_parse : string -> outcome json.

(** [ai.models.generateContent({...})] for the image [base64Image]. *)
Definition models_generateContent (base64Image : string)
  : M (session W) response :=
  let* _ := emit (GenerateContent base64Image) in
  perform (generateContent base64Image).

(** [chat.sendMessage({ message })]. *)
Definition chat_sendMessage (m : message) : M (session W) response :=
  let* _ := emit (ChatSend m) in
  perform (sendMessage m).

(** The operation that [analyzeVideoFrames] hands to the retry wrapper,
    for a frame and for the final report alike: send [m] and return the
    text of the result. *)
Definition chat_turn (m : message) : M (session W) (option string) :=
  let* result := chat_sendMessage m in
  ret (text result).

(** The operation that [analyzeImage] hands to the retry wrapper.  The
    parsed value is returned as it is: [as ImageAnalysisResult] is a
    compile-time cast. *)
Definition analyzeImage_request (base64Image : string) : M (session W) json :=
  let* response := models_generateContent base64Image in
  if negb (truthy (text response))
  then throw (Error "No response from Gemini")
  else
    match JSON_parse (default "" (text response)) with
    | Resolved v => ret v
    | Rejected e => throw e
    end.

Definition analyzeImage (base64Image : string) : M (session W) json :=
  withExponentialBackoff (analyzeImage_request base64Image)
    default_retries default_delay.

(** The prompt of the [i]-th frame. *)
Definition frame_prompt (i : nat) (timeStr : string) : string :=
  if Nat.eqb i 0
  then "Frame at " +:+ timeStr +:+ ". Identify objects and describe the initial scene."
  else "Frame at " +:+ timeStr +:+ ". Identify objects and note any changes (movement, appearance, disappearance) compared to previous frames.".

(** The retry-wrapped chat turn of frame [i]. *)
Definition frame_turn (i : nat) (frame : MediaUtils.ExtractedFrame)
  : M (session W) (option string) :=
  let timeStr := MediaUtils.formatTime (inject_Z (MediaUtils.timestamp frame)) in
  let prompt := frame_prompt i timeStr in
  withExponentialBackoff
    (chat_turn (FrameMessage (MediaUtils.base64 frame) prompt))
    default_retries default_delay.

(** The [frameResult] built from the text of a frame's turn. *)
Definition frame_result (frame : MediaUtils.ExtractedFrame)
    (analysisText : option string) : Types.VideoFrameAnalysis :=
  {| Types.timestamp := MediaUtils.formatTime (inject_Z (MediaUtils.timestamp frame));
     Types.analysis := or_else analysisText "No analysis provided." |}.

(** The [for] loop over the frames, from index [i] on, with the
    [frameResults] so far. *)
Fixpoint process_frames (i : nat) (frames : list MediaUtils.ExtractedFrame)
    (frameResults : list Types.VideoFrameAnalysis)
  : M (session W) (list Types.VideoFrameAnalysis) :=
  match frames with
  | [] => ret frameResults
  | frame :: rest =>
      let* analysisText := frame_turn i frame in
      let frameResult := frame_result frame analysisText in
      let* _ := emit (FrameAnalyzed frameResult) in
      process_frames (S i) rest (frameResults ++ [frameResult])
  end.

Definition final_report_message : message :=
  TextMessage "Create a final, cohesive Video Analysis Report summarizing the progression of the scene, key actions, and object movements based on all processed frames.".

(** The retry-wrapped turn that asks for the final report. *)
Definition final_turn : M (session W) (option string) :=
  withExponentialBackoff (chat_turn final_report_message)
    default_retries default_delay.

Definition analyzeVideoFrames (frames : list MediaUtils.ExtractedFrame)
  : M (session W) Types.VideoAnalysisResult :=
  let* frameResults := process_frames 0 frames [] in
  let* finalReportText := final_turn in
  ret {| Types.frames := frameResults;
         Types.finalReport := or_else finalReportText "Could not generate final report." |}.

End Service.

End GeminiService.

(** ** Detected objects and their boxes *)

Module Detection.

(** [DetectedObject] as it is at run time: [confidence] is whatever
    string the response carried, [box_2d] is
    [[ymin, xmin, ymax, xmax]] on the 0-1000 scale. *)
Record DetectedObject := {
  name : string;
  confidence : string;
  box_2d : list Z
}.

(** The geometry in the inline style of a bounding box: four CSS
    percentages. *)
Record box_style := {
  top : Q;
  left : Q;
  height : Q;
  width : Q
}.

(** [const [ymin, xmin, ymax, xmax] = obj.box_2d]; [None] when one of the
    four would be [undefined]. *)
Definition destructure (box : list Z) : option (Z * Z * Z * Z) :=
  match box with
  | ymin :: xmin :: ymax :: xmax :: _ => Some (ymin, xmin, ymax, xmax)
  | _ => None
  end.

(** [top], [left], [height] and [width] of the overlay [div], shared by
    both analyzers. *)
Definition style_of (box : list Z) : option box_style :=
  match destructure box with
  | Some (ymin, xmin, ymax, xmax) =>
      Some {| top := inject_Z ymin / 10;
              left := inject_Z xmin / 10;
              height := inject_Z (ymax - ymin) / 10;
              width := inject_Z (xmax - xmin) / 10 |}
  | None => None
  end.

(** A rendered overlay box: its geometry, its colour (the [borderColor]
    of the box and the [backgroundColor] of its label; [None] is
    [undefined]) and the text of its label. *)
Record overlay_box := {
  style : option box_style;
  color : option string;
  label : string
}.

End Detection.

(** ** Object literals used as dictionaries *)

Module JsObject.

(** The properties that every object literal inherits from
    [Object.prototype] in a browser (ECMAScript 20.1.3 and B.2.2): each
    holds a function, but [__proto__], an accessor that yields
    [Object.prototype] itself. *)
Definition builtins : list string :=
  [ "constructor"; "hasOwnProperty"; "isPrototypeOf"; "propertyIsEnumerable";
    "toLocaleString"; "toString"; "valueOf"; "__proto__";
    "__defineGetter__"; "__defineSetter__"; "__lookupGetter__"; "__lookupSetter__" ].

(** What [Object.prototype] holds besides: nothing as the page loads, a
    property [count] once the program has written it (it does so in one
    place, [counts[name].count++] below, and the value written is NaN).
    [Object.prototype] is a global: what one run writes, the next finds. *)
Inductive prototype := Pristine | CountWritten.

(** A value found on [Object.prototype]. *)
Inductive inherited :=
| Builtin        (* a function, or [Object.prototype]: truthy *)
| NotANumber.    (* NaN: falsy, and not [undefined] *)

Definition is_builtin (key : string) : bool :=
  existsb (String.eqb key) builtins.

Definition inherits (p : prototype) (key : string) : option inherited :=
  if is_builtin key then Some Builtin
  else match p with
       | Pristine => None
       | CountWritten => if String.eqb key "count" then Some NotANumber else None
       end.

(** The value of [o[key]] for an object literal [o] with own properties
    of type [A]. *)
Inductive value (A : Type) :=
| Own (a : A)
| Inherited (i : inherited)
| Undefined.
Arguments Own {A} a.
Arguments Inherited {A} i.
Arguments Undefined {A}.

(** [o[key]]: the own property, or else what the prototype holds. *)
Definition get {A : Type} (p : prototype) (o : gmap string A) (key : string) : value A :=
  match o !! key with
  | Some a => Own a
  | None =>
      match inherits p key with
      | Some i => Inherited i
      | None => Undefined
      end
  end.

End JsObject.

(** ** [src/components/ImageAnalyzer.tsx] *)

Module ImageAnalyzer.
Import Detection JsObject.

Definition BOX_COLORS : list string :=
  [ "#ef4444"; "#f59e0b"; "#10b981"; "#3b82f6";
    "#8b5cf6"; "#ec4899"; "#06b6d4"; "#f97316" ].

(** A value of [counts].  [colorIndex] holds what [nameColorMap[name]]
    evaluated to when the entry was made. *)
Record summary := {
  count : Z;
  summary_confidence : string;   (* [confidence] *)
  colorIndex : value Z
}.

(** The locals of the [useMemo] callback, of which [counts] and
    [nameColorMap] are object literals used as dictionaries, and the state
    of [Object.prototype], to which their lookups fall back. *)
Record aggregation := {
  counts : gmap string summary;
  nameColorMap : gmap string Z;
  colorCounter : Z;
  Object_prototype : prototype
}.

Definition empty_aggregation (p : prototype) : aggregation :=
  {| counts := ∅; nameColorMap := ∅; colorCounter := 0; Object_prototype := p |}.

(** The first [if] of the [forEach] callback:
    [nameColorMap[name] === undefined]. *)
Definition assign_color (a : aggregation) (name : string) : aggregation :=
  match get (Object_prototype a) (nameColorMap a) name with
  | Undefined =>
      {| counts := counts a;
         nameColorMap := <[name := colorCounter a mod Z.of_nat (length BOX_COLORS)]> (nameColorMap a);
         colorCounter := colorCounter a + 1;
         Object_prototype := Object_prototype a |}
  | Own _ | Inherited _ => a
  end.

(** The second [if] of the [forEach] callback: [!counts[name]], which
    holds of [undefined] and of NaN. *)
Definition open_summary (a : aggregation) (obj : DetectedObject) : aggregation :=
  match get (Object_prototype a) (counts a) (name obj) with
  | Undefined | Inherited NotANumber =>
      {| counts := <[name obj := {| count := 0;
                                    summary_confidence := confidence obj;
                                    colorIndex := get (Object_prototype a)
                                                      (nameColorMap a) (name obj) |}]>
                     (counts a);
         nameColorMap := nameColorMap a;
         colorCounter := colorCounter a;
         Object_prototype := Object_prototype a |}
  | Own _ | Inherited Builtin => a
  end.

(** [counts[name].count++].  On an entry of [counts] it adds one.  On a
    builtin it writes NaN to the property [count] of that builtin: of
    [Object.prototype] itself when the name is [__proto__], of a function
    otherwise, which no lookup of this program reads.  The second [if] has
    left no other case. *)
Definition increment (a : aggregation) (name : string) : aggregation :=
  match get (Object_prototype a) (counts a) name with
  | Own e =>
      {| counts := <[name := {| count := count e + 1;
                                summary_confidence := summary_confidence e;
                                colorIndex := colorIndex e |}]> (counts a);
         nameColorMap := nameColorMap a;
         colorCounter := colorCounter a;
         Object_prototype := Object_prototype a |}
  | Inherited Builtin =>
      if String.eqb name "__proto__" then
        {| counts := counts a;
           nameColorMap := nameColorMap a;
           colorCounter := colorCounter a;
           Object_prototype := CountWritten |}
      else a
  | Inherited NotANumber | Undefined => a
  end.

(** The [forEach] callback. *)
Definition visit (a : aggregation) (obj : DetectedObject) : aggregation :=
  increment (open_summary (assign_color a (name obj)) obj) (name obj).

(** The [forEach] loop, run when [Object.prototype] is in state [p]. *)
Definition aggregate (p : prototype) (objects : list DetectedObject) : aggregation :=
  foldl visit (empty_aggregation p) objects.

(** [aggregatedObjects]: the entries of [counts].  The order of
    [Object.entries] is not modelled; entries are only ever looked up by
    name. *)
Definition aggregatedObjects (p : prototype) (result : option (list DetectedObject))
  : list (string * summary) :=
  match result with
  | None => []
  | Some objects => map_to_list (counts (aggregate p objects))
  end.

(** [aggregatedObjects.find(a => a.name === name)]. *)
Definition find_by_name (entries : list (string * summary)) (n : string)
  : option (string * summary) :=
  List.find (fun a => String.eqb (fst a) n) entries.

(** [colorIndex || 0] as an index: a number stays (and [0 || 0] is [0]),
    NaN and [undefined] give [0]; a builtin is truthy and no index. *)
Definition or_zero (v : value Z) : option Z :=
  match v with
  | Own i => Some i
  | Inherited Builtin => None
  | Inherited NotANumber | Undefined => Some 0
  end.

(** [aggregatedObjects.find(...)?.colorIndex || 0]. *)
Definition color_index (entries : list (string * summary)) (n : string) : option Z :=
  match find_by_name entries n with
  | Some a => or_zero (colorIndex (snd a))
  | None => Some 0
  end.

(** [BOX_COLORS[...]] for the object named [n]. *)
Definition color_of (entries : list (string * summary)) (n : string) : option string :=
  match color_index entries n with
  | Some i => BOX_COLORS !! Z.to_nat i
  | None => None
  end.

(** The overlay: one box per detected object, in order. *)
Definition overlay (p : prototype) (objects : list DetectedObject) : list overlay_box :=
  let entries := aggregatedObjects p (Some objects) in
  map (fun obj =>
         {| style := style_of (box_2d obj);
            color := color_of entries (name obj);
            label := name obj |})
      objects.

End ImageAnalyzer.

(** ** The webcam component *)

Module WebcamAnalyzer.
Import Detection.

Definition BOX_COLORS : list string :=
  [ "#ef4444"; "#f59e0b"; "#10b981"; "#3b82f6";
    "#8b5cf6"; "#ec4899"; "#06b6d4" ].

(** [BOX_COLORS[i % BOX_COLORS.length]]. *)
Definition color_at (i : nat) : option string :=
  BOX_COLORS !! (i mod length BOX_COLORS)%nat.

(** The overlay of the captured snapshot. *)
Definition overlay (objects : list DetectedObject) : list overlay_box :=
  imap (fun i obj =>
          {| style := style_of (box_2d obj);
             color := color_at i;
             label := name obj |})
       objects.

(** *** [startCamera] *)

Import Async.

(** The two constraint sets passed to [getUserMedia]. *)
Inductive constraints :=
| HdVideo       (* [{ video: { width: { ideal: 1280 }, height: { ideal: 720 } }, audio: false }] *)
| BasicVideo.   (* [{ video: true, audio: false }] *)

(** What the component does that an observer can see, in order. *)
Inductive camera_event :=
| TrackStop (stream : nat)
| GetUserMedia (c : constraints)
| WarnHdFailed (hdError : JsError)
| Play
| ErrorPlaying (playErr : JsError)
| ErrorAccessing (err : JsError).

(** The component: its React state, [streamRef.current], the devices
    behind [navigator.mediaDevices], and the events so far.  A stream is
    identified by a number. *)
Record camera (W : Type) := {
  devices : W;
  streamRef : option nat;
  isStreaming : bool;
  error : option string;
  permissionDenied : bool;
  events : list camera_event
}.
Arguments devices {W} c.
Arguments streamRef {W} c.
Arguments isStreaming {W} c.
Arguments error {W} c.
Arguments permissionDenied {W} c.
Arguments events {W} c.

Section Camera.
Context {W : Type}.
(** [navigator.mediaDevices && navigator.mediaDevices.getUserMedia]. *)
Variable supported : W -> bool.
(** [navigator.mediaDevices.getUserMedia]; [None] is a falsy stream. *)
Variable getUserMedia : constraints -> W -> outcome (option nat) * W.
(** Whether [videoRef.current] is set, and [videoRef.current.play()]. *)
Variable video_mounted : W -> bool.
Variable play : W -> outcome unit * W.

Definition record (e : camera_event) : M (camera W) unit :=
  modify (fun c =>
    {| devices := devices c; streamRef := streamRef c;
       isStreaming := isStreaming c; error := error c;
       permissionDenied := permissionDenied c;
       events := events c ++ [e] |}).

Definition setIsStreaming (b : bool) : M (camera W) unit :=
  modify (fun c =>
    {| devices := devices c; streamRef := streamRef c;
       isStreaming := b; error := error c;
       permissionDenied := permissionDenied c; events := events c |}).

Definition setError (e : option string) : M (camera W) unit :=
  modify (fun c =>
    {| devices := devices c; streamRef := streamRef c;
       isStreaming := isStreaming c; error := e;
       permissionDenied := permissionDenied c; events := events c |}).

Definition setPermissionDenied (b : bool) : M (camera W) unit :=
  modify (fun c =>
    {| devices := devices c; streamRef := streamRef c;
       isStreaming := isStreaming c; error := error c;
       permissionDenied := b; events := events c |}).

Definition setStreamRef (r : option nat) : M (camera W) unit :=
  modify (fun c =>
    {| devices := devices c; streamRef := r;
       isStreaming := isStreaming c; error := error c;
       permissionDenied := permissionDenied c; events := events c |}).

(** An operation on the devices. *)
Definition on_devices {A} (op : W -> outcome A * W) : M (camera W) A :=
  fun c =>
    let '(o, w) := op (devices c) in
    (o, {| devices := w; streamRef := streamRef c;
           isStreaming := isStreaming c; error := error c;
           permissionDenied := permissionDenied c; events := events c |}).

Definition request (k : constraints) : M (camera W) (option nat) :=
  let* _ := record (GetUserMedia k) in
  on_devices (getUserMedia k).

Definition stopCamera : M (camera W) unit :=
  let* _ :=
    (fun c =>
       match streamRef c with
       | Some stream =>
           (let* _ := record (TrackStop stream) in setStreamRef None) c
       | None => ret tt c
       end) in
  setIsStreaming false.

(** The inner [try]: HD first, then any available video. *)
Definition negotiate : M (camera W) (option nat) :=
  try_catch (request HdVideo) (fun hdError =>
    let* _ := record (WarnHdFailed hdError) in
    try_catch (request BasicVideo) (fun basicError => throw basicError)).

(** The body of the outer [try]. *)
Definition acquire : M (camera W) unit :=
  let* _ := setError None in
  let* _ := setPermissionDenied false in
  fun c =>
    if negb (supported (devices c))
    then throw (Error "Camera API is not supported in this browser or context.") c
    else
      (let* stream := negotiate in
       match stream with
       | None => throw (Error "Could not initialize video stream.")
       | Some _ =>
           let* _ := setStreamRef stream in
           let* _ :=
             (fun c' =>
                if video_mounted (devices c')
                then try_catch (let* _ := record Play in on_devices play)
                               (fun playErr => record (ErrorPlaying playErr)) c'
                else ret tt c') in
           setIsStreaming true
       end) c.

(** [err.message || "Could not access camera."]. *)
Definition message_or (err : JsError) (fallback : string) : string :=
  if String.eqb (message err) "" then fallback else message err.

Definition name_is (err : JsError) (n : string) : bool :=
  String.eqb (Async.name err) n.

(** The outer [catch]. *)
Definition on_failure (err : JsError) : M (camera W) unit :=
  let* _ := record (ErrorAccessing err) in
  let* _ := setIsStreaming false in
  if name_is err "NotAllowedError" || name_is err "PermissionDeniedError" then
    let* _ := setPermissionDenied true in
    setError (Some "Camera access was denied. Please allow camera access in your browser settings to continue.")
  else if name_is err "NotFoundError" || name_is err "DevicesNotFoundError" then
    setError (Some "No camera found. Please ensure a camera is connected and recognized by your device.")
  else if name_is err "NotReadableError" || name_is err "TrackStartError" then
    setError (Some "Camera is currently in use by another application or OS permission is blocked. Please close other apps using the camera.")
  else
    setError (Some (message_or err "Could not access camera.")).

Definition startCamera : M (camera W) unit :=
  let* _ := stopCamera in
  try_catch acquire on_failure.

End Camera.

End WebcamAnalyzer.

(** * Vocabulary of the statements *)

(** ** [formatTime] *)

Module FormatTimeSpec.
Import JsNumber.

(** The decimal digit [d], for [0 <= d <= 9]. *)
Definition digit (d : Z) : ascii := ascii_of_nat (48 + Z.to_nat d).

(** Exactly two decimal digits, for [0 <= k < 100]. *)
Definition two_digits (k : Z) : string :=
  String (digit (k / 10)) (String (digit (k mod 10)) EmptyString).

(** The decimal numeral of [m], with one leading zero when it has a
    single digit. *)
Definition zero_padded (m : Z) : string :=
  if m <? 10 then String "0" (toString m) else toString m.

End FormatTimeSpec.

(** ** [extractFramesFromVideo] *)

Module SamplingSpec.
Import MediaUtils.

(** The number of frames the sampling policy allows for a duration. *)
Definition expected_count (d : Q) : Z :=
  Z.min maxFrames (Qfloor (d / inject_Z interval) + 1).

(** The frame captured in round [i]. *)
Definition frame_at (v : VideoSource) (i : nat) : ExtractedFrame :=
  {| timestamp := Z.of_nat i * interval;
     base64 := jpeg_at v (Z.of_nat i * interval) |}.

End SamplingSpec.


(** ** [withExponentialBackoff] *)

Module RetrySpec.
Import Async Session.

(** The waits of a trace, in order. *)
Definition waits (tr : list event) : list Z :=
  omap (fun e => match e with SetTimeout d => Some d | _ => None end) tr.

(** [n] invocations of [op] in a row, all of which fail: the errors they
    throw, in order, and the world they leave. *)
Fixpoint failures {W T : Type} (op : W -> outcome T * W) (n : nat) (w : W)
  : option (list JsError * W) :=
  match n with
  | O => Some ([], w)
  | S n' =>
      match op w with
      | (Rejected e, w') =>
          match failures op n' w' with
          | Some (es, w'') => Some (e :: es, w'')
          | None => None
          end
      | (Resolved _, _) => None
      end
  end.

(** The schedule [delay, 2 * delay, 4 * delay, ...] of [n] waits. *)
Definition doubling (delay : Z) (n : nat) : list Z :=
  map (fun i => delay * 2 ^ Z.of_nat i) (seq 0 n).

End RetrySpec.

(** ** [analyzeVideoFrames] *)

Module GeminiSpec.
Import Async Session GeminiService.

(** The results handed to [onFrameAnalyzed] in a trace, in order. *)
Definition callbacks (tr : list event) : list Types.VideoFrameAnalysis :=
  omap (fun e => match e with FrameAnalyzed r => Some r | _ => None end) tr.

(** The chat turns requested in a trace, in order. *)
Definition requests (tr : list event) : list message :=
  omap (fun e => match e with ChatSend m => Some m | _ => None end) tr.

(** The message of the frame at index [i]. *)
Definition frame_message (i : nat) (frame : MediaUtils.ExtractedFrame) : message :=
  FrameMessage (MediaUtils.base64 frame)
    (frame_prompt i (MediaUtils.formatTime (inject_Z (MediaUtils.timestamp frame)))).

(** The events of the retry-wrapped turn that sends [m]: requests of [m],
    and the warnings and waits between them. *)
Definition belongs_to_turn (m : message) (e : event) : Prop :=
  match e with
  | ChatSend m' => m' = m
  | ConsoleWarn _ _ | SetTimeout _ => True
  | GenerateContent _ | FrameAnalyzed _ => False
  end.

(** The result of a run that got through all frames, from the outcome of
    the final turn. *)
Definition report_of (frameResults : list Types.VideoFrameAnalysis)
    (o : outcome (option string)) : outcome Types.VideoAnalysisResult :=
  match o with
  | Resolved t =>
      Resolved {| Types.frames := frameResults;
                  Types.finalReport := or_else t "Could not generate final report." |}
  | Rejected e => Rejected e
  end.

End GeminiSpec.

(** ** The overlay *)

Module OverlaySpec.
Import Detection.

(** The names of a list in the order of their first occurrence. *)
Definition first_occurrences (names : list string) : list string :=
  foldl (fun seen n => if decide (n ∈ seen) then seen else seen ++ [n]) [] names.

(** The projection as the specification words it: every coordinate of
    [[ymin, xmin, ymax, xmax]] divided by 1000. *)
Definition normalized_rectangle (box : list Z) : option (Q * Q * Q * Q) :=
  match destructure box with
  | Some (ymin, xmin, ymax, xmax) =>
      Some (inject_Z ymin / 1000, inject_Z xmin / 1000,
            inject_Z ymax / 1000, inject_Z xmax / 1000)%Q
  | None => None
  end.

(** A CSS percentage as a fraction of the image. *)
Definition fraction (percent : Q) : Q := (percent / 100)%Q.

(** The rectangle that a box with the given style covers, by its top,
    left, bottom and right edges, as fractions of the image. *)
Definition covered (st : box_style) : Q * Q * Q * Q :=
  (fraction (top st), fraction (left st),
   fraction (top st + height st), fraction (left st + width st))%Q.

(** The inverse scale: every edge of a rectangle times 1000. *)
Definition rescaled (r : Q * Q * Q * Q) : Q * Q * Q * Q :=
  let '(a, b, c, d) := r in (a * 1000, b * 1000, c * 1000, d * 1000)%Q.

(** Two rectangles with equal edges. *)
Definition same_rectangle (r r' : Q * Q * Q * Q) : Prop :=
  let '(a, b, c, d) := r in
  let '(a', b', c', d') := r' in
  (a == a' /\ b == b' /\ c == c' /\ d == d')%Q.

(** One step of [first_occurrences]. *)
Definition note (seen : list string) (n : string) : list string :=
  if decide (n ∈ seen) then seen else seen ++ [n].

(** No name of the objects is a property that an object literal inherits
    from [Object.prototype] in state [p]. *)
Definition own_names (p : JsObject.prototype) (objects : list DetectedObject) : Prop :=
  Forall (fun o => JsObject.inherits p (name o) = None) objects.

(** What the [forEach] loop of [aggregatedObjects] maintains on such
    names, [seen] being the names met so far in the order of their first
    occurrence: [Object.prototype] is as it was; the counter is the number
    of names met; the name at rank [r] has the colour index [r] modulo the
    size of the palette; every name met has a summary that carries its
    colour index; no other name has an entry. *)
Definition colored (p : JsObject.prototype) (a : ImageAnalyzer.aggregation)
    (seen : list string) : Prop :=
  ImageAnalyzer.Object_prototype a = p
  /\ NoDup seen
  /\ ImageAnalyzer.colorCounter a = Z.of_nat (length seen)
  /\ (forall r n, seen !! r = Some n ->
        ImageAnalyzer.nameColorMap a !! n
        = Some (Z.of_nat r mod Z.of_nat (length ImageAnalyzer.BOX_COLORS)))
  /\ (forall n, n ∈ seen ->
        exists e i, ImageAnalyzer.counts a !! n = Some e
                    /\ ImageAnalyzer.nameColorMap a !! n = Some i
                    /\ ImageAnalyzer.colorIndex e = JsObject.Own i)
  /\ (forall n, n ∉ seen ->
        ImageAnalyzer.counts a !! n = None
        /\ ImageAnalyzer.nameColorMap a !! n = None).

End OverlaySpec.

(** ** [startCamera] *)

Module CameraSpec.
Import Async WebcamAnalyzer.

(** The component once [startCamera] has stopped the old stream and reset
    the error state, before it asks for a camera. *)
Definition reset {W : Type} (c : camera W) : camera W :=
  {| devices := devices c;
     streamRef := None;
     isStreaming := false;
     error := None;
     permissionDenied := false;
     events := events c ++ match streamRef c with
                           | Some stream => [TrackStop stream]
                           | None => []
                           end |}.

(** The component after some more events, with the devices in state [w]. *)
Definition moved_on {W : Type} (c : camera W) (w : W) (evs : list camera_event)
  : camera W :=
  {| devices := w;
     streamRef := streamRef c;
     isStreaming := isStreaming c;
     error := error c;
     permissionDenied := permissionDenied c;
     events := events c ++ evs |}.

(** The constraint sets requested in a list of events, in order. *)
Definition requested (evs : list camera_event) : list constraints :=
  omap (fun e => match e with GetUserMedia k => Some k | _ => None end) evs.

End CameraSpec.

(** * Concrete scenarios *)

Module Scenarios.
Import Async Session.

(** A video of the given duration on which every seek completes. *)
Definition clip (d : Q) : MediaUtils.VideoSource :=
  {| MediaUtils.duration := d;
     MediaUtils.has_context := true;
     MediaUtils.seek_completes := fun _ => true;
     MediaUtils.jpeg_at := fun t => "jpeg@" +:+ JsNumber.toString t |}.

(** A scripted world: the outcomes of the invocations still to come, in
    order.  When the script is used up every further invocation fails. *)
Definition script (A : Type) : Type := list (outcome A).

Definition next {A : Type} (w : script A) : outcome A * script A :=
  match w with
  | [] => (Rejected (Error "end of script"), [])
  | o :: w' => (o, w')
  end.

Definition start {A : Type} (w : script A) : session (script A) :=
  {| world := w; trace := [] |}.

(** A chat whose turns follow a script, whatever is sent. *)
Definition scripted_chat (m : message) (w : script GeminiService.response)
  : outcome GeminiService.response * script GeminiService.response :=
  next w.

Definition says (t : option string) : outcome GeminiService.response :=
  Resolved {| GeminiService.text := t |}.

Definition unavailable : JsError :=
  {| Async.name := "ApiError"; Async.message := "503 Service Unavailable" |}.

(** Three frames, sampled at 0, 3 and 6 seconds. *)
Definition f0 : MediaUtils.ExtractedFrame :=
  {| MediaUtils.timestamp := 0; MediaUtils.base64 := "frame-0" |}.
Definition f1 : MediaUtils.ExtractedFrame :=
  {| MediaUtils.timestamp := 3; MediaUtils.base64 := "frame-1" |}.
Definition f2 : MediaUtils.ExtractedFrame :=
  {| MediaUtils.timestamp := 6; MediaUtils.base64 := "frame-2" |}.

(** A run in which the second frame needs one retry, the third frame
    comes back without text and the final report comes back empty. *)
Definition quiet_service : script GeminiService.response :=
  [ says (Some "A cat on a sofa.");
    Rejected unavailable; says (Some "The cat has moved.");
    says None;
    says (Some "") ].

(** A run in which every request for the second frame fails. *)
Definition failing_service : script GeminiService.response :=
  [ says (Some "A cat on a sofa.");
    Rejected unavailable; Rejected unavailable;
    Rejected unavailable; Rejected unavailable ].

(** A still-image service whose responses follow a script. *)
Definition scripted_service (base64Image : string) (w : script GeminiService.response)
  : outcome GeminiService.response * script GeminiService.response :=
  next w.

(** [s] between two quotation marks (code 34). *)
Definition quoted (s : string) : string :=
  String (ascii_of_nat 34) (s +:+ String (ascii_of_nat 34) EmptyString).

(** The response text
    [{ objects: [{ name: cat, confidence: VeryHigh, box_2d: [100,200,400,600] }],
       narrative: A cat. }] in JSON syntax. *)
Definition very_high_text : string :=
  "{" +:+ quoted "objects" +:+ ": [{"
      +:+ quoted "name" +:+ ": " +:+ quoted "cat" +:+ ", "
      +:+ quoted "confidence" +:+ ": " +:+ quoted "VeryHigh" +:+ ", "
      +:+ quoted "box_2d" +:+ ": [100, 200, 400, 600]}], "
      +:+ quoted "narrative" +:+ ": " +:+ quoted "A cat." +:+ "}".

(** A device on which camera requests follow a script; the video element
    is mounted and plays. *)
Definition scripted_camera (k : WebcamAnalyzer.constraints) (w : script (option nat))
  : outcome (option nat) * script (option nat) :=
  next w.

Definition overconstrained : JsError :=
  {| Async.name := "OverconstrainedError"; Async.message := "Constraints could not be satisfied" |}.

Definition not_allowed : JsError :=
  {| Async.name := "NotAllowedError"; Async.message := "Permission denied" |}.

Definition fresh_camera (w : script (option nat)) : WebcamAnalyzer.camera (script (option nat)) :=
  {| WebcamAnalyzer.devices := w;
     WebcamAnalyzer.streamRef := None;
     WebcamAnalyzer.isStreaming := false;
     WebcamAnalyzer.error := None;
     WebcamAnalyzer.permissionDenied := false;
     WebcamAnalyzer.events := [] |}.

(** Detected objects with a box each. *)
Definition cat : Detection.DetectedObject :=
  {| Detection.name := "cat"; Detection.confidence := "High";
     Detection.box_2d := [100; 200; 400; 600] |}.
Definition dog : Detection.DetectedObject :=
  {| Detection.name := "dog"; Detection.confidence := "Medium";
     Detection.box_2d := [500; 100; 900; 450] |}.
Definition second_cat : Detection.DetectedObject :=
  {| Detection.name := "cat"; Detection.confidence := "Low";
     Detection.box_2d := [50; 700; 300; 950] |}.


(** The value that text parses to. *)
Definition very_high_value : Json.json :=
  Json.JObject
    [ ("objects",
       Json.JArray
         [ Json.JObject
             [ ("name", Json.JString "cat");
               ("confidence", Json.JString "VeryHigh");
               ("box_2d", Json.JArray [ Json.JNumber 100; Json.JNumber 200;
                                        Json.JNumber 400; Json.JNumber 600 ]) ] ]);
      ("narrative", Json.JString "A cat.") ].

End Scenarios.

(** * More of the code *)

(** ** The schedule of [withExponentialBackoff] *)

Module BackoffSchedule.
Import Async Session.

(** The warnings and waits that go with the failed attempts [es], the
    first of them announced with [delay]. *)
Fixpoint retry_events (delay : Z) (es : list JsError) : list event :=
  match es with
  | [] => []
  | e :: es' => ConsoleWarn delay e :: SetTimeout delay :: retry_events (delay * 2) es'
  end.

(** The sum of a list of waits. *)
Definition total (l : list Z) : Z := foldr Z.add 0 l.

End BackoffSchedule.

(** ** [src/utils/mediaUtils.ts]: [fileToBase64] *)

Module FileReading.
Import Async.

(** [s.split(sep)] for a separator of one character. *)
Fixpoint split_on (sep : ascii) (s : string) : list string :=
  match s with
  | EmptyString => [EmptyString]
  | String c rest =>
      if Ascii.eqb c sep then EmptyString :: split_on sep rest
      else
        match split_on sep rest with
        | piece :: pieces => String c piece :: pieces
        | [] => [String c EmptyString]
        end
  end.

Definition comma : ascii := ascii_of_nat 44.

(** [url.split(',')[1]]; [None] is [undefined]. *)
Definition after_first_comma (url : string) : option string :=
  split_on comma url !! 1%nat.

(** What the [FileReader] reports: [onload] with [reader.result] (a
    string or not), or [onerror]. *)
Inductive reading :=
| Loaded (result : option string)
| Failed (error : JsError).

(** [fileToBase64], from the event of the reader on. *)
Definition fileToBase64 (r : reading) : outcome (option string) :=
  match r with
  | Loaded (Some result) => Resolved (after_first_comma result)
  | Loaded None => Rejected (Error "Failed to convert file to base64")
  | Failed error => Rejected error
  end.

(** No comma occurs in [s]. *)
Fixpoint comma_free (s : string) : bool :=
  match s with
  | EmptyString => true
  | String c rest => negb (Ascii.eqb c comma) && comma_free rest
  end.

End FileReading.

(** ** The states of the sampling loop *)

Module SamplingStates.
Import MediaUtils SamplingSpec.

(** The percentages reported after each of the first [n] frames. *)
Definition progress_after (n : nat) : list Z :=
  map (fun i => 10 * (Z.of_nat i + 1)) (seq 0 n).

(** The locals of [extractFramesFromVideo] after [k] captured frames. *)
Definition sampler_after (v : VideoSource) (k : nat) : sampler :=
  {| currentTime := Z.of_nat k * interval;
     frameCount := Z.of_nat k;
     frames := map (frame_at v) (seq 0 k);
     progress := progress_after k |}.

(** The number of rounds of the loop for a duration (none for a negative
    one). *)
Definition rounds (d : Q) : nat := Z.to_nat (expected_count d).

End SamplingStates.

Module SamplingScenarios.
Import MediaUtils.

(** A video of the given duration whose seek to [bad] fails. *)
Definition damaged_clip (d : Q) (bad : Z) : VideoSource :=
  {| duration := d;
     has_context := true;
     seek_completes := fun t => negb (Z.eqb t bad);
     jpeg_at := fun t => "jpeg@" +:+ JsNumber.toString t |}.

End SamplingScenarios.

(** ** Runs of [analyzeVideoFrames] *)

Module VideoRunSpec.
Import Async Session GeminiService.

(** The results built from the frames and the texts of their turns, for
    as many frames as there are texts. *)
Definition results_of (frames : list MediaUtils.ExtractedFrame)
    (texts : list (option string)) : list Types.VideoFrameAnalysis :=
  zip_with frame_result frames texts.

(** A message that carries a frame. *)
Definition is_frame_message (m : message) : Prop :=
  match m with
  | FrameMessage _ _ => True
  | TextMessage _ => False
  end.

End VideoRunSpec.

(** ** The summary table of [ImageAnalyzer] *)

Module AggregationSpec.
Import Detection.

(** The number of objects named [n]. *)
Definition occurrences (n : string) (objects : list DetectedObject) : nat :=
  length (List.filter (fun o => String.eqb (name o) n) objects).

(** The first object named [n]. *)
Definition first_named (n : string) (objects : list DetectedObject)
  : option DetectedObject :=
  List.find (fun o => String.eqb (name o) n) objects.

(** The entry of a name in [counts] after the objects [objects]: the
    number of objects of that name and the confidence of the first of
    them; no entry when the name is a builtin of [Object.prototype] or
    there is no object of that name. *)
Definition tallied (a : ImageAnalyzer.aggregation) (objects : list DetectedObject) : Prop :=
  forall n,
    match ImageAnalyzer.counts a !! n with
    | Some e =>
        JsObject.is_builtin n = false
        /\ ImageAnalyzer.count e = Z.of_nat (occurrences n objects)
        /\ exists o, first_named n objects = Some o
                     /\ ImageAnalyzer.summary_confidence e = confidence o
    | None => JsObject.is_builtin n = true \/ first_named n objects = None
    end.

(** The objects that are counted: those whose name is no builtin. *)
Definition counted (objects : list DetectedObject) : list DetectedObject :=
  List.filter (fun o => negb (JsObject.is_builtin (name o))) objects.

(** The colour indices that [aggregatedObjects] holds are indices of the
    palette, or values that [|| 0] turns into the first index. *)
Definition indexed (a : ImageAnalyzer.aggregation) : Prop :=
  (forall n v, ImageAnalyzer.nameColorMap a !! n = Some v -> 0 <= v < 8)
  /\ (forall n e, ImageAnalyzer.counts a !! n = Some e ->
        exists i, ImageAnalyzer.or_zero (ImageAnalyzer.colorIndex e) = Some i
                  /\ 0 <= i < 8).

End AggregationSpec.

(** ** The colour dots beside the overlays *)

Module Legends.

(** [BOX_COLORS[obj.colorIndex]]: the dot of a row of the summary table of
    [ImageAnalyzer]; [undefined] when the index is no number. *)
Definition row_color (e : ImageAnalyzer.summary) : option string :=
  match ImageAnalyzer.colorIndex e with
  | JsObject.Own i => ImageAnalyzer.BOX_COLORS !! Z.to_nat i
  | JsObject.Inherited _ | JsObject.Undefined => None
  end.

(** The dots of the chips under the webcam snapshot, one per detected
    object: [BOX_COLORS[i % BOX_COLORS.length]]. *)
Definition chip_colors (objects : list Detection.DetectedObject) : list (option string) :=
  imap (fun i _ => WebcamAnalyzer.color_at i) objects.

End Legends.

(** ** The streams released by the webcam component *)

Module CameraStops.
Import WebcamAnalyzer.

(** The streams whose tracks are stopped in a list of events, in order. *)
Definition stops (evs : list camera_event) : list nat :=
  omap (fun e => match e with TrackStop stream => Some stream | _ => None end) evs.

(** The component is live: it holds a stream, says so, and shows no
    error. *)
Definition live {W : Type} (c : camera W) : Prop :=
  isStreaming c = true /\ is_Some (streamRef c)
  /\ error c = None /\ permissionDenied c = false.

(** The component is down: it holds no stream, says so, and shows an
    error. *)
Definition down {W : Type} (c : camera W) : Prop :=
  isStreaming c = false /\ streamRef c = None /\ is_Some (error c).

End CameraStops.

(** ** [src/components/VideoAnalyzer.tsx]: [handleAnalyze] *)

Module VideoAnalyzer.
Import Async Session.

(** [ProcessingStatus] of [src/types.ts]. *)
Inductive ProcessingStatus := IDLE | EXTRACTING | ANALYZING | COMPLETE | ERROR.

(** The React state of the component, without the selected file. *)
Record ui := {
  status : ProcessingStatus;
  progress : Z;
  result : option Types.VideoAnalysisResult;
  currentFrameAnalysis : option Types.VideoFrameAnalysis;
  error : option string
}.

(** The callback that [handleAnalyze] passes as [onFrameAnalyzed]. *)
Definition on_frame (u : ui) (frameResult : Types.VideoFrameAnalysis) : ui :=
  {| status := status u;
     progress := progress u;
     result :=
       Some {| Types.frames :=
                 match result u with
                 | Some prev => Types.frames prev
                 | None => []
                 end ++ [frameResult];
               Types.finalReport := "" |};
     currentFrameAnalysis := Some frameResult;
     error := error u |}.

(** [msg || "Failed to analyze video."]. *)
Definition shown (msg : string) : string :=
  if String.eqb msg "" then "Failed to analyze video." else msg.

(** The [catch] of [handleAnalyze], for a thrown value whose [message] is
    [msg] (the empty string when it has none). *)
Definition failed (u : ui) (msg : string) : ui :=
  {| status := ERROR;
     progress := progress u;
     result := result u;
     currentFrameAnalysis := currentFrameAnalysis u;
     error := Some (shown msg) |}.

(** [err.message] of what [extractFramesFromVideo] rejects with; the
    error event of the video element has no message. *)
Definition rejection_text (r : MediaUtils.rejection) : string :=
  match r with
  | MediaUtils.ErrorMessage msg => msg
  | MediaUtils.MediaErrorEvent => ""
  end.

(** The events of [after] that are not yet in [before]. *)
Definition since {W : Type} (before after : session W) : list event :=
  drop (length (trace before)) (trace after).

Section Handler.
Context {W : Type}.
Variable sendMessage : message -> W -> outcome GeminiService.response * W.

(** [handleAnalyze].  The percentages passed to [onProgress] are written
    to [progress] one after the other, so the last one stays.  The
    callback [on_frame] only writes to the state of the component, which
    the service does not read: it is applied to the results handed to
    [onFrameAnalyzed], in order.  A promise that never settles leaves the
    component where the [await] is. *)
Definition handleAnalyze (file : option MediaUtils.VideoFile) (u : ui) (s : session W)
  : ui * session W :=
  match file with
  | None => (u, s)
  | Some f =>
      let extracting :=
        {| status := EXTRACTING; progress := 0;
           result := Some {| Types.frames := []; Types.finalReport := "" |};
           currentFrameAnalysis := currentFrameAnalysis u;
           error := None |} in
      let '(settled, sampler) := MediaUtils.extractFramesFromVideo f in
      let extracted :=
        {| status := EXTRACTING;
           progress := List.last (MediaUtils.progress sampler) 0;
           result := result extracting;
           currentFrameAnalysis := currentFrameAnalysis extracting;
           error := None |} in
      match settled with
      | MediaUtils.Pending => (extracted, s)
      | MediaUtils.Reject r => (failed extracted (rejection_text r), s)
      | MediaUtils.Resolve [] =>
          (failed extracted "Could not extract any frames from the video.", s)
      | MediaUtils.Resolve frames =>
          let analyzing :=
            {| status := ANALYZING; progress := 0;
               result := result extracted;
               currentFrameAnalysis := currentFrameAnalysis extracted;
               error := None |} in
          let '(o, s') := GeminiService.analyzeVideoFrames sendMessage frames s in
          let logged := foldl on_frame analyzing (GeminiSpec.callbacks (since s s')) in
          match o with
          | Resolved analysisResult =>
              ({| status := COMPLETE; progress := progress logged;
                  result := Some analysisResult;
                  currentFrameAnalysis := currentFrameAnalysis logged;
                  error := error logged |}, s')
          | Rejected err => (failed logged (Async.message err), s')
          end
      end
  end.

End Handler.

End VideoAnalyzer.

Module VideoScenarios.
Import VideoAnalyzer.

(** The component before a run. *)
Definition idle : ui :=
  {| status := IDLE; progress := 0; result := None;
     currentFrameAnalysis := None; error := None |}.

(** The two frames of a clip of four seconds. *)
Definition frame0 : MediaUtils.ExtractedFrame :=
  {| MediaUtils.timestamp := 0; MediaUtils.base64 := "jpeg@0" |}.
Definition frame3 : MediaUtils.ExtractedFrame :=
  {| MediaUtils.timestamp := 3; MediaUtils.base64 := "jpeg@3" |}.

End VideoScenarios.

Module TableTotals.

(** The sum of the counts of the rows of the summary table. *)
Definition total_count (rows : list (string * ImageAnalyzer.summary)) : Z :=
  foldr (fun row acc => ImageAnalyzer.count (snd row) + acc) 0 rows.

End TableTotals.
(** * Properties *)

(** ** Rationals and their integer parts *)

Section Floor.
Import JsNumber.

Lemma inject_Z_pos (d : Z) : 0 < d -> (0 < inject_Z d)%Q.
Proof. intros H. change 0%Q with (inject_Z 0). rewrite <- Zlt_Qlt. exact H. Qed.

Lemma inject_Z_nonneg (d : Z) : 0 <= d -> (0 <= inject_Z d)%Q.
Proof. intros H. change 0%Q with (inject_Z 0). rewrite <- Zle_Qle. exact H. Qed.

Lemma Qfloor_unique (x : Q) (z : Z) :
  (inject_Z z <= x)%Q -> (x < inject_Z (z + 1))%Q -> Qfloor x = z.
Proof.
  intros Hlo Hhi.
  pose proof (Qfloor_le x) as Hfl.
  pose proof (Qlt_floor x) as Hlt.
  assert (Qfloor x < z + 1) as H1.
  { rewrite Zlt_Qlt. eapply Qle_lt_trans; eassumption. }
  assert (z < Qfloor x + 1) as H2.
  { rewrite Zlt_Qlt. eapply Qle_lt_trans; eassumption. }
  lia.
Qed.

Lemma Qfloor_bounds (x : Q) :
  (inject_Z (Qfloor x) <= x)%Q /\ (x < inject_Z (Qfloor x) + 1)%Q.
Proof.
  split; [apply Qfloor_le|].
  pose proof (Qlt_floor x) as H.
  rewrite inject_Z_plus in H. exact H.
Qed.

(** The integer part of a quotient by a positive integer only depends
    on the integer part of the dividend. *)
Lemma Qfloor_div_pos (x : Q) (d : Z) :
  0 < d -> Qfloor (x / inject_Z d) = Qfloor x / d.
Proof.
  intros Hd.
  destruct (Qfloor_bounds x) as [Hlo Hhi].
  set (n := Qfloor x) in *.
  pose proof (Z.div_mod n d ltac:(lia)) as Hdm.
  pose proof (Z.mod_pos_bound n d Hd) as Hm.
  pose proof (inject_Z_pos d Hd) as HdQ.
  assert (inject_Z n == inject_Z d * inject_Z (n / d) + inject_Z (n mod d))%Q as Hn.
  { rewrite <- inject_Z_mult, <- inject_Z_plus. rewrite <- Hdm. reflexivity. }
  assert (0 <= inject_Z (n mod d))%Q as Hm0 by (apply inject_Z_nonneg; lia).
  assert (inject_Z (n mod d) + 1 <= inject_Z d)%Q as Hm1.
  { rewrite <- (inject_Z_plus _ 1), <- Zle_Qle. lia. }
  apply Qfloor_unique.
  - apply Qle_shift_div_l; [exact HdQ|]. lra.
  - apply Qlt_shift_div_r; [exact HdQ|].
    rewrite inject_Z_plus. change (inject_Z 1) with 1%Q. lra.
Qed.

Lemma Qfloor_sub_Z (x : Q) (k : Z) :
  Qfloor (x - inject_Z k) = Qfloor x - k.
Proof.
  destruct (Qfloor_bounds x) as [Hlo Hhi].
  apply Qfloor_unique.
  - unfold Z.sub. rewrite inject_Z_plus, inject_Z_opp. lra.
  - replace (Qfloor x - k + 1) with ((Qfloor x + 1) + - k) by lia.
    rewrite inject_Z_plus, inject_Z_opp, inject_Z_plus.
    change (inject_Z 1) with 1%Q. lra.
Qed.

Lemma Qfloor_nonneg (x : Q) : (0 <= x)%Q -> 0 <= Qfloor x.
Proof.
  intros H. change 0 with (Qfloor 0). apply Qfloor_resp_le. exact H.
Qed.

Lemma Math_trunc_nonneg (x : Q) : (0 <= x)%Q -> Math_trunc x = Qfloor x.
Proof.
  intros H. unfold Math_trunc.
  destruct (Qle_bool 0 x) eqn:E; [reflexivity|].
  apply Qle_bool_iff in H. congruence.
Qed.

(** For [a >= 0], [Math.floor(a % d)] is the remainder of the integer
    part. *)
Lemma floor_rem_pos (x : Q) (d : Z) :
  0 < d -> (0 <= x)%Q ->
  Math_floor (rem x (inject_Z d)) = Qfloor x mod d.
Proof.
  intros Hd Hx. unfold Math_floor, rem.
  pose proof (inject_Z_pos d Hd) as HdQ.
  rewrite Math_trunc_nonneg.
  2:{ apply Qle_shift_div_l; [exact HdQ|]. lra. }
  rewrite Qfloor_div_pos by exact Hd.
  rewrite <- inject_Z_mult, Qfloor_sub_Z.
  rewrite Z.mod_eq by lia. reflexivity.
Qed.

End Floor.

(** ** [formatTime] *)


Section FormatTime.
Import JsNumber MediaUtils FormatTimeSpec.

Lemma pretty_N_go_length (x : N) (s : string) :
  (String.length s <= String.length (pretty_N_go x s))%nat.
Proof.
  revert s. induction (N.lt_wf_0 x) as [x _ IH]. intros s.
  destruct (N.eq_dec x 0%N) as [->|Hx].
  - rewrite pretty_N_go_0. lia.
  - rewrite pretty_N_go_step by lia.
    etrans; [|apply IH; apply N.div_lt; lia]. simpl. lia.
Qed.

Lemma toString_length_ge_10 (m : Z) :
  10 <= m -> (2 <= String.length (toString m))%nat.
Proof.
  intros Hm. destruct m as [|p|p]; try lia.
  unfold toString, pretty, pretty_Z, pretty, pretty_positive, pretty, pretty_N.
  destruct (decide (N.pos p = 0%N)) as [E|_]; [discriminate E|].
  rewrite pretty_N_go_step by lia.
  rewrite pretty_N_go_step.
  2:{ apply N.div_str_pos. lia. }
  etrans; [|apply pretty_N_go_length]. simpl. lia.
Qed.

Lemma padStart2_long (s : string) :
  (2 <= String.length s)%nat -> padStart2 s = s.
Proof.
  intros H. unfold padStart2.
  destruct (String.length s) as [|[|n]]; try lia. reflexivity.
Qed.

(** Numbers below a bound, checked one by one. *)
Lemma below_forallb (P : Z -> bool) (n : nat) :
  forallb P (map Z.of_nat (seq 0 n)) = true ->
  forall k, 0 <= k < Z.of_nat n -> P k = true.
Proof.
  intros H k Hk. rewrite forallb_forall in H. apply H.
  apply in_map_iff. exists (Z.to_nat k). split; [lia|].
  apply in_seq. lia.
Qed.

Lemma padStart2_minutes (m : Z) :
  0 <= m -> padStart2 (toString m) = zero_padded m.
Proof.
  intros Hm. unfold zero_padded.
  destruct (m <? 10) eqn:E.
  - apply Z.ltb_lt in E.
    apply String.eqb_eq.
    apply (below_forallb
             (fun k => String.eqb (padStart2 (toString k)) (String "0" (toString k))) 10);
      [vm_compute; reflexivity | lia].
  - apply Z.ltb_ge in E. apply padStart2_long, toString_length_ge_10, E.
Qed.

Lemma padStart2_seconds (k : Z) :
  0 <= k < 60 -> padStart2 (toString k) = two_digits k.
Proof.
  intros Hk. apply String.eqb_eq.
  apply (below_forallb
           (fun k => String.eqb (padStart2 (toString k)) (two_digits k)) 60);
    [vm_compute; reflexivity | lia].
Qed.

Lemma zero_padded_length (m : Z) :
  0 <= m -> (2 <= String.length (zero_padded m))%nat.
Proof.
  intros Hm. unfold zero_padded. destruct (m <? 10) eqn:E.
  - apply Z.ltb_lt in E.
    apply Nat.leb_le.
    apply (below_forallb
             (fun k => Nat.leb 2 (String.length (String "0" (toString k)))) 10);
      [vm_compute; reflexivity | lia].
  - apply Z.ltb_ge in E. apply toString_length_ge_10, E.
Qed.

Lemma string_app_length (a b : string) :
  String.length (a +:+ b) = (String.length a + String.length b)%nat.
Proof. induction a as [|c a IH]; simpl; [reflexivity|]. rewrite IH. reflexivity. Qed.

(** C6.  For every number of seconds [s >= 0], [formatTime s] is the
    minutes, a colon and the seconds of the integer part of [s]: the
    fraction of a second is dropped (the integer part is [Qfloor s], not
    a rounding); the minutes are the whole quotient by 60, not reduced
    modulo 60, written in decimal with a leading zero below 10, so at
    least two characters; the seconds are exactly two decimal digits.
    In particular [formatTime 185 = "03:05"], [formatTime 59 = "00:59"]
    and [formatTime 0 = "00:00"]. *)
Theorem formatTime_minutes_seconds (s : Q) :
  (0 <= s)%Q ->
  formatTime s
    = zero_padded (Qfloor s / 60) +:+ ":" +:+ two_digits (Qfloor s mod 60)
  /\ formatTime s = formatTime (inject_Z (Qfloor s))
  /\ (2 <= String.length (zero_padded (Qfloor s / 60)))%nat
  /\ String.length (two_digits (Qfloor s mod 60)) = 2%nat
  /\ String.length (formatTime s)
     = (String.length (zero_padded (Qfloor s / 60)) + 3)%nat
  /\ formatTime 185 = "03:05"
  /\ formatTime 59 = "00:59"
  /\ formatTime 0 = "00:00".
Proof.
  intros Hs.
  pose proof (Qfloor_nonneg s Hs) as Hn.
  assert (Hshape : forall x : Q, (0 <= x)%Q ->
            formatTime x
            = zero_padded (Qfloor x / 60) +:+ ":" +:+ two_digits (Qfloor x mod 60)).
  { intros x Hx. unfold formatTime.
    change (60%Q) with (inject_Z 60).
    rewrite floor_rem_pos by (lia || exact Hx).
    unfold Math_floor. rewrite Qfloor_div_pos by lia.
    pose proof (Qfloor_nonneg x Hx) as Hxn.
    rewrite padStart2_minutes by (apply Z.div_pos; lia).
    rewrite padStart2_seconds by (apply Z.mod_pos_bound; lia).
    reflexivity. }
  split; [apply Hshape, Hs|].
  split.
  { rewrite (Hshape s Hs).
    rewrite (Hshape (inject_Z (Qfloor s))) by (apply inject_Z_nonneg, Hn).
    rewrite Qfloor_Z. reflexivity. }
  split; [apply zero_padded_length, Z.div_pos; lia|].
  split; [reflexivity|].
  split.
  { rewrite (Hshape s Hs), !string_app_length. simpl. lia. }
  repeat split; vm_compute; reflexivity.
Qed.

Lemma formatTime_minutes_seconds_witness :
  formatTime (6000 + (1 # 2))
    = zero_padded (Qfloor (6000 + (1 # 2)) / 60) +:+ ":"
      +:+ two_digits (Qfloor (6000 + (1 # 2)) mod 60)
  /\ formatTime (6000 + (1 # 2)) = formatTime (inject_Z (Qfloor (6000 + (1 # 2))))
  /\ (2 <= String.length (zero_padded (Qfloor (6000 + (1 # 2)) / 60)))%nat
  /\ String.length (two_digits (Qfloor (6000 + (1 # 2)) mod 60)) = 2%nat
  /\ String.length (formatTime (6000 + (1 # 2)))
     = (String.length (zero_padded (Qfloor (6000 + (1 # 2)) / 60)) + 3)%nat
  /\ formatTime 185 = "03:05"
  /\ formatTime 59 = "00:59"
  /\ formatTime 0 = "00:00".
Proof.
  apply (formatTime_minutes_seconds (6000 + (1 # 2))).
  vm_compute. discriminate.
Defined.

End FormatTime.

(** ** [extractFramesFromVideo] *)

Section Sampling.
Import JsNumber MediaUtils SamplingSpec.


(** The sampling time [k * interval] is within the duration exactly when
    [k] is at most the integer part of [duration / interval]. *)
Lemma within_duration (d : Q) (k : Z) :
  gt_ZQ (k * interval) d = false <-> k <= Qfloor (d / inject_Z interval).
Proof.
  unfold gt_ZQ. rewrite negb_false_iff, Qle_bool_iff.
  assert (0 < inject_Z interval)%Q as Hi by (apply inject_Z_pos; reflexivity).
  rewrite inject_Z_mult.
  set (c := inject_Z interval) in *.
  split; intros H.
  - rewrite <- (Qfloor_Z k). apply Qfloor_resp_le.
    apply Qle_shift_div_l; assumption.
  - destruct (Qfloor_bounds (d / c)) as [Hlo _].
    rewrite Zle_Qle in H.
    assert (inject_Z k <= d / c)%Q as Hk
      by (eapply Qle_trans; eassumption).
    apply (Qmult_le_compat_r _ _ c) in Hk; [|apply Qlt_le_weak, Hi].
    assert (d / c * c == d)%Q as Hdc by (field; lra).
    rewrite Hdc in Hk. exact Hk.
Qed.

Lemma expected_count_range (d : Q) :
  (0 <= d)%Q -> 1 <= expected_count d <= maxFrames.
Proof.
  intros Hd. unfold expected_count.
  assert (0 <= Qfloor (d / inject_Z interval)) as H.
  { apply Qfloor_nonneg. apply Qle_shift_div_l; [apply inject_Z_pos; reflexivity|]. lra. }
  unfold maxFrames in *. lia.
Qed.

Section Run.
Variable v : VideoSource.
Hypothesis context_available : has_context v = true.
Hypothesis seeks_complete : forall t, seek_completes v t = true.

(** From round [k] on, the loop captures the frames of the rounds that
    are left and resolves with all of them. *)
Lemma captureFrame_from (n : nat) :
  Z.of_nat n = expected_count (duration v) ->
  forall fuel k s,
    (k <= n)%nat -> (n - k <= fuel)%nat ->
    currentTime s = Z.of_nat k * interval ->
    frameCount s = Z.of_nat k ->
    frames s = map (frame_at v) (seq 0 k) ->
    fst (captureFrame fuel v s) = Resolve (map (frame_at v) (seq 0 n)).
Proof.
  intros Hn fuel.
  induction fuel as [|fuel IH]; intros k s Hk Hfuel Ht Hc Hf.
  - assert (k = n) as -> by lia.
    simpl. rewrite Ht, Hc.
    destruct (gt_ZQ (Z.of_nat n * interval) (duration v)) eqn:Hgt;
      [simpl; rewrite Hf; reflexivity|].
    apply within_duration in Hgt.
    destruct (maxFrames <=? Z.of_nat n) eqn:Hmax;
      [simpl; rewrite Hf; reflexivity|].
    apply Z.leb_gt in Hmax. unfold expected_count in Hn. lia.
  - simpl. rewrite Ht, Hc.
    destruct (Nat.eq_dec k n) as [->|Hne].
    + destruct (gt_ZQ (Z.of_nat n * interval) (duration v)) eqn:Hgt;
        [simpl; rewrite Hf; reflexivity|].
      apply within_duration in Hgt.
      destruct (maxFrames <=? Z.of_nat n) eqn:Hmax;
        [simpl; rewrite Hf; reflexivity|].
      apply Z.leb_gt in Hmax. unfold expected_count in Hn. lia.
    + assert (gt_ZQ (Z.of_nat k * interval) (duration v) = false) as ->.
      { apply within_duration. unfold expected_count in Hn. lia. }
      assert ((maxFrames <=? Z.of_nat k) = false) as ->.
      { apply Z.leb_gt. unfold expected_count in Hn. lia. }
      simpl. rewrite seeks_complete, context_available.
      apply (IH (S k)); [lia | lia | | | ].
      * simpl currentTime. rewrite Ht. unfold interval. lia.
      * simpl frameCount. rewrite Hc. lia.
      * simpl frames. rewrite Hf, Ht, seq_S, map_app. reflexivity.
Qed.

Lemma extractFramesFromVideo_frames :
  (0 <= duration v)%Q ->
  fst (extractFramesFromVideo (MetadataLoaded v))
  = Resolve (map (frame_at v) (seq 0 (Z.to_nat (expected_count (duration v))))).
Proof.
  intros Hd. pose proof (expected_count_range _ Hd) as Hr.
  unfold extractFramesFromVideo.
  apply (captureFrame_from (Z.to_nat (expected_count (duration v)))) with (k := 0%nat);
    try reflexivity; unfold maxFrames in *; lia.
Qed.

End Run.

(** Whatever the video does, the promise is settled: the rounds granted
    to [captureFrame] are never used up. *)
Lemma captureFrame_settles (v : VideoSource) (fuel : nat) (s : sampler) :
  maxFrames - frameCount s <= Z.of_nat fuel ->
  fst (captureFrame fuel v s) <> Pending.
Proof.
  revert s. induction fuel as [|fuel IH]; intros s Hfuel; simpl.
  - destruct (gt_ZQ _ _); simpl; [discriminate|].
    destruct (maxFrames <=? frameCount s) eqn:E; [discriminate|].
    apply Z.leb_gt in E. lia.
  - destruct (gt_ZQ _ _); simpl; [discriminate|].
    destruct (maxFrames <=? frameCount s) eqn:E; [discriminate|].
    destruct (seek_completes v _); [|discriminate].
    destruct (has_context v); [|discriminate].
    apply IH. simpl. lia.
Qed.

Lemma extractFramesFromVideo_settles (file : VideoFile) :
  fst (extractFramesFromVideo file) <> Pending.
Proof.
  destruct file as [v|]; [|discriminate].
  unfold extractFramesFromVideo.
  apply captureFrame_settles. unfold maxFrames. simpl. lia.
Qed.

Lemma timestamps_frame_at (v : VideoSource) (n : nat) :
  map timestamp (map (frame_at v) (seq 0 n))
  = map (fun k => Z.of_nat k * interval) (seq 0 n).
Proof. rewrite map_map. reflexivity. Qed.

(** C1.  For a video whose metadata loads with duration [D >= 0], with
    the canvas context available and every seek completing,
    [extractFramesFromVideo] resolves with exactly
    [min(maxFrames, floor(D / interval) + 1)] frames, where
    [interval = 3] and [maxFrames = 10], and their timestamps are
    [0, 3, 6, ...] in order: the frame at (0-based) position [k] has
    timestamp [k * interval]. *)
Theorem extractFrames_count_and_timestamps (v : VideoSource) :
  has_context v = true ->
  (forall t, seek_completes v t = true) ->
  (0 <= duration v)%Q ->
  exists frames,
    fst (extractFramesFromVideo (MetadataLoaded v)) = Resolve frames
    /\ interval = 3 /\ maxFrames = 10
    /\ Z.of_nat (length frames)
       = Z.min maxFrames (Qfloor (duration v / inject_Z interval) + 1)
    /\ map timestamp frames
       = map (fun k => Z.of_nat k * interval) (seq 0 (length frames))
    /\ forall k fr, frames !! k = Some fr -> timestamp fr = Z.of_nat k * interval.
Proof.
  intros Hctx Hseek Hd.
  pose proof (expected_count_range _ Hd) as Hr.
  eexists. split; [apply extractFramesFromVideo_frames; assumption|].
  split; [reflexivity|]. split; [reflexivity|].
  rewrite length_map, length_seq.
  split; [unfold expected_count in *; lia|].
  split; [apply timestamps_frame_at|].
  intros k fr Hk.
  rewrite list_lookup_fmap in Hk.
  destruct (seq 0 _ !! k) as [i|] eqn:Hi; [|discriminate].
  apply lookup_seq in Hi as [-> _]. simpl in Hk.
  injection Hk as <-. reflexivity.
Qed.

End Sampling.

Section SamplingFirstFrame.
Import JsNumber MediaUtils SamplingSpec Scenarios.

Lemma extractFrames_count_and_timestamps_witness :
  exists frames,
    fst (extractFramesFromVideo (MetadataLoaded (clip 7))) = Resolve frames
    /\ interval = 3 /\ maxFrames = 10
    /\ Z.of_nat (length frames)
       = Z.min maxFrames (Qfloor (duration (clip 7) / inject_Z interval) + 1)
    /\ map timestamp frames
       = map (fun k => Z.of_nat k * interval) (seq 0 (length frames))
    /\ forall k fr, frames !! k = Some fr -> timestamp fr = Z.of_nat k * interval.
Proof.
  apply (extractFrames_count_and_timestamps (clip 7)).
  - reflexivity.
  - intros t. reflexivity.
  - vm_compute. discriminate.
Defined.

(** C9.  For a video whose metadata loads with duration [D >= 0], with the
    canvas context available and every seek completing, the frames that
    [extractFramesFromVideo] resolves with start with a frame of timestamp
    [0], so the frame set is never empty; and for [D = 0] that frame is
    the only one. *)
Theorem extractFrames_first_frame (v : VideoSource) :
  has_context v = true ->
  (forall t, seek_completes v t = true) ->
  (0 <= duration v)%Q ->
  exists first rest,
    fst (extractFramesFromVideo (MetadataLoaded v)) = Resolve (first :: rest)
    /\ timestamp first = 0
    /\ ((duration v == 0)%Q -> rest = []).
Proof.
  intros Hctx Hseek Hd.
  pose proof (expected_count_range _ Hd) as Hr.
  rewrite (extractFramesFromVideo_frames v Hctx Hseek Hd).
  destruct (Z.to_nat (expected_count (duration v))) as [|n] eqn:En; [lia|].
  exists (frame_at v 0), (map (frame_at v) (seq 1 n)).
  split; [reflexivity|]. split; [reflexivity|].
  intros Hzero.
  assert (expected_count (duration v) = 1) as H1.
  { unfold expected_count. rewrite Hzero. reflexivity. }
  assert (n = 0%nat) as -> by lia. reflexivity.
Qed.

Lemma extractFrames_first_frame_witness :
  exists first rest,
    fst (extractFramesFromVideo (MetadataLoaded (clip 0))) = Resolve (first :: rest)
    /\ timestamp first = 0
    /\ ((duration (clip 0) == 0)%Q -> rest = []).
Proof.
  apply (extractFrames_first_frame (clip 0)).
  - reflexivity.
  - intros t. reflexivity.
  - vm_compute. discriminate.
Defined.

End SamplingFirstFrame.

(** ** [withExponentialBackoff] *)

Section RetryFacts.
Import Async Session Retry RetrySpec.
Context {W T : Type}.

(** The recursion equation of the source: [retries] is tested against
    zero and decremented, [delay] is doubled. *)
Lemma withExponentialBackoff_unfold (fn : M (session W) T) (retries delay : Z) :
  withExponentialBackoff fn retries delay
  = try_catch fn (fun error =>
      if retries <=? 0 then throw error
      else
        let* _ := emit (ConsoleWarn delay error) in
        let* _ := emit (SetTimeout delay) in
        withExponentialBackoff fn (retries - 1) (delay * 2)).
Proof.
  unfold withExponentialBackoff.
  destruct (retries <=? 0) eqn:E.
  - apply Z.leb_le in E.
    replace (Z.to_nat retries) with 0%nat by lia. reflexivity.
  - apply Z.leb_gt in E.
    replace (Z.to_nat retries) with (S (Z.to_nat (retries - 1))) by lia.
    reflexivity.
Qed.

(** One failed attempt with retries left: a warning, a wait, and the rest
    of the budget with the delay doubled. *)
Lemma backoff_failed_attempt (op : W -> outcome T * W) (n : nat) (d : Z)
    (w w' : W) (e : JsError) (tr : list event) :
  op w = (Rejected e, w') ->
  backoff (perform op) (S n) d {| world := w; trace := tr |}
  = backoff (perform op) n (d * 2)
      {| world := w'; trace := tr ++ [ConsoleWarn d e; SetTimeout d] |}.
Proof.
  intros H. cbn [backoff]. unfold try_catch at 1, perform at 1. cbn [world trace].
  rewrite H. unfold bind, emit, modify, log. cbn [world trace].
  rewrite <- app_assoc. reflexivity.
Qed.

(** The last attempt: its outcome is the outcome of the whole call. *)
Lemma backoff_last_attempt (op : W -> outcome T * W) (d : Z)
    (w w' : W) (o : outcome T) (tr : list event) :
  op w = (o, w') ->
  backoff (perform op) 0 d {| world := w; trace := tr |}
  = (o, {| world := w'; trace := tr |}).
Proof.
  intros H. cbn [backoff]. unfold try_catch, perform, throw. cbn [world trace].
  rewrite H. destruct o; reflexivity.
Qed.

(** A successful attempt ends the call at once. *)
Lemma backoff_success (op : W -> outcome T * W) (n : nat) (d : Z)
    (w w' : W) (v : T) (tr : list event) :
  op w = (Resolved v, w') ->
  backoff (perform op) n d {| world := w; trace := tr |}
  = (Resolved v, {| world := w'; trace := tr |}).
Proof.
  intros H. destruct n; cbn [backoff]; unfold try_catch, perform; cbn [world trace];
    rewrite H; reflexivity.
Qed.

(** The same for any wrapped computation. *)
Lemma backoff_resolves_at_once (fn : M (session W) T) (n : nat) (d : Z)
    (s s' : session W) (v : T) :
  fn s = (Resolved v, s') -> backoff fn n d s = (Resolved v, s').
Proof.
  intros H. destruct n; cbn [backoff]; unfold try_catch; rewrite H; reflexivity.
Qed.

Lemma waits_app (a b : list event) : waits (a ++ b) = waits a ++ waits b.
Proof. unfold waits. apply omap_app. Qed.

Lemma doubling_S (d : Z) (n : nat) : doubling d (S n) = d :: doubling (d * 2) n.
Proof.
  unfold doubling. cbn [seq map]. f_equal; [simpl; lia|].
  rewrite <- seq_shift, map_map. apply map_ext. intros i.
  rewrite Nat2Z.inj_succ, Z.pow_succ_r by lia. lia.
Qed.

Lemma failures_S (op : W -> outcome T * W) (n : nat) (w : W) :
  failures op (S n) w
  = match op w with
    | (Rejected e, w') =>
        match failures op n w' with
        | Some (es, w'') => Some (e :: es, w'')
        | None => None
        end
    | (Resolved _, _) => None
    end.
Proof. reflexivity. Qed.

(** When every attempt fails, the error of the last one is thrown, after
    one wait per retry, each twice the one before. *)
Lemma backoff_exhausted (op : W -> outcome T * W) (n : nat) :
  forall (d : Z) (w w' : W) (es : list JsError) (tr : list event),
    failures op (S n) w = Some (es, w') ->
    exists e s',
      last es = Some e
      /\ backoff (perform op) n d {| world := w; trace := tr |} = (Rejected e, s')
      /\ world s' = w'
      /\ waits (trace s') = waits tr ++ doubling d n.
Proof.
  induction n as [|n IH]; intros d w w' es tr H.
  - cbn [failures] in H. destruct (op w) as [[v|e] w1] eqn:Hop; [discriminate|].
    injection H as <- <-.
    exists e, {| world := w1; trace := tr |}.
    split; [reflexivity|]. split; [apply backoff_last_attempt, Hop|].
    split; [reflexivity|]. unfold doubling. simpl. rewrite app_nil_r. reflexivity.
  - rewrite failures_S in H. destruct (op w) as [[v|e] w1] eqn:Hop; [discriminate|].
    destruct (failures op (S n) w1) as [[es1 w2]|] eqn:Hrest; [|discriminate].
    injection H as <- <-.
    destruct (IH (d * 2) w1 w2 es1 (tr ++ [ConsoleWarn d e; SetTimeout d]) Hrest)
      as (e' & s' & Hlast & Hrun & Hw & Hwaits).
    exists e', s'. split.
    { destruct es1 as [|e1 es1]; [discriminate Hlast|]. exact Hlast. }
    split; [rewrite (backoff_failed_attempt _ _ _ _ _ _ _ Hop); exact Hrun|].
    split; [exact Hw|].
    rewrite Hwaits, waits_app, doubling_S, <- app_assoc. reflexivity.
Qed.

End RetryFacts.

Section RetryBudget.
Import Async Session Retry RetrySpec Scenarios.

(** C2.  With the default budget [retries = 3], [delay = 1000]: when the
    operation fails on its first three invocations, the outcome of the
    fourth invocation is the outcome of [withExponentialBackoff], be it
    the success value or the error, which is passed on as it was thrown;
    before it there are exactly three retries, announced and waited for
    with 1000, 2000 and 4000 milliseconds.  For any budget [n] and first
    delay [d], when all [n + 1] invocations fail, the error of the last
    one is thrown after the waits [d, 2d, 4d, ...], each twice the one
    before, with no upper bound. *)
Theorem withExponentialBackoff_default_budget {W T : Type}
    (op : W -> outcome T * W) (w0 w1 w2 w3 w4 : W)
    (e1 e2 e3 : JsError) (o : outcome T) (tr : list event) :
  op w0 = (Rejected e1, w1) ->
  op w1 = (Rejected e2, w2) ->
  op w2 = (Rejected e3, w3) ->
  op w3 = (o, w4) ->
  default_retries = 3 /\ default_delay = 1000
  /\ withExponentialBackoff (perform op) default_retries default_delay
       {| world := w0; trace := tr |}
     = (o, {| world := w4;
              trace := tr ++ [ ConsoleWarn 1000 e1; SetTimeout 1000;
                               ConsoleWarn 2000 e2; SetTimeout 2000;
                               ConsoleWarn 4000 e3; SetTimeout 4000 ] |})
  /\ waits (trace (snd (withExponentialBackoff (perform op) default_retries
                          default_delay {| world := w0; trace := tr |})))
     = waits tr ++ [1000; 2000; 4000]
  /\ forall (n : nat) (d : Z) (w w' : W) (es : list JsError),
       failures op (S n) w = Some (es, w') ->
       exists e s',
         last es = Some e
         /\ withExponentialBackoff (perform op) (Z.of_nat n) d
              {| world := w; trace := tr |} = (Rejected e, s')
         /\ world s' = w'
         /\ waits (trace s') = waits tr ++ doubling d n.
Proof.
  intros H1 H2 H3 H4.
  assert (Hrun : withExponentialBackoff (perform op) default_retries default_delay
                   {| world := w0; trace := tr |}
                 = (o, {| world := w4;
                          trace := tr ++ [ ConsoleWarn 1000 e1; SetTimeout 1000;
                                           ConsoleWarn 2000 e2; SetTimeout 2000;
                                           ConsoleWarn 4000 e3; SetTimeout 4000 ] |})).
  { unfold withExponentialBackoff, default_retries, default_delay.
    change (Z.to_nat 3) with 3%nat.
    rewrite (backoff_failed_attempt _ _ _ _ _ _ _ H1).
    rewrite (backoff_failed_attempt _ _ _ _ _ _ _ H2).
    rewrite (backoff_failed_attempt _ _ _ _ _ _ _ H3).
    rewrite (backoff_last_attempt _ _ _ _ _ _ H4).
    rewrite <- !app_assoc. reflexivity. }
  split; [reflexivity|]. split; [reflexivity|].
  split; [exact Hrun|].
  split.
  { rewrite Hrun. cbn [snd trace]. rewrite waits_app. reflexivity. }
  intros n d w w' es Hfail.
  unfold withExponentialBackoff. rewrite Nat2Z.id.
  apply backoff_exhausted. exact Hfail.
Qed.

Lemma withExponentialBackoff_default_budget_witness :
  let e1 := Error "first" in
  let e2 := Error "second" in
  let e3 := Error "third" in
  let w0 : script nat := [Rejected e1; Rejected e2; Rejected e3; Resolved 42%nat] in
  withExponentialBackoff (perform next) default_retries default_delay (start w0)
  = (Resolved 42%nat,
     {| world := [];
        trace := [ ConsoleWarn 1000 e1; SetTimeout 1000;
                   ConsoleWarn 2000 e2; SetTimeout 2000;
                   ConsoleWarn 4000 e3; SetTimeout 4000 ] |}).
Proof.
  intros e1 e2 e3 w0.
  refine (proj1 (proj2 (proj2
    (withExponentialBackoff_default_budget next
       w0 [Rejected e2; Rejected e3; Resolved 42%nat]
       [Rejected e3; Resolved 42%nat] [Resolved 42%nat] []
       e1 e2 e3 (Resolved 42%nat) [] _ _ _ _)))); reflexivity.
Defined.

End RetryBudget.

(** ** [analyzeVideoFrames] *)

Section ChatTurns.
Import Async Session Retry RetrySpec GeminiService GeminiSpec.
Context {W : Type}.
Variable sendMessage : message -> W -> outcome response * W.

Lemma chat_turn_run (m : message) (s : session W) :
  chat_turn sendMessage m s
  = match sendMessage m (world s) with
    | (Resolved r, w) =>
        (Resolved (text r), {| world := w; trace := trace s ++ [ChatSend m] |})
    | (Rejected e, w) =>
        (Rejected e, {| world := w; trace := trace s ++ [ChatSend m] |})
    end.
Proof.
  unfold chat_turn, chat_sendMessage, bind, emit, modify, perform, log, ret.
  cbn [world trace].
  destruct (sendMessage m (world s)) as [[r|e] w]; reflexivity.
Qed.

(** What a retry-wrapped turn adds to the trace: only events of that
    turn, starting with a request; when it fails, the whole budget was
    spent. *)
Lemma backoff_turn_trace (m : message) (n : nat) :
  forall (d : Z) (s s' : session W) (o : outcome (option string)),
    backoff (chat_turn sendMessage m) n d s = (o, s') ->
    exists ev,
      trace s' = trace s ++ ChatSend m :: ev
      /\ Forall (belongs_to_turn m) ev
      /\ (forall e, o = Rejected e ->
            waits (ChatSend m :: ev) = doubling d n
            /\ length (requests (ChatSend m :: ev)) = S n).
Proof.
  induction n as [|n IH]; intros d s s' o H.
  - cbn [backoff] in H. unfold try_catch in H. rewrite chat_turn_run in H.
    destruct (sendMessage m (world s)) as [[r|e] w]; injection H as <- <-;
      exists []; cbn [trace]; (split; [reflexivity|]); (split; [constructor|]);
      intros e' He'; try discriminate; split; reflexivity.
  - cbn [backoff] in H. unfold try_catch in H. rewrite chat_turn_run in H.
    destruct (sendMessage m (world s)) as [[r|e] w].
    + injection H as <- <-. exists []. cbn [trace].
      split; [reflexivity|]. split; [constructor|]. intros e' He'. discriminate.
    + unfold bind, emit, modify, log in H. cbn [world trace] in H.
      apply IH in H as (ev & Htr & Hev & Hrej). cbn [trace] in Htr.
      exists (ConsoleWarn d e :: SetTimeout d :: ChatSend m :: ev).
      split.
      { rewrite Htr, <- !app_assoc. reflexivity. }
      split.
      { repeat constructor. exact Hev. }
      intros e' He'. destruct (Hrej e' He') as [Hw Hr].
      split.
      * rewrite doubling_S. cbn. cbn in Hw. rewrite Hw. reflexivity.
      * cbn. cbn in Hr. rewrite Hr. reflexivity.
Qed.

Lemma frame_turn_trace (i : nat) (frame : MediaUtils.ExtractedFrame)
    (s s' : session W) (o : outcome (option string)) :
  frame_turn sendMessage i frame s = (o, s') ->
  exists ev,
    trace s' = trace s ++ ChatSend (frame_message i frame) :: ev
    /\ Forall (belongs_to_turn (frame_message i frame)) ev
    /\ (forall e, o = Rejected e ->
          waits (ChatSend (frame_message i frame) :: ev) = [1000; 2000; 4000]
          /\ length (requests (ChatSend (frame_message i frame) :: ev)) = 4%nat).
Proof.
  intros H. exact (backoff_turn_trace _ _ _ _ _ _ H).
Qed.

Lemma final_turn_trace (s s' : session W) (o : outcome (option string)) :
  final_turn sendMessage s = (o, s') ->
  exists ev,
    trace s' = trace s ++ ChatSend final_report_message :: ev
    /\ Forall (belongs_to_turn final_report_message) ev.
Proof.
  intros H. destruct (backoff_turn_trace _ _ _ _ _ _ H) as (ev & H1 & H2 & _).
  exists ev. split; assumption.
Qed.

(** One round of the loop. *)
Lemma process_frames_cons (i : nat) (frame : MediaUtils.ExtractedFrame)
    (rest : list MediaUtils.ExtractedFrame)
    (acc : list Types.VideoFrameAnalysis) (s : session W) :
  process_frames sendMessage i (frame :: rest) acc s
  = match frame_turn sendMessage i frame s with
    | (Resolved a, s') =>
        process_frames sendMessage (S i) rest (acc ++ [frame_result frame a])
          (log (FrameAnalyzed (frame_result frame a)) s')
    | (Rejected e, s') => (Rejected e, s')
    end.
Proof.
  cbn [process_frames]. unfold bind at 1.
  destruct (frame_turn sendMessage i frame s) as [[a|e] s']; reflexivity.
Qed.

Lemma analyzeVideoFrames_run (frames : list MediaUtils.ExtractedFrame)
    (s : session W) :
  analyzeVideoFrames sendMessage frames s
  = match process_frames sendMessage 0 frames [] s with
    | (Resolved rs, s1) =>
        let '(o, s2) := final_turn sendMessage s1 in (report_of rs o, s2)
    | (Rejected e, s1) => (Rejected e, s1)
    end.
Proof.
  unfold analyzeVideoFrames, bind.
  destruct (process_frames sendMessage 0 frames [] s) as [[rs|e] s1]; [|reflexivity].
  destruct (final_turn sendMessage s1) as [[t|e] s2]; reflexivity.
Qed.

Lemma belongs_to_turn_no_callback (m : message) (ev : list event) :
  Forall (belongs_to_turn m) ev -> callbacks ev = [].
Proof.
  induction 1 as [|e ev He _ IH]; [reflexivity|].
  destruct e; cbn in *; try contradiction; exact IH.
Qed.

Lemma turn_no_callback (m : message) (ev : list event) :
  Forall (belongs_to_turn m) ev -> callbacks (ChatSend m :: ev) = [].
Proof. intros H. exact (belongs_to_turn_no_callback m ev H). Qed.

Lemma callbacks_single (r : Types.VideoFrameAnalysis) :
  callbacks [FrameAnalyzed r] = [r].
Proof. reflexivity. Qed.

Lemma belongs_to_turn_requests (m : message) (ev : list event) :
  Forall (belongs_to_turn m) ev -> Forall (fun m' => m' = m) (requests ev).
Proof.
  induction 1 as [|e ev He _ IH]; [constructor|].
  destruct e; cbn in *; try contradiction; try exact IH.
  constructor; assumption.
Qed.

Lemma callbacks_app (a b : list event) : callbacks (a ++ b) = callbacks a ++ callbacks b.
Proof. unfold callbacks. apply omap_app. Qed.

Lemma requests_app (a b : list event) : requests (a ++ b) = requests a ++ requests b.
Proof. unfold requests. apply omap_app. Qed.

End ChatTurns.

Section SequentialAnalysis.
Import Async Session Retry RetrySpec GeminiService GeminiSpec.
Import MediaUtils.
Context {W : Type}.
Variable sendMessage : message -> W -> outcome response * W.

(** C3.  Let the first frame of [[f0; f1; f2]] be analyzed successfully.
    - When the turns of [f1] and [f2] succeed as well, the events of the
      run are, in this order: the turn of [f0], the callback for [f0], the
      turn of [f1], the callback for [f1], the turn of [f2], the callback
      for [f2], and the turn of the final report.  So exactly three
      callbacks are made, in the order of the frames, each before the next
      frame is sent and all before the final report is requested; and a
      result with a [finalReport] exists only after all of that, when the
      final turn resolves.
    - When the retries of [f1] are used up (four requests, after waits of
      1000, 2000 and 4000 ms), the run is rejected with that error; the
      only callback made is the one for [f0], and the final report is
      never requested. *)
Theorem analyzeVideoFrames_three_frames
    (f0 f1 f2 : ExtractedFrame) (s s0 : session W) (a0 : option string) :
  frame_turn sendMessage 0 f0 s = (Resolved a0, s0) ->
  let r0 := frame_result f0 a0 in
  let m0 := frame_message 0 f0 in
  let m1 := frame_message 1 f1 in
  let m2 := frame_message 2 f2 in
  (forall a1 s1 a2 s2 o s3,
     let r1 := frame_result f1 a1 in
     let r2 := frame_result f2 a2 in
     frame_turn sendMessage 1 f1 (log (FrameAnalyzed r0) s0) = (Resolved a1, s1) ->
     frame_turn sendMessage 2 f2 (log (FrameAnalyzed r1) s1) = (Resolved a2, s2) ->
     final_turn sendMessage (log (FrameAnalyzed r2) s2) = (o, s3) ->
     analyzeVideoFrames sendMessage [f0; f1; f2] s = (report_of [r0; r1; r2] o, s3)
     /\ map Types.timestamp [r0; r1; r2]
        = map (fun f => formatTime (inject_Z (timestamp f))) [f0; f1; f2]
     /\ exists ev0 ev1 ev2 evf,
          trace s3
          = trace s ++ (ChatSend m0 :: ev0) ++ [FrameAnalyzed r0]
                    ++ (ChatSend m1 :: ev1) ++ [FrameAnalyzed r1]
                    ++ (ChatSend m2 :: ev2) ++ [FrameAnalyzed r2]
                    ++ (ChatSend final_report_message :: evf)
          /\ Forall (belongs_to_turn m0) ev0
          /\ Forall (belongs_to_turn m1) ev1
          /\ Forall (belongs_to_turn m2) ev2
          /\ Forall (belongs_to_turn final_report_message) evf
          /\ callbacks (trace s3) = callbacks (trace s) ++ [r0; r1; r2])
  /\ (forall e s1,
        frame_turn sendMessage 1 f1 (log (FrameAnalyzed r0) s0) = (Rejected e, s1) ->
        analyzeVideoFrames sendMessage [f0; f1; f2] s = (Rejected e, s1)
        /\ exists ev0 ev1,
             trace s1
             = trace s ++ (ChatSend m0 :: ev0) ++ [FrameAnalyzed r0]
                       ++ (ChatSend m1 :: ev1)
             /\ Forall (belongs_to_turn m0) ev0
             /\ Forall (belongs_to_turn m1) ev1
             /\ waits (ChatSend m1 :: ev1) = [1000; 2000; 4000]
             /\ length (requests (ChatSend m1 :: ev1)) = 4%nat
             /\ callbacks (trace s1) = callbacks (trace s) ++ [r0]
             /\ Forall (fun m => m <> final_report_message)
                  (requests ((ChatSend m0 :: ev0) ++ [FrameAnalyzed r0]
                             ++ (ChatSend m1 :: ev1)))).
Proof.
  intros H0 r0 m0 m1 m2.
  destruct (frame_turn_trace _ _ _ _ _ _ H0) as (ev0 & T0 & E0 & _).
  fold m0 in T0, E0.
  split.
  - intros a1 s1 a2 s2 o s3 r1 r2 H1 H2 Hf.
    destruct (frame_turn_trace _ _ _ _ _ _ H1) as (ev1 & T1 & E1 & _).
    destruct (frame_turn_trace _ _ _ _ _ _ H2) as (ev2 & T2 & E2 & _).
    destruct (final_turn_trace _ _ _ _ Hf) as (evf & Tf & Ef).
    fold m1 in T1, E1. fold m2 in T2, E2.
    cbn [log trace] in T1, T2, Tf.
    split.
    { rewrite analyzeVideoFrames_run.
      rewrite process_frames_cons, H0. fold r0.
      rewrite process_frames_cons, H1. fold r1.
      rewrite process_frames_cons, H2. fold r2.
      cbn [process_frames app]. unfold ret. rewrite Hf. reflexivity. }
    split; [reflexivity|].
    assert (trace s3
            = trace s ++ (ChatSend m0 :: ev0) ++ [FrameAnalyzed r0]
                      ++ (ChatSend m1 :: ev1) ++ [FrameAnalyzed r1]
                      ++ (ChatSend m2 :: ev2) ++ [FrameAnalyzed r2]
                      ++ (ChatSend final_report_message :: evf)) as Htr.
    { rewrite Tf, T2, T1, T0, <- !app_assoc. reflexivity. }
    exists ev0, ev1, ev2, evf.
    split; [exact Htr|]. repeat (split; [assumption|]).
    rewrite Htr, !callbacks_app, !callbacks_single.
    rewrite (turn_no_callback _ _ E0), (turn_no_callback _ _ E1),
      (turn_no_callback _ _ E2), (turn_no_callback _ _ Ef).
    reflexivity.
  - intros e s1 H1.
    destruct (frame_turn_trace _ _ _ _ _ _ H1) as (ev1 & T1 & E1 & R1).
    fold m1 in T1, E1, R1. cbn [log trace] in T1.
    destruct (R1 e eq_refl) as [Hw Hr].
    split.
    { rewrite analyzeVideoFrames_run.
      rewrite process_frames_cons, H0. fold r0.
      rewrite process_frames_cons, H1. reflexivity. }
    assert (trace s1
            = trace s ++ (ChatSend m0 :: ev0) ++ [FrameAnalyzed r0]
                      ++ (ChatSend m1 :: ev1)) as Htr.
    { rewrite T1, T0, <- !app_assoc. reflexivity. }
    exists ev0, ev1.
    split; [exact Htr|]. repeat (split; [assumption|]).
    split.
    { rewrite Htr, !callbacks_app, !callbacks_single.
      rewrite (turn_no_callback _ _ E0), (turn_no_callback _ _ E1).
      reflexivity. }
    rewrite !requests_app. cbn.
    apply Forall_cons. split; [discriminate|].
    apply Forall_app. split.
    + eapply Forall_impl; [apply (belongs_to_turn_requests _ _ E0)|].
      intros m ->. discriminate.
    + apply Forall_cons. split; [discriminate|].
      eapply Forall_impl; [apply (belongs_to_turn_requests _ _ E1)|].
      intros m ->. discriminate.
Qed.

End SequentialAnalysis.

Section SequentialAnalysisRuns.
Import Async Session Retry RetrySpec GeminiService GeminiSpec.
Import MediaUtils Scenarios.

Lemma analyzeVideoFrames_three_frames_witness :
  (exists s3,
     analyzeVideoFrames scripted_chat [f0; f1; f2] (start quiet_service)
     = (Resolved
          {| Types.frames :=
               [ frame_result f0 (Some "A cat on a sofa.");
                 frame_result f1 (Some "The cat has moved.");
                 frame_result f2 None ];
             Types.finalReport := "Could not generate final report." |}, s3)
     /\ callbacks (trace s3)
        = [ frame_result f0 (Some "A cat on a sofa.");
            frame_result f1 (Some "The cat has moved.");
            frame_result f2 None ])
  /\ (exists s1,
        analyzeVideoFrames scripted_chat [f0; f1; f2] (start failing_service)
        = (Rejected unavailable, s1)
        /\ callbacks (trace s1) = [ frame_result f0 (Some "A cat on a sofa.") ]).
Proof.
  split.
  - pose (s0 := snd (frame_turn scripted_chat 0 f0 (start quiet_service))).
    assert (H0 : frame_turn scripted_chat 0 f0 (start quiet_service)
                 = (Resolved (Some "A cat on a sofa."), s0)) by reflexivity.
    destruct (analyzeVideoFrames_three_frames scripted_chat f0 f1 f2 _ _ _ H0)
      as [Hall _].
    pose (r0 := frame_result f0 (Some "A cat on a sofa.")).
    pose (s1 := snd (frame_turn scripted_chat 1 f1 (log (FrameAnalyzed r0) s0))).
    pose (r1 := frame_result f1 (Some "The cat has moved.")).
    pose (s2 := snd (frame_turn scripted_chat 2 f2 (log (FrameAnalyzed r1) s1))).
    pose (r2 := frame_result f2 None).
    pose (s3 := snd (final_turn scripted_chat (log (FrameAnalyzed r2) s2))).
    destruct (Hall (Some "The cat has moved.") s1 None s2 (Resolved (Some "")) s3)
      as (Hrun & _ & ev0 & ev1 & ev2 & evf & _ & _ & _ & _ & _ & Hcb);
      [reflexivity | reflexivity | reflexivity |].
    exists s3. split; [exact Hrun | exact Hcb].
  - pose (s0 := snd (frame_turn scripted_chat 0 f0 (start failing_service))).
    assert (H0 : frame_turn scripted_chat 0 f0 (start failing_service)
                 = (Resolved (Some "A cat on a sofa."), s0)) by reflexivity.
    destruct (analyzeVideoFrames_three_frames scripted_chat f0 f1 f2 _ _ _ H0)
      as [_ Hfail].
    pose (r0 := frame_result f0 (Some "A cat on a sofa.")).
    pose (s1 := snd (frame_turn scripted_chat 1 f1 (log (FrameAnalyzed r0) s0))).
    destruct (Hfail unavailable s1)
      as (Hrun & ev0 & ev1 & _ & _ & _ & _ & _ & Hcb & _); [reflexivity|].
    exists s1. split; [exact Hrun | exact Hcb].
Defined.

End SequentialAnalysisRuns.

(** ** The fallback texts *)

Section Fallbacks.
Import Async Session Retry GeminiService GeminiSpec.
Import MediaUtils.
Context {W : Type}.
Variable sendMessage : message -> W -> outcome response * W.

Lemma or_else_nonempty (t : option string) (fallback : string) :
  fallback <> "" -> or_else t fallback <> "".
Proof.
  intros Hf. unfold or_else. destruct t as [s|]; [|exact Hf].
  destruct (String.eqb s "") eqn:E; [exact Hf|].
  apply String.eqb_neq in E. exact E.
Qed.

Lemma or_else_falsy (t : option string) (fallback : string) :
  t = None \/ t = Some "" -> or_else t fallback = fallback.
Proof. intros [-> | ->]; reflexivity. Qed.

Lemma frame_result_nonempty (frame : ExtractedFrame) (t : option string) :
  Types.analysis (frame_result frame t) <> "".
Proof. apply or_else_nonempty. discriminate. Qed.

(** The loop only ever adds entries with a non-empty analysis, one per
    frame. *)
Lemma process_frames_nonempty (frames : list ExtractedFrame) :
  forall (i : nat) (acc rs : list Types.VideoFrameAnalysis) (s s' : session W),
    process_frames sendMessage i frames acc s = (Resolved rs, s') ->
    Forall (fun fr => Types.analysis fr <> "") acc ->
    Forall (fun fr => Types.analysis fr <> "") rs
    /\ length rs = (length acc + length frames)%nat.
Proof.
  induction frames as [|frame rest IH]; intros i acc rs s s' H Hacc.
  - cbn in H. injection H as <- <-. split; [exact Hacc|]. cbn. lia.
  - rewrite process_frames_cons in H.
    destruct (frame_turn sendMessage i frame s) as [[a|e] s1]; [|discriminate].
    apply IH in H as [Hrs Hlen].
    + split; [exact Hrs|]. rewrite Hlen, length_app. cbn. lia.
    + apply Forall_app. split; [exact Hacc|].
      apply Forall_cons. split; [apply frame_result_nonempty|constructor].
Qed.

(** A turn whose response carries no text is not a failed turn: it
    resolves at the first request. *)
Lemma final_turn_first_response (s : session W) (r : response) (w : W) :
  sendMessage final_report_message (world s) = (Resolved r, w) ->
  final_turn sendMessage s
  = (Resolved (text r),
     {| world := w; trace := trace s ++ [ChatSend final_report_message] |}).
Proof.
  intros H. unfold final_turn, withExponentialBackoff.
  apply backoff_resolves_at_once. rewrite chat_turn_run, H. reflexivity.
Qed.

(** C10.  In the result of every successful run of [analyzeVideoFrames]
    there is one entry per frame, no entry has an empty analysis, and the
    final report is not empty.  A frame whose turn gave no text or the
    empty text gets the analysis ["No analysis provided."]; and when the
    response to the final turn has no text or the empty text, the run
    still resolves, with the final report
    ["Could not generate final report."]. *)
Theorem analyzeVideoFrames_texts_never_empty
    (frames : list ExtractedFrame) (s : session W) :
  (forall r s',
     analyzeVideoFrames sendMessage frames s = (Resolved r, s') ->
     length (Types.frames r) = length frames
     /\ Forall (fun fr => Types.analysis fr <> "") (Types.frames r)
     /\ Types.finalReport r <> "")
  /\ (forall frame t,
        t = None \/ t = Some "" ->
        Types.analysis (frame_result frame t) = "No analysis provided.")
  /\ (forall rs s1 t w2,
        process_frames sendMessage 0 frames [] s = (Resolved rs, s1) ->
        sendMessage final_report_message (world s1) = (Resolved {| text := t |}, w2) ->
        t = None \/ t = Some "" ->
        analyzeVideoFrames sendMessage frames s
        = (Resolved {| Types.frames := rs;
                       Types.finalReport := "Could not generate final report." |},
           {| world := w2;
              trace := trace s1 ++ [ChatSend final_report_message] |})).
Proof.
  split; [|split].
  - intros r s' H. rewrite analyzeVideoFrames_run in H.
    destruct (process_frames sendMessage 0 frames [] s) as [[rs|e] s1] eqn:Hloop;
      [|discriminate].
    destruct (final_turn sendMessage s1) as [[t|e] s2]; [|discriminate].
    cbn in H. injection H as <- <-. cbn.
    destruct (process_frames_nonempty _ _ _ _ _ _ Hloop (List.Forall_nil _)) as [Hrs Hlen].
    split; [exact Hlen|]. split; [exact Hrs|].
    apply or_else_nonempty. discriminate.
  - intros frame t Ht. cbn. apply or_else_falsy, Ht.
  - intros rs s1 t w2 Hloop Hsend Ht.
    rewrite analyzeVideoFrames_run, Hloop.
    rewrite (final_turn_first_response _ _ _ Hsend). cbn.
    rewrite (or_else_falsy _ _ Ht). reflexivity.
Qed.

End Fallbacks.

Section FallbackRun.
Import Async Session Retry GeminiService GeminiSpec.
Import MediaUtils Scenarios.

Lemma analyzeVideoFrames_texts_never_empty_witness :
  analyzeVideoFrames scripted_chat [f2] (start [says None; says (Some "")])
  = (Resolved
       {| Types.frames :=
            [ {| Types.timestamp := "00:06";
                 Types.analysis := "No analysis provided." |} ];
          Types.finalReport := "Could not generate final report." |},
     {| world := [];
        trace := [ ChatSend (frame_message 0 f2);
                   FrameAnalyzed {| Types.timestamp := "00:06";
                                    Types.analysis := "No analysis provided." |};
                   ChatSend final_report_message ] |}).
Proof.
  destruct (analyzeVideoFrames_texts_never_empty scripted_chat [f2]
              (start [says None; says (Some "")])) as (_ & _ & Hfinal).
  refine (Hfinal _
            {| world := [says (Some "")];
               trace := [ ChatSend (frame_message 0 f2);
                          FrameAnalyzed {| Types.timestamp := "00:06";
                                           Types.analysis := "No analysis provided." |} ] |}
            (Some "") [] _ _ _).
  - reflexivity.
  - reflexivity.
  - right. reflexivity.
Defined.

End FallbackRun.

(** ** [analyzeImage] *)

Section ImageResponses.
Import Async Session Retry GeminiService.
Context {W : Type}.
Variable generateContent : string -> W -> outcome response * W.
Variable JSON_parse : string -> outcome json.

Lemma analyzeImage_request_run (base64Image : string) (s : session W) :
  analyzeImage_request generateContent JSON_parse base64Image s
  = match generateContent base64Image (world s) with
    | (Resolved r, w) =>
        let s' := {| world := w; trace := trace s ++ [GenerateContent base64Image] |} in
        if truthy (text r)
        then match JSON_parse (default "" (text r)) with
             | Resolved v => (Resolved v, s')
             | Rejected e => (Rejected e, s')
             end
        else (Rejected (Error "No response from Gemini"), s')
    | (Rejected e, w) =>
        (Rejected e, {| world := w; trace := trace s ++ [GenerateContent base64Image] |})
    end.
Proof.
  unfold analyzeImage_request, models_generateContent, bind, emit, modify, perform, log.
  cbn [world trace].
  destruct (generateContent base64Image (world s)) as [[r|e] w]; [|reflexivity].
  destruct (truthy (text r)); [|reflexivity]. cbn.
  destruct (JSON_parse (default "" (text r))); reflexivity.
Qed.

(** C5, as the code has it.  A response whose text is not empty and
    parses as JSON makes [analyzeImage] resolve, at the first attempt,
    with the parsed value as it is, whether or not that value conforms to
    the response schema.  The operation itself only ever fails with the
    error of the request, with ["No response from Gemini"] for a missing or
    empty text, or with the error of [JSON.parse]. *)
Theorem analyzeImage_returns_parsed_value
    (base64Image : string) (s : session W) (txt : string) (v : json) (w' : W) :
  generateContent base64Image (world s) = (Resolved {| text := Some txt |}, w') ->
  txt <> "" ->
  JSON_parse txt = Resolved v ->
  analyzeImage generateContent JSON_parse base64Image s
  = (Resolved v, {| world := w'; trace := trace s ++ [GenerateContent base64Image] |})
  /\ forall (s1 s2 : session W) (e : JsError),
       analyzeImage_request generateContent JSON_parse base64Image s1 = (Rejected e, s2) ->
       (exists w, generateContent base64Image (world s1) = (Rejected e, w))
       \/ e = Error "No response from Gemini"
       \/ (exists t, JSON_parse t = Rejected e).
Proof.
  intros Hresp Htxt Hparse. split.
  - unfold analyzeImage, withExponentialBackoff.
    apply backoff_resolves_at_once.
    rewrite analyzeImage_request_run, Hresp. cbn [text truthy default].
    apply String.eqb_neq in Htxt. rewrite Htxt. cbn [negb]. cbv iota zeta.
    cbn [default from_option]. unfold id. rewrite Hparse. reflexivity.
  - intros s1 s2 e H. rewrite analyzeImage_request_run in H.
    destruct (generateContent base64Image (world s1)) as [[r|e'] w].
    + cbn zeta in H. destruct (truthy (text r)).
      * destruct (JSON_parse (default "" (text r))) as [v'|e'] eqn:Hp; [discriminate|].
        injection H as <- _. right. right. eexists. exact Hp.
      * injection H as <- _. right. left. reflexivity.
    + injection H as <- _. left. eexists. reflexivity.
Qed.

End ImageResponses.

Section ImageScenario.
Import Async Session Retry GeminiService Scenarios.

Lemma analyzeImage_returns_parsed_value_witness :
  analyzeImage scripted_service Json.parse "snapshot"
    (start [says (Some very_high_text)])
  = (Resolved very_high_value,
     {| world := []; trace := [] ++ [GenerateContent "snapshot"] |}).
Proof.
  refine (proj1 (analyzeImage_returns_parsed_value scripted_service Json.parse
            "snapshot" (start [says (Some very_high_text)])
            very_high_text very_high_value [] _ _ _)).
  - reflexivity.
  - discriminate.
  - vm_compute. reflexivity.
Defined.

(** C5, as stated, fails: the response whose only object has confidence
    ["VeryHigh"] parses as JSON and does not conform to the schema, and
    [analyzeImage] resolves with it instead of raising an error. *)
Lemma analyzeImage_accepts_unknown_confidence :
  Json.parse very_high_text = Resolved very_high_value
  /\ Schema.conforms very_high_value = false
  /\ Schema.is_confidence (JString "VeryHigh") = false
  /\ fst (analyzeImage scripted_service Json.parse "snapshot"
            (start [says (Some very_high_text)]))
     = Resolved very_high_value.
Proof. repeat split; vm_compute; reflexivity. Qed.

End ImageScenario.

(** ** The geometry of the overlay *)

Section OverlayGeometry.
Import Detection OverlaySpec.

Lemma webcam_overlay_styles (objects : list DetectedObject) :
  map style (WebcamAnalyzer.overlay objects)
  = map (fun o => style_of (box_2d o)) objects.
Proof.
  unfold WebcamAnalyzer.overlay.
  apply list_eq. intros i.
  rewrite !list_lookup_fmap, list_lookup_imap.
  destruct (objects !! i); reflexivity.
Qed.

(** C7.  Both overlays render one box per detected object, in the order
    of the objects, and the geometry of a box depends on its [box_2d]
    alone.  A box [[ymin, xmin, ymax, xmax]] is rendered with the CSS
    percentages [top = ymin / 10], [left = xmin / 10],
    [height = (ymax - ymin) / 10] and [width = (xmax - xmin) / 10]; the
    rectangle so covered, as fractions of the image, has every coordinate
    divided by 1000, and scaling it by 1000 gives back the four integers
    exactly.  For [[100, 200, 400, 600]] the rectangle is
    (0.1, 0.2, 0.4, 0.6). *)
Theorem overlay_normalized_rectangle
    (p : JsObject.prototype) (objects : list DetectedObject)
    (ymin xmin ymax xmax : Z) (rest : list Z) :
  length (ImageAnalyzer.overlay p objects) = length objects
  /\ map label (ImageAnalyzer.overlay p objects) = map name objects
  /\ map style (ImageAnalyzer.overlay p objects)
     = map (fun o => style_of (box_2d o)) objects
  /\ map style (WebcamAnalyzer.overlay objects)
     = map (fun o => style_of (box_2d o)) objects
  /\ (exists st,
        style_of (ymin :: xmin :: ymax :: xmax :: rest) = Some st
        /\ (top st == inject_Z ymin / 10)%Q
        /\ (left st == inject_Z xmin / 10)%Q
        /\ (height st == inject_Z (ymax - ymin) / 10)%Q
        /\ (width st == inject_Z (xmax - xmin) / 10)%Q
        /\ normalized_rectangle (ymin :: xmin :: ymax :: xmax :: rest)
           = Some (inject_Z ymin / 1000, inject_Z xmin / 1000,
                   inject_Z ymax / 1000, inject_Z xmax / 1000)%Q
        /\ same_rectangle (covered st)
             (inject_Z ymin / 1000, inject_Z xmin / 1000,
              inject_Z ymax / 1000, inject_Z xmax / 1000)%Q
        /\ same_rectangle (rescaled (covered st))
             (inject_Z ymin, inject_Z xmin, inject_Z ymax, inject_Z xmax))
  /\ (exists st,
        style_of [100; 200; 400; 600] = Some st
        /\ same_rectangle (covered st) (1 # 10, 2 # 10, 4 # 10, 6 # 10)%Q
        /\ same_rectangle (rescaled (covered st)) (100, 200, 400, 600)%Q).
Proof.
  split; [apply length_map|].
  split; [unfold ImageAnalyzer.overlay; rewrite map_map; reflexivity|].
  split; [unfold ImageAnalyzer.overlay; rewrite map_map; reflexivity|].
  split; [apply webcam_overlay_styles|].
  split.
  - eexists. split; [reflexivity|].
    cbn [top left height width]. do 4 (split; [reflexivity|]).
    split; [reflexivity|].
    unfold same_rectangle, rescaled, covered, fraction. cbn [top left height width].
    unfold Z.sub. rewrite !inject_Z_plus, !inject_Z_opp.
    repeat split; field.
  - eexists. split; [reflexivity|].
    split; repeat split; vm_compute; reflexivity.
Qed.

End OverlayGeometry.

(** ** The colours of the overlay *)

Section Colors.
Import Detection JsObject ImageAnalyzer OverlaySpec.

Lemma first_occurrences_note (names : list string) :
  first_occurrences names = foldl note [] names.
Proof. reflexivity. Qed.

(** The lookup of a name that [Object.prototype] does not hold. *)
Lemma get_own {A : Type} (p : prototype) (o : gmap string A) (key : string) :
  inherits p key = None ->
  get p o key = match o !! key with
                | Some a => Own a
                | None => Undefined
                end.
Proof. intros H. unfold get. rewrite H. destruct (o !! key); reflexivity. Qed.

Lemma colored_start (p : prototype) : colored p (empty_aggregation p) [].
Proof.
  unfold colored, empty_aggregation. cbn.
  split; [reflexivity|].
  split; [constructor|]. split; [reflexivity|].
  split; [intros r n H; rewrite lookup_nil in H; discriminate|].
  split; [intros n H; apply elem_of_nil in H; contradiction|].
  intros n _. split; apply lookup_empty.
Qed.

(** The [forEach] callback keeps the invariant. *)
Lemma visit_colored (p : prototype) (a : aggregation) (seen : list string)
    (obj : DetectedObject) :
  colored p a seen ->
  inherits p (name obj) = None ->
  colored p (visit a obj) (note seen (name obj)).
Proof.
  intros (Hp & Hnd & Hc & Hrank & Hin & Hout) Hown. subst p.
  unfold note. destruct (decide (name obj ∈ seen)) as [Hseen|Hnew].
  - destruct (Hin _ Hseen) as (e & i & He & Hm & Hi).
    unfold visit, assign_color. rewrite (get_own _ _ _ Hown), Hm.
    unfold open_summary. rewrite (get_own _ _ _ Hown), He.
    unfold increment. rewrite (get_own _ _ _ Hown), He.
    unfold colored. cbn [counts nameColorMap colorCounter Object_prototype].
    split; [reflexivity|].
    split; [exact Hnd|]. split; [exact Hc|]. split; [exact Hrank|].
    split.
    + intros n Hn. destruct (Hin n Hn) as (e' & i' & He' & Hm' & Hi').
      destruct (decide (n = name obj)) as [->|Hne].
      * rewrite lookup_insert_eq. eexists. exists i. split; [reflexivity|].
        split; [exact Hm|exact Hi].
      * rewrite lookup_insert_ne by congruence. exists e', i'. repeat split; assumption.
    + intros n Hn. destruct (Hout n Hn) as [H1 H2].
      split; [|exact H2].
      rewrite lookup_insert_ne; [exact H1|]. intros <-. contradiction.
  - destruct (Hout _ Hnew) as [Hcn Hmn].
    unfold visit, assign_color. rewrite (get_own _ _ _ Hown), Hmn.
    unfold open_summary. cbn [counts nameColorMap colorCounter Object_prototype].
    rewrite !(get_own _ _ _ Hown), Hcn, lookup_insert_eq.
    unfold increment. cbn [counts nameColorMap colorCounter Object_prototype].
    rewrite (get_own _ _ _ Hown), lookup_insert_eq.
    unfold colored. cbn [counts nameColorMap colorCounter Object_prototype
                         count summary_confidence colorIndex].
    split; [reflexivity|].
    split.
    { apply NoDup_app. split; [exact Hnd|]. split.
      - intros x Hx Hx'. apply list_elem_of_singleton in Hx'. subst. contradiction.
      - apply NoDup_singleton. }
    split; [rewrite length_app, Hc; cbn; lia|].
    split.
    { intros r n Hr.
      destruct (decide (r < length seen)%nat) as [Hlt|Hge].
      - rewrite lookup_app_l in Hr by exact Hlt.
        assert (n <> name obj) as Hne.
        { intros ->. apply Hnew. eapply list_elem_of_lookup_2. exact Hr. }
        rewrite lookup_insert_ne by congruence. apply Hrank, Hr.
      - rewrite lookup_app_r in Hr by lia.
        destruct (r - length seen)%nat as [|k] eqn:Hk; [|destruct k; discriminate Hr].
        cbn in Hr. injection Hr as <-.
        rewrite lookup_insert_eq, Hc. do 2 f_equal. lia. }
    split.
    + intros n Hn. apply elem_of_app in Hn as [Hn|Hn].
      * destruct (Hin n Hn) as (e' & i' & He' & Hm' & Hi').
        assert (n <> name obj) as Hne by (intros ->; contradiction).
        exists e', i'. rewrite !lookup_insert_ne by congruence.
        repeat split; assumption.
      * apply list_elem_of_singleton in Hn. subst n.
        rewrite !lookup_insert_eq.
        eexists. eexists. split; [reflexivity|]. split; reflexivity.
    + intros n Hn.
      assert ((n ∉ seen) /\ n <> name obj) as [Hn1 Hn2].
      { split.
        - intros H. apply Hn, elem_of_app. left. exact H.
        - intros ->. apply Hn, elem_of_app. right. apply list_elem_of_singleton. reflexivity. }
      destruct (Hout n Hn1) as [H1 H2].
      rewrite !lookup_insert_ne by congruence.
      split; assumption.
Qed.

Lemma foldl_visit_colored (p : prototype) (objects : list DetectedObject) :
  own_names p objects ->
  forall a seen,
    colored p a seen ->
    colored p (foldl visit a objects) (foldl note seen (map name objects)).
Proof.
  induction 1 as [|obj objects Hown _ IH]; intros a seen H; [exact H|].
  cbn. apply IH, visit_colored; assumption.
Qed.

Lemma aggregate_colored (p : prototype) (objects : list DetectedObject) :
  own_names p objects ->
  colored p (aggregate p objects) (first_occurrences (map name objects)).
Proof. intros H. apply foldl_visit_colored; [exact H|apply colored_start]. Qed.

Lemma is_builtin_In (key : string) : is_builtin key = true <-> In key builtins.
Proof.
  unfold is_builtin. rewrite existsb_exists. split.
  - intros (k & Hk & E). apply String.eqb_eq in E. subst k. exact Hk.
  - intros H. exists key. split; [exact H|apply String.eqb_refl].
Qed.

Lemma inherits_builtin (p : prototype) (key : string) :
  is_builtin key = true <-> inherits p key = Some Builtin.
Proof.
  unfold inherits. destruct (is_builtin key); [tauto|].
  split; [discriminate|].
  destruct p; [discriminate|]. destruct (String.eqb key "count"); discriminate.
Qed.

(** A builtin never becomes an entry of [counts]: the second [if] finds
    it truthy. *)
Lemma visit_no_builtin (a : aggregation) (obj : DetectedObject) :
  (forall n, In n builtins -> counts a !! n = None) ->
  forall n, In n builtins -> counts (visit a obj) !! n = None.
Proof.
  intros Ha n Hn.
  assert (forall p k, In k builtins -> inherits p k = Some Builtin) as Hb.
  { intros p k Hk. apply inherits_builtin, is_builtin_In, Hk. }
  assert (counts (assign_color a (name obj)) = counts a) as Hc.
  { unfold assign_color. destruct (get _ _ _); reflexivity. }
  assert (Object_prototype (assign_color a (name obj)) = Object_prototype a) as Hp.
  { unfold assign_color. destruct (get _ _ _); reflexivity. }
  assert (forall k, In k builtins ->
            counts (open_summary (assign_color a (name obj)) obj) !! k = None) as Ho.
  { intros k Hk. unfold open_summary. rewrite Hc, Hp.
    destruct (get (Object_prototype a) (counts a) (name obj)) as [e|[|]|] eqn:Hg;
      cbn [counts]; try (rewrite Hc; apply Ha, Hk).
    - rewrite lookup_insert_ne; [apply Ha, Hk|].
      intros <-. unfold get in Hg. rewrite (Ha _ Hk), (Hb _ _ Hk) in Hg. discriminate Hg.
    - rewrite lookup_insert_ne; [apply Ha, Hk|].
      intros <-. unfold get in Hg. rewrite (Ha _ Hk), (Hb _ _ Hk) in Hg. discriminate Hg. }
  unfold visit, increment.
  destruct (get _ (counts (open_summary _ _)) (name obj)) as [e|[|]|] eqn:Hg;
    cbn [counts]; try (apply Ho, Hn).
  - rewrite lookup_insert_ne; [apply Ho, Hn|].
    intros <-. unfold get in Hg. rewrite (Ho _ Hn), (Hb _ _ Hn) in Hg. discriminate Hg.
  - destruct (String.eqb (name obj) "__proto__"); cbn [counts]; apply Ho, Hn.
Qed.

Lemma aggregate_no_builtin (p : prototype) (objects : list DetectedObject) (n : string) :
  In n builtins -> counts (aggregate p objects) !! n = None.
Proof.
  unfold aggregate. revert n.
  induction objects as [|obj objects IH] using rev_ind; intros n Hn.
  - apply lookup_empty.
  - rewrite foldl_snoc. apply visit_no_builtin; [exact IH|exact Hn].
Qed.

End Colors.

Section ColorLookup.
Import Detection JsObject ImageAnalyzer OverlaySpec Scenarios.

(** [find] on the entries of a dictionary is the lookup of the key. *)
Lemma find_unique_key (l : list (string * summary)) (n : string) (e : summary) :
  NoDup (l.*1) -> (n, e) ∈ l -> find_by_name l n = Some (n, e).
Proof.
  induction l as [|[k v] l IH]; intros Hnd Hin.
  - apply elem_of_nil in Hin. contradiction.
  - cbn in Hnd. apply NoDup_cons in Hnd as [Hk Hnd].
    unfold find_by_name. cbn.
    destruct (String.eqb k n) eqn:E.
    + apply String.eqb_eq in E. subst k.
      apply elem_of_cons in Hin as [Hin|Hin]; [congruence|].
      exfalso. apply Hk. apply list_elem_of_fmap. exists (n, e). split; [reflexivity|exact Hin].
    + apply String.eqb_neq in E.
      apply elem_of_cons in Hin as [Hin|Hin]; [congruence|].
      apply IH; assumption.
Qed.

Lemma find_by_name_entries (m : gmap string summary) (n : string) (e : summary) :
  m !! n = Some e -> find_by_name (map_to_list m) n = Some (n, e).
Proof.
  intros H. apply find_unique_key.
  - apply NoDup_fst_map_to_list.
  - apply elem_of_map_to_list. exact H.
Qed.

(** A name without an entry is not found. *)
Lemma find_by_name_none (m : gmap string summary) (n : string) :
  m !! n = None -> find_by_name (map_to_list m) n = None.
Proof.
  intros H. unfold find_by_name.
  destruct (List.find _ _) as [[k e]|] eqn:F; [|reflexivity].
  apply List.find_some in F as [Hin Hk]. cbn in Hk.
  apply String.eqb_eq in Hk. subst k.
  apply list_elem_of_In, elem_of_map_to_list in Hin. congruence.
Qed.

(** The colour index of a name is its rank among the names, in the order
    of their first occurrence, modulo the size of the palette. *)
Lemma color_index_rank (p : prototype) (objects : list DetectedObject)
    (r : nat) (n : string) :
  own_names p objects ->
  first_occurrences (map name objects) !! r = Some n ->
  color_index (aggregatedObjects p (Some objects)) n
  = Some (Z.of_nat r mod Z.of_nat (length BOX_COLORS)).
Proof.
  intros Hown Hr.
  destruct (aggregate_colored p objects Hown) as (_ & _ & _ & Hrank & Hin & _).
  destruct (Hin n) as (e & i & He & Hm & Hi); [eapply list_elem_of_lookup_2; exact Hr|].
  rewrite (Hrank r n Hr) in Hm. injection Hm as Hm.
  unfold color_index, aggregatedObjects.
  rewrite (find_by_name_entries _ _ _ He). cbn [snd]. rewrite Hi. cbn [or_zero].
  rewrite <- Hm. reflexivity.
Qed.


Lemma webcam_overlay_lookup (objects : list DetectedObject) (i : nat) :
  WebcamAnalyzer.overlay objects !! i
  = (fun obj => {| style := style_of (box_2d obj);
                   color := WebcamAnalyzer.color_at i;
                   label := name obj |}) <$> objects !! i.
Proof. unfold WebcamAnalyzer.overlay. apply list_lookup_imap. Qed.




End ColorLookup.

(** ** [startCamera] *)

Section CameraNegotiation.
Import Async WebcamAnalyzer CameraSpec.
Context {W : Type}.
Variable supported : W -> bool.
Variable getUserMedia : constraints -> W -> outcome (option nat) * W.
Variable video_mounted : W -> bool.
Variable play : W -> outcome unit * W.

Lemma request_run (k : constraints) (c : camera W) :
  request getUserMedia k c
  = let '(o, w) := getUserMedia k (devices c) in (o, moved_on c w [GetUserMedia k]).
Proof.
  unfold request, bind, record, modify, on_devices. cbn.
  destruct (getUserMedia k (devices c)) as [o w]. reflexivity.
Qed.

(** The two tiers of the negotiation. *)
Lemma negotiate_run (c : camera W) :
  negotiate getUserMedia c
  = match getUserMedia HdVideo (devices c) with
    | (Resolved stream, w1) => (Resolved stream, moved_on c w1 [GetUserMedia HdVideo])
    | (Rejected hdError, w1) =>
        let '(o, w2) := getUserMedia BasicVideo w1 in
        (o, moved_on c w2 [GetUserMedia HdVideo; WarnHdFailed hdError;
                           GetUserMedia BasicVideo])
    end.
Proof.
  unfold negotiate, try_catch. rewrite request_run.
  destruct (getUserMedia HdVideo (devices c)) as [[stream|hdError] w1]; [reflexivity|].
  unfold bind, record, modify. rewrite request_run. cbn.
  destruct (getUserMedia BasicVideo w1) as [[stream|basicError] w2];
    unfold moved_on, throw; cbn; rewrite <- !app_assoc; reflexivity.
Qed.

Lemma stopCamera_run (c : camera W) :
  stopCamera c
  = (Resolved tt,
     {| devices := devices c; streamRef := None; isStreaming := false;
        error := error c; permissionDenied := permissionDenied c;
        events := events c ++ match streamRef c with
                              | Some stream => [TrackStop stream]
                              | None => []
                              end |}).
Proof.
  unfold stopCamera, bind, setIsStreaming, setStreamRef, record, modify, ret.
  destruct c as [w [stream|] st er pd evs]; cbn; [reflexivity|].
  rewrite app_nil_r. reflexivity.
Qed.

(** [startCamera] up to the negotiation, when the camera API is there. *)
Lemma startCamera_run (c : camera W) :
  supported (devices c) = true ->
  startCamera supported getUserMedia video_mounted play c
  = match negotiate getUserMedia (reset c) with
    | (Rejected err, c') => on_failure err c'
    | (Resolved None, c') => on_failure (Error "Could not initialize video stream.") c'
    | (Resolved (Some stream), c') =>
        try_catch
          (let* _ := setStreamRef (Some stream) in
           let* _ :=
             (fun c'' =>
                if video_mounted (devices c'')
                then try_catch (let* _ := record Play in on_devices play)
                               (fun playErr => record (ErrorPlaying playErr)) c''
                else ret tt c'') in
           setIsStreaming true)
          on_failure c'
    end.
Proof.
  intros Hs. unfold startCamera, bind at 1. rewrite stopCamera_run.
  unfold try_catch at 1, acquire, bind at 1 2, setError, setPermissionDenied, modify.
  cbn [devices streamRef isStreaming error permissionDenied events].
  rewrite Hs. cbn [negb]. unfold bind at 1. fold (reset c).
  destruct (negotiate getUserMedia (reset c)) as [[[stream|]|err] c']; reflexivity.
Qed.

End CameraNegotiation.

Section CameraErrors.
Import Async WebcamAnalyzer CameraSpec.
Context {W : Type}.
Variable supported : W -> bool.
Variable getUserMedia : constraints -> W -> outcome (option nat) * W.
Variable video_mounted : W -> bool.
Variable play : W -> outcome unit * W.

(** What the outer [catch] leaves behind. *)
Lemma on_failure_run (err : JsError) (c : camera W) :
  exists c',
    on_failure err c = (Resolved tt, c')
    /\ events c' = events c ++ [ErrorAccessing err]
    /\ devices c' = devices c
    /\ streamRef c' = streamRef c
    /\ isStreaming c' = false
    /\ is_Some (error c')
    /\ permissionDenied c'
       = (name_is err "NotAllowedError" || name_is err "PermissionDeniedError"
          || permissionDenied c)
    /\ (name_is err "NotAllowedError" || name_is err "PermissionDeniedError" = true ->
        error c' = Some "Camera access was denied. Please allow camera access in your browser settings to continue.")
    /\ (name_is err "NotAllowedError" || name_is err "PermissionDeniedError" = false ->
        name_is err "NotFoundError" || name_is err "DevicesNotFoundError" = false ->
        name_is err "NotReadableError" || name_is err "TrackStartError" = false ->
        error c' = Some (message_or err "Could not access camera.")).
Proof.
  unfold on_failure, bind, record, setIsStreaming, setError, setPermissionDenied, modify.
  cbn [devices streamRef isStreaming error permissionDenied events].
  destruct (name_is err "NotAllowedError" || name_is err "PermissionDeniedError");
    [|destruct (name_is err "NotFoundError" || name_is err "DevicesNotFoundError");
      [|destruct (name_is err "NotReadableError" || name_is err "TrackStartError")]];
    eexists; (split; [reflexivity|]);
    cbn [devices streamRef isStreaming error permissionDenied events];
    repeat split; eauto; try discriminate.
Qed.

Lemma requested_app (a b : list camera_event) :
  requested (a ++ b) = requested a ++ requested b.
Proof. unfold requested. apply omap_app. Qed.

Lemma requested_reset (c : camera W) :
  requested (events (reset c)) = requested (events c).
Proof.
  unfold reset. cbn [events]. rewrite requested_app.
  destruct (streamRef c); cbn; apply app_nil_r.
Qed.

(** C8.  With the camera API present, [startCamera] first asks for the HD
    constraint set.  When that request succeeds, no other request is
    made.  Only when it fails is the unconstrained request made, after
    it, and its outcome is the outcome of the negotiation.  When both
    fail, the error that reaches the [catch] of [startCamera] is the one
    of the second, unconstrained request: it is the one logged and the one
    whose name decides the message shown and whether the permission is
    marked as denied; the error of the first request is only logged as a
    warning. *)
Theorem startCamera_two_tiers (c : camera W) :
  supported (devices c) = true ->
  (forall stream w1,
     getUserMedia HdVideo (devices c) = (Resolved stream, w1) ->
     negotiate getUserMedia (reset c)
     = (Resolved stream, moved_on (reset c) w1 [GetUserMedia HdVideo]))
  /\ (forall hdError w1 o w2,
        getUserMedia HdVideo (devices c) = (Rejected hdError, w1) ->
        getUserMedia BasicVideo w1 = (o, w2) ->
        negotiate getUserMedia (reset c)
        = (o, moved_on (reset c) w2
                [GetUserMedia HdVideo; WarnHdFailed hdError; GetUserMedia BasicVideo]))
  /\ (forall hdError w1 basicError w2,
        getUserMedia HdVideo (devices c) = (Rejected hdError, w1) ->
        getUserMedia BasicVideo w1 = (Rejected basicError, w2) ->
        let c2 := moved_on (reset c) w2
                    [GetUserMedia HdVideo; WarnHdFailed hdError; GetUserMedia BasicVideo] in
        startCamera supported getUserMedia video_mounted play c = on_failure basicError c2
        /\ exists c',
             startCamera supported getUserMedia video_mounted play c = (Resolved tt, c')
             /\ events c' = events c2 ++ [ErrorAccessing basicError]
             /\ requested (events c') = requested (events c) ++ [HdVideo; BasicVideo]
             /\ isStreaming c' = false
             /\ streamRef c' = None
             /\ is_Some (error c')
             /\ permissionDenied c'
                = (name_is basicError "NotAllowedError"
                   || name_is basicError "PermissionDeniedError")
             /\ (name_is basicError "NotAllowedError"
                 || name_is basicError "PermissionDeniedError" = false ->
                 name_is basicError "NotFoundError"
                 || name_is basicError "DevicesNotFoundError" = false ->
                 name_is basicError "NotReadableError"
                 || name_is basicError "TrackStartError" = false ->
                 error c' = Some (message_or basicError "Could not access camera."))).
Proof.
  intros Hs.
  split; [|split].
  - intros stream w1 H1. rewrite negotiate_run. cbn [reset devices]. rewrite H1. reflexivity.
  - intros hdError w1 o w2 H1 H2. rewrite negotiate_run. cbn [reset devices].
    rewrite H1, H2. reflexivity.
  - intros hdError w1 basicError w2 H1 H2 c2.
    assert (Hrun : startCamera supported getUserMedia video_mounted play c
                   = on_failure basicError c2).
    { rewrite (startCamera_run _ _ _ _ _ Hs), negotiate_run. cbn [reset devices].
      rewrite H1, H2. reflexivity. }
    split; [exact Hrun|].
    destruct (on_failure_run basicError c2)
      as (c' & Hc' & Hev & _ & Hsr & Hst & Herr & Hpd & _ & Hmsg).
    exists c'. rewrite Hrun.
    split; [exact Hc'|]. split; [exact Hev|].
    split.
    { rewrite Hev. unfold c2, moved_on. cbn [events].
      rewrite !requested_app, requested_reset. cbn. rewrite app_nil_r. reflexivity. }
    split; [exact Hst|]. split; [rewrite Hsr; reflexivity|].
    split; [exact Herr|].
    split; [rewrite Hpd; cbn; apply orb_false_r|].
    exact Hmsg.
Qed.

End CameraErrors.

Section CameraScenario.
Import Async WebcamAnalyzer CameraSpec Scenarios.

Lemma startCamera_two_tiers_witness :
  let c := fresh_camera [Rejected overconstrained; Rejected not_allowed] in
  let c2 := moved_on (reset c) []
              [GetUserMedia HdVideo; WarnHdFailed overconstrained;
               GetUserMedia BasicVideo] in
  startCamera (fun _ => true) scripted_camera (fun _ => true)
    (fun w => (Resolved tt, w)) c
  = on_failure not_allowed c2
  /\ exists c',
       startCamera (fun _ => true) scripted_camera (fun _ => true)
         (fun w => (Resolved tt, w)) c = (Resolved tt, c')
       /\ events c' = events c2 ++ [ErrorAccessing not_allowed]
       /\ requested (events c') = requested (events c) ++ [HdVideo; BasicVideo]
       /\ isStreaming c' = false
       /\ streamRef c' = None
       /\ is_Some (error c')
       /\ permissionDenied c'
          = (name_is not_allowed "NotAllowedError"
             || name_is not_allowed "PermissionDeniedError")
       /\ (name_is not_allowed "NotAllowedError"
           || name_is not_allowed "PermissionDeniedError" = false ->
           name_is not_allowed "NotFoundError"
           || name_is not_allowed "DevicesNotFoundError" = false ->
           name_is not_allowed "NotReadableError"
           || name_is not_allowed "TrackStartError" = false ->
           error c' = Some (message_or not_allowed "Could not access camera.")).
Proof.
  intros c c2.
  refine (proj2 (proj2
    (startCamera_two_tiers (fun _ => true) scripted_camera (fun _ => true)
       (fun w => (Resolved tt, w)) c _))
    overconstrained [Rejected not_allowed] not_allowed [] _ _);
    reflexivity.
Defined.

End CameraScenario.

(** * Properties of more of the code *)

(** ** [withExponentialBackoff]: recovery and bounds *)

Section BackoffRuns.
Import Async Session Retry RetrySpec BackoffSchedule.
Context {W T : Type}.

Lemma waits_retry_events (es : list JsError) :
  forall d, waits (retry_events d es) = doubling d (length es).
Proof.
  induction es as [|e es IH]; intros d; [reflexivity|].
  cbn [retry_events length]. rewrite doubling_S.
  change (waits (ConsoleWarn d e :: SetTimeout d :: retry_events (d * 2) es))
    with (d :: waits (retry_events (d * 2) es)).
  rewrite IH. reflexivity.
Qed.

Lemma failures_length (op : W -> outcome T * W) (k : nat) :
  forall w es w', failures op k w = Some (es, w') -> length es = k.
Proof.
  induction k as [|k IH]; intros w es w' H.
  - injection H as <- _. reflexivity.
  - rewrite failures_S in H. destruct (op w) as [[v|e] w1]; [discriminate|].
    destruct (failures op k w1) as [[es1 w2]|] eqn:Hk; [|discriminate].
    injection H as <- _. cbn. f_equal. eapply IH. exact Hk.
Qed.

(** X1.  When the operation fails [k] times and then succeeds, and the
    budget allows [k] retries, [withExponentialBackoff] resolves with the
    value of attempt [k + 1]; the trace gains, for every failed attempt in
    order, the warning with its error and the wait, the waits being
    [delay, 2 * delay, ...]; nothing is logged for the attempt that
    succeeds and the rest of the budget is not used. *)
Theorem withExponentialBackoff_recovers
    (op : W -> outcome T * W) (k : nat) (retries delay : Z)
    (w w' w'' : W) (es : list JsError) (v : T) (tr : list event) :
  failures op k w = Some (es, w') ->
  op w' = (Resolved v, w'') ->
  Z.of_nat k <= retries ->
  withExponentialBackoff (perform op) retries delay {| world := w; trace := tr |}
  = (Resolved v, {| world := w''; trace := tr ++ retry_events delay es |})
  /\ waits (retry_events delay es) = doubling delay k.
Proof.
  intros Hfail Hok Hk.
  split; [|rewrite waits_retry_events, (failures_length _ _ _ _ _ Hfail); reflexivity].
  unfold withExponentialBackoff.
  assert (k <= Z.to_nat retries)%nat as Hn by lia. clear Hk.
  revert Hn. generalize (Z.to_nat retries) as n.
  revert delay w es tr Hfail.
  induction k as [|k IH]; intros d w0 es tr Hfail n Hn.
  - injection Hfail as <- <-. cbn [retry_events]. rewrite app_nil_r.
    apply backoff_success. exact Hok.
  - rewrite failures_S in Hfail.
    destruct (op w0) as [[v0|e] w1] eqn:Hop; [discriminate|].
    destruct (failures op k w1) as [[es1 w2]|] eqn:Hrest; [|discriminate].
    injection Hfail as <- <-.
    destruct n as [|n]; [lia|].
    rewrite (backoff_failed_attempt _ _ _ _ _ _ _ Hop).
    rewrite (IH _ _ _ _ Hrest n) by lia.
    cbn [retry_events]. rewrite <- app_assoc. reflexivity.
Qed.

Lemma total_doubling (d : Z) (k : nat) :
  total (doubling d k) = d * (2 ^ Z.of_nat k - 1).
Proof.
  revert d. induction k as [|k IH]; intros d.
  - cbn. lia.
  - rewrite doubling_S. cbn [total foldr]. fold (total (doubling (d * 2) k)).
    rewrite IH, Nat2Z.inj_succ, Z.pow_succ_r by lia. lia.
Qed.

(** Whatever the operation does, the run makes at most [n] retries, each
    announced and waited for. *)
Lemma backoff_schedule (op : W -> outcome T * W) (n : nat) :
  forall (d : Z) (s : session W),
  exists es,
    (length es <= n)%nat
    /\ trace (snd (backoff (perform op) n d s)) = trace s ++ retry_events d es
    /\ (forall e, fst (backoff (perform op) n d s) = Rejected e -> length es = n).
Proof.
  induction n as [|n IH]; intros d [w tr].
  - exists []. destruct (op w) as [o w'] eqn:Hop.
    rewrite (backoff_last_attempt _ _ _ _ _ _ Hop). cbn.
    rewrite app_nil_r. split; [cbn; lia|]. split; [reflexivity|].
    intros e _. reflexivity.
  - destruct (op w) as [[v|e] w'] eqn:Hop.
    + exists []. rewrite (backoff_success _ _ _ _ _ _ _ Hop). cbn.
      rewrite app_nil_r. split; [cbn; lia|]. split; [reflexivity|].
      intros e H. discriminate H.
    + rewrite (backoff_failed_attempt _ _ _ _ _ _ _ Hop).
      destruct (IH (d * 2) {| world := w'; trace := tr ++ [ConsoleWarn d e; SetTimeout d] |})
        as (es & Hlen & Htr & Hrej).
      exists (e :: es). cbn [length retry_events trace] in *.
      split; [lia|]. split.
      * rewrite Htr, <- app_assoc. reflexivity.
      * intros e' He'. f_equal. exact (Hrej e' He').
Qed.

(** X2.  Whatever the operation does, a call of [withExponentialBackoff]
    only adds warnings and waits to the trace, one pair per retry; it
    makes at most [retries] retries (none at all when [retries <= 0], also
    when it is negative), all of them when it ends with an error; the
    waits are [delay, 2 * delay, 4 * delay, ...], and for [delay >= 0]
    they add up to at most [delay * (2 ^ retries - 1)]. *)
Theorem withExponentialBackoff_schedule
    (op : W -> outcome T * W) (retries delay : Z) (s : session W) :
  exists es,
    Z.of_nat (length es) <= Z.max 0 retries
    /\ trace (snd (withExponentialBackoff (perform op) retries delay s))
       = trace s ++ retry_events delay es
    /\ waits (retry_events delay es) = doubling delay (length es)
    /\ total (waits (retry_events delay es)) = delay * (2 ^ Z.of_nat (length es) - 1)
    /\ (0 <= delay ->
        total (waits (retry_events delay es)) <= delay * (2 ^ Z.max 0 retries - 1))
    /\ (forall e,
          fst (withExponentialBackoff (perform op) retries delay s) = Rejected e ->
          Z.of_nat (length es) = Z.max 0 retries).
Proof.
  unfold withExponentialBackoff.
  destruct (backoff_schedule op (Z.to_nat retries) delay s) as (es & Hlen & Htr & Hrej).
  exists es.
  assert (Z.of_nat (length es) <= Z.max 0 retries) as Hle by lia.
  split; [exact Hle|]. split; [exact Htr|].
  split; [apply waits_retry_events|].
  rewrite waits_retry_events, total_doubling.
  split; [reflexivity|]. split.
  - intros Hd. apply Z.mul_le_mono_nonneg_l; [exact Hd|].
    assert (2 ^ Z.of_nat (length es) <= 2 ^ Z.max 0 retries)
      by (apply Z.pow_le_mono_r; lia).
    lia.
  - intros e He. rewrite (Hrej e He). lia.
Qed.

End BackoffRuns.

Section BackoffRecovery.
Import Async Session Retry RetrySpec BackoffSchedule Scenarios.

Lemma withExponentialBackoff_recovers_witness :
  withExponentialBackoff (perform next) 5 250
    {| world := [Rejected (Error "a"); Rejected (Error "b"); Resolved 7%nat; Resolved 8%nat];
       trace := [] |}
  = (Resolved 7%nat,
     {| world := [Resolved 8%nat];
        trace := [] ++ retry_events 250 [Error "a"; Error "b"] |})
  /\ waits (retry_events 250 [Error "a"; Error "b"]) = doubling 250 2.
Proof.
  apply (withExponentialBackoff_recovers next 2 5 250
           [Rejected (Error "a"); Rejected (Error "b"); Resolved 7%nat; Resolved 8%nat]
           [Resolved 7%nat; Resolved 8%nat] [Resolved 8%nat]
           [Error "a"; Error "b"] 7%nat []).
  - reflexivity.
  - reflexivity.
  - lia.
Defined.

End BackoffRecovery.

(** ** [fileToBase64] *)

Section DataUrls.
Import Async FileReading.

Lemma split_on_nonempty (sep : ascii) (s : string) : split_on sep s <> [].
Proof.
  destruct s as [|c rest]; cbn; [discriminate|].
  destruct (Ascii.eqb c sep); [discriminate|].
  destruct (split_on sep rest); discriminate.
Qed.

Lemma split_on_comma_free (s : string) :
  comma_free s = true -> split_on comma s = [s].
Proof.
  induction s as [|c rest IH]; intros H; [reflexivity|].
  cbn in H. apply andb_prop in H as [Hc Hrest].
  apply negb_true_iff in Hc. cbn [split_on]. rewrite Hc, (IH Hrest). reflexivity.
Qed.

Lemma split_on_prefix (p rest : string) :
  comma_free p = true ->
  split_on comma (p +:+ String comma rest) = p :: split_on comma rest.
Proof.
  induction p as [|c p IH]; intros H.
  - change ("" +:+ String comma rest) with (String comma rest).
    cbn [split_on]. rewrite Ascii.eqb_refl. reflexivity.
  - cbn in H. apply andb_prop in H as [Hc Hp].
    apply negb_true_iff in Hc.
    change (String c p +:+ String comma rest) with (String c (p +:+ String comma rest)).
    cbn [split_on]. rewrite Hc, (IH Hp). reflexivity.
Qed.

(** X3.  For a data URL [prefix,payload] whose prefix and payload hold no
    comma, [fileToBase64] resolves with the payload, the prefix and the
    comma removed (with the empty string for an empty payload); for a
    result without any comma it resolves with [undefined]; it rejects only
    when the reader fails, with the reader's error, or when the result is
    not a string. *)
Theorem fileToBase64_strips_prefix (prefix payload : string) :
  comma_free prefix = true ->
  comma_free payload = true ->
  fileToBase64 (Loaded (Some (prefix +:+ String comma payload))) = Resolved (Some payload)
  /\ fileToBase64 (Loaded (Some prefix)) = Resolved None
  /\ (forall r e, fileToBase64 r = Rejected e ->
        r = Failed e
        \/ (r = Loaded None /\ e = Error "Failed to convert file to base64")).
Proof.
  intros Hp Hb. split; [|split].
  - cbn [fileToBase64]. unfold after_first_comma.
    rewrite (split_on_prefix _ _ Hp), (split_on_comma_free _ Hb). reflexivity.
  - cbn [fileToBase64]. unfold after_first_comma.
    rewrite (split_on_comma_free _ Hp). reflexivity.
  - intros [[result|]|error] e H; cbn in H; try discriminate.
    + right. injection H as <-. split; reflexivity.
    + left. injection H as <-. reflexivity.
Qed.

Lemma fileToBase64_strips_prefix_witness :
  fileToBase64 (Loaded (Some ("data:image/png;base64" +:+ String comma "iVBORw0KGgo=")))
  = Resolved (Some "iVBORw0KGgo=")
  /\ fileToBase64 (Loaded (Some "data:image/png;base64")) = Resolved None
  /\ (forall r e, fileToBase64 r = Rejected e ->
        r = Failed e
        \/ (r = Loaded None /\ e = Error "Failed to convert file to base64")).
Proof.
  apply (fileToBase64_strips_prefix "data:image/png;base64" "iVBORw0KGgo="); reflexivity.
Defined.

End DataUrls.

(** ** [extractFramesFromVideo]: progress, failures, bounds *)

Section SamplingRounds.
Import JsNumber MediaUtils SamplingSpec SamplingStates.

Lemma Math_round_tenths (m : Z) :
  Math_round ((inject_Z m / inject_Z maxFrames) * 100) = 10 * m.
Proof.
  unfold Math_round, maxFrames. apply Qfloor_unique.
  - rewrite inject_Z_mult. change (inject_Z 10) with 10%Q.
    assert (inject_Z m / 10 * 100 == 10 * inject_Z m)%Q as -> by field. lra.
  - rewrite inject_Z_plus, inject_Z_mult. change (inject_Z 10) with 10%Q.
    change (inject_Z 1) with 1%Q.
    assert (inject_Z m / 10 * 100 == 10 * inject_Z m)%Q as -> by field. lra.
Qed.

Lemma onseeked_after (v : VideoSource) (k : nat) :
  (k < 10)%nat -> onseeked v (sampler_after v k) = sampler_after v (S k).
Proof.
  intros Hk. unfold onseeked, sampler_after.
  cbn [currentTime frameCount frames progress].
  f_equal.
  - unfold interval. lia.
  - lia.
  - rewrite seq_S, map_app. reflexivity.
  - unfold progress_after. rewrite seq_S, map_app. cbn [map app Nat.add].
    f_equal. f_equal. rewrite Math_round_tenths. lia.
Qed.

Lemma rounds_le (d : Q) : (rounds d <= 10)%nat.
Proof. unfold rounds, expected_count, maxFrames. lia. Qed.

(** The loop goes on before round [rounds d] and stops at it. *)
Lemma captureFrame_continue (v : VideoSource) (fuel k : nat) :
  (k < rounds (duration v))%nat ->
  captureFrame (S fuel) v (sampler_after v k)
  = if seek_completes v (Z.of_nat k * interval) then
      if has_context v then captureFrame fuel v (sampler_after v (S k))
      else (Reject (ErrorMessage "Could not get canvas context"), sampler_after v k)
    else (Reject MediaErrorEvent, sampler_after v k).
Proof.
  intros Hk. pose proof (rounds_le (duration v)) as Hr.
  cbn [captureFrame]. cbn [sampler_after currentTime frameCount].
  assert (gt_ZQ (Z.of_nat k * interval) (duration v) = false) as ->.
  { apply within_duration. unfold rounds, expected_count in Hk. lia. }
  assert ((maxFrames <=? Z.of_nat k) = false) as ->.
  { apply Z.leb_gt. unfold maxFrames. lia. }
  cbn [orb]. rewrite onseeked_after by lia. reflexivity.
Qed.

Lemma captureFrame_stop (v : VideoSource) (fuel : nat) :
  captureFrame fuel v (sampler_after v (rounds (duration v)))
  = (Resolve (map (frame_at v) (seq 0 (rounds (duration v)))),
     sampler_after v (rounds (duration v))).
Proof.
  assert (gt_ZQ (Z.of_nat (rounds (duration v)) * interval) (duration v)
          || (maxFrames <=? Z.of_nat (rounds (duration v))) = true) as Hstop.
  { destruct (gt_ZQ _ _) eqn:Hgt; [reflexivity|].
    apply within_duration in Hgt. cbn [orb]. apply Z.leb_le.
    unfold rounds, expected_count, maxFrames in *. lia. }
  destruct fuel; cbn [captureFrame]; cbn [sampler_after currentTime frameCount frames];
    rewrite Hstop; reflexivity.
Qed.

(** With the context there and the seeks of the rounds completing, the
    loop runs through all the rounds. *)
Lemma captureFrame_completes (v : VideoSource) :
  has_context v = true ->
  (forall t, seek_completes v t = true) ->
  forall fuel k,
    (k <= rounds (duration v))%nat -> (rounds (duration v) - k <= fuel)%nat ->
    captureFrame fuel v (sampler_after v k)
    = (Resolve (map (frame_at v) (seq 0 (rounds (duration v)))),
       sampler_after v (rounds (duration v))).
Proof.
  intros Hctx Hseek fuel.
  induction fuel as [|fuel IH]; intros k Hk Hfuel.
  - replace k with (rounds (duration v)) by lia. apply captureFrame_stop.
  - destruct (Nat.eq_dec k (rounds (duration v))) as [->|Hne];
      [apply captureFrame_stop|].
    rewrite captureFrame_continue by lia.
    rewrite Hseek, Hctx. apply IH; lia.
Qed.

(** If the loop resolves at all, it resolves with the frames of all the
    rounds. *)
Lemma captureFrame_resolves (v : VideoSource) :
  forall fuel k fr,
    (k <= rounds (duration v))%nat -> (rounds (duration v) - k <= fuel)%nat ->
    fst (captureFrame fuel v (sampler_after v k)) = Resolve fr ->
    fr = map (frame_at v) (seq 0 (rounds (duration v))).
Proof.
  intros fuel.
  induction fuel as [|fuel IH]; intros k fr Hk Hfuel H.
  - replace k with (rounds (duration v)) in H by lia.
    rewrite captureFrame_stop in H. cbn in H. congruence.
  - destruct (Nat.eq_dec k (rounds (duration v))) as [->|Hne].
    + rewrite captureFrame_stop in H. cbn in H. congruence.
    + rewrite captureFrame_continue in H by lia.
      destruct (seek_completes v _); [|discriminate H].
      destruct (has_context v); [|discriminate H].
      apply (IH (S k)); [lia|lia|exact H].
Qed.

(** A seek that fails in one of the rounds makes the loop reject. *)
Lemma captureFrame_seek_fails (v : VideoSource) (i : nat) :
  has_context v = true ->
  (i < rounds (duration v))%nat ->
  seek_completes v (Z.of_nat i * interval) = false ->
  forall fuel k,
    (k <= i)%nat -> (rounds (duration v) - k <= fuel)%nat ->
    fst (captureFrame fuel v (sampler_after v k)) = Reject MediaErrorEvent.
Proof.
  intros Hctx Hi Hfail fuel.
  induction fuel as [|fuel IH]; intros k Hk Hfuel; [lia|].
  rewrite captureFrame_continue by lia.
  destruct (seek_completes v (Z.of_nat k * interval)) eqn:Hs; [|reflexivity].
  rewrite Hctx.
  assert (k <> i) by (intros ->; congruence).
  apply IH; lia.
Qed.

End SamplingRounds.

Section SamplingOutcomes.
Import JsNumber MediaUtils SamplingSpec SamplingStates SamplingScenarios Scenarios.

Lemma rounds_zero (d : Q) : rounds d = 0%nat <-> (d < 0)%Q.
Proof.
  pose proof (within_duration d 0) as Hw. cbn [Z.mul] in Hw.
  unfold gt_ZQ in Hw. rewrite negb_false_iff, Qle_bool_iff in Hw.
  change (inject_Z 0) with 0%Q in Hw.
  unfold rounds, expected_count, maxFrames.
  split; intros H.
  - apply Qnot_le_lt. intros Hd. apply Hw in Hd. lia.
  - apply Qlt_not_le in H.
    assert (~ 0 <= Qfloor (d / inject_Z interval)) by (intros H0; apply H, Hw, H0).
    lia.
Qed.

Lemma rounds_full (d : Q) : rounds d = 10%nat <-> (27 <= d)%Q.
Proof.
  pose proof (within_duration d 9) as Hw.
  unfold gt_ZQ in Hw. rewrite negb_false_iff, Qle_bool_iff in Hw.
  change (inject_Z (9 * interval)) with 27%Q in Hw.
  unfold rounds, expected_count, maxFrames. rewrite Hw. lia.
Qed.

Lemma progress_after_full (n : nat) :
  (n <= 10)%nat -> (In 100 (progress_after n) <-> n = 10%nat).
Proof.
  intros Hn. unfold progress_after. rewrite in_map_iff. split.
  - intros (i & Hi & Hin). apply in_seq in Hin. lia.
  - intros ->. exists 9%nat. split; [reflexivity|]. apply in_seq. lia.
Qed.

(** X4.  With the canvas context available and every seek completing,
    [onProgress] is called once after each captured frame, with 10, 20,
    30, ... in this order: ten times the number of frames captured so far.
    The value 100 is reported exactly when the video lasts 27 seconds or
    more, that is when all ten frames are captured. *)
Theorem extractFrames_progress (v : VideoSource) :
  has_context v = true ->
  (forall t, seek_completes v t = true) ->
  progress (snd (extractFramesFromVideo (MetadataLoaded v)))
  = map (fun i => 10 * (Z.of_nat i + 1)) (seq 0 (rounds (duration v)))
  /\ length (progress (snd (extractFramesFromVideo (MetadataLoaded v))))
     = length (frames (snd (extractFramesFromVideo (MetadataLoaded v))))
  /\ (In 100 (progress (snd (extractFramesFromVideo (MetadataLoaded v))))
      <-> (27 <= duration v)%Q).
Proof.
  intros Hctx Hseek.
  pose proof (rounds_le (duration v)) as Hr.
  assert (extractFramesFromVideo (MetadataLoaded v)
          = (Resolve (map (frame_at v) (seq 0 (rounds (duration v)))),
             sampler_after v (rounds (duration v)))) as ->.
  { unfold extractFramesFromVideo. change initial with (sampler_after v 0).
    apply captureFrame_completes; [assumption|assumption|lia|].
    unfold maxFrames. cbn. lia. }
  cbn [snd sampler_after progress frames].
  split; [reflexivity|].
  split; [unfold progress_after; rewrite !length_map; reflexivity|].
  rewrite progress_after_full by exact Hr. apply rounds_full.
Qed.

Lemma extractFrames_progress_witness :
  progress (snd (extractFramesFromVideo (MetadataLoaded (clip 7))))
  = map (fun i => 10 * (Z.of_nat i + 1)) (seq 0 (rounds (duration (clip 7))))
  /\ length (progress (snd (extractFramesFromVideo (MetadataLoaded (clip 7)))))
     = length (frames (snd (extractFramesFromVideo (MetadataLoaded (clip 7)))))
  /\ (In 100 (progress (snd (extractFramesFromVideo (MetadataLoaded (clip 7)))))
      <-> (27 <= duration (clip 7))%Q).
Proof.
  apply (extractFrames_progress (clip 7)).
  - reflexivity.
  - intros t. reflexivity.
Defined.

(** Where the loop ends, from round [k] on: with the frames of all the
    rounds when the seeks of the rounds left complete and, if a round is
    left, the context is there; with the error event of the video when a
    seek fails, which must be that of round [k] when the context is
    missing; with the context error when round [k] is left, its seek
    completes and the context is missing. *)
Lemma captureFrame_outcome (v : VideoSource) :
  forall fuel k,
    (k <= rounds (duration v))%nat -> (rounds (duration v) - k <= fuel)%nat ->
    (fst (captureFrame fuel v (sampler_after v k))
     = Resolve (map (frame_at v) (seq 0 (rounds (duration v)))))
    \/ (fst (captureFrame fuel v (sampler_after v k)) = Reject MediaErrorEvent
        /\ exists i, (k <= i < rounds (duration v))%nat
                     /\ seek_completes v (Z.of_nat i * interval) = false
                     /\ (has_context v = true \/ i = k))
    \/ (fst (captureFrame fuel v (sampler_after v k))
        = Reject (ErrorMessage "Could not get canvas context")
        /\ (k < rounds (duration v))%nat
        /\ seek_completes v (Z.of_nat k * interval) = true
        /\ has_context v = false).
Proof.
  intros fuel.
  induction fuel as [|fuel IH]; intros k Hk Hfuel.
  - left. replace k with (rounds (duration v)) by lia.
    rewrite captureFrame_stop. reflexivity.
  - destruct (Nat.eq_dec k (rounds (duration v))) as [->|Hne].
    + left. rewrite captureFrame_stop. reflexivity.
    + rewrite captureFrame_continue by lia.
      destruct (seek_completes v (Z.of_nat k * interval)) eqn:Hs.
      * destruct (has_context v) eqn:Hctx.
        -- destruct (IH (S k)) as [H|[(H & i & Hi & Hf & _)|(_ & _ & _ & H)]];
             [lia|lia| | |discriminate H].
           ++ left. exact H.
           ++ right. left. split; [exact H|].
              exists i. split; [lia|]. split; [exact Hf|left; reflexivity].
        -- right. right. split; [reflexivity|]. split; [lia|]. split; reflexivity.
      * right. left. split; [reflexivity|].
        exists k. split; [lia|]. split; [exact Hs|right; reflexivity].
Qed.

(** X5.  When the metadata does not load, [extractFramesFromVideo]
    rejects with the error ["Failed to load video file"].  Once the
    metadata has loaded it rejects in these cases and in no other, round
    [i] of the [rounds] sampling rounds being the seek to second [3 * i]:
    - with the error event of the video, when the seek of a round fails
      and either the canvas context is there or the round is the first;
    - with the error ["Could not get canvas context"], when the canvas has
      no 2d context, the duration is not negative and the first seek
      completes. *)
Theorem extractFrames_rejections (v : VideoSource) (r : rejection) :
  fst (extractFramesFromVideo LoadFailed)
  = Reject (ErrorMessage "Failed to load video file")
  /\ (fst (extractFramesFromVideo (MetadataLoaded v)) = Reject r
      <-> (r = MediaErrorEvent
           /\ exists i : nat,
                (i < rounds (duration v))%nat
                /\ seek_completes v (Z.of_nat i * interval) = false
                /\ (has_context v = true \/ i = 0%nat))
          \/ (r = ErrorMessage "Could not get canvas context"
              /\ has_context v = false
              /\ (0 <= duration v)%Q
              /\ seek_completes v 0 = true)).
Proof.
  pose proof (rounds_le (duration v)) as Hr.
  split; [reflexivity|].
  unfold extractFramesFromVideo. change initial with (sampler_after v 0).
  change (Z.to_nat maxFrames) with 10%nat.
  split.
  - intros H.
    destruct (captureFrame_outcome v 10 0) as [H'|[(H' & i & Hi & Hf & Hc)|(H' & Hk & Hs & Hc)]];
      [lia|lia| | |]; rewrite H' in H.
    + discriminate H.
    + injection H as <-. left. split; [reflexivity|].
      exists i. split; [lia|]. split; [exact Hf|exact Hc].
    + injection H as <-. right. split; [reflexivity|]. split; [exact Hc|].
      split; [|exact Hs].
      apply Qnot_lt_le. intros Hd. apply rounds_zero in Hd. lia.
  - intros [(-> & i & Hi & Hf & [Hctx| ->])|(-> & Hctx & Hd & Hs)].
    + apply (captureFrame_seek_fails v i Hctx Hi Hf); lia.
    + rewrite captureFrame_continue by exact Hi. rewrite Hf. reflexivity.
    + assert (0 < rounds (duration v))%nat as Hpos.
      { destruct (rounds (duration v)) eqn:E; [|lia].
        apply rounds_zero in E. apply Qlt_not_le in E. contradiction. }
      rewrite captureFrame_continue by exact Hpos.
      change (Z.of_nat 0 * interval) with 0. rewrite Hs, Hctx. reflexivity.
Qed.

(** A clip of twenty seconds whose seek to second 6 fails rejects with
    the error event. *)
Lemma extractFrames_rejections_witness :
  fst (extractFramesFromVideo (MetadataLoaded (damaged_clip 20 6))) = Reject MediaErrorEvent.
Proof.
  apply (proj2 (proj2 (extractFrames_rejections (damaged_clip 20 6) MediaErrorEvent))).
  left. split; [reflexivity|].
  exists 2%nat. split; [vm_compute; lia|]. split; [reflexivity|left; reflexivity].
Defined.

(** X6.  Whatever the video element does, a list of frames that
    [extractFramesFromVideo] resolves with has at most ten frames, with
    the timestamps [0, 3, 6, ...]; it is empty exactly when the duration
    is negative, and then the promise resolves at once, without a seek. *)
Theorem extractFrames_bounds (v : VideoSource) :
  ((duration v < 0)%Q ->
   extractFramesFromVideo (MetadataLoaded v) = (Resolve [], initial))
  /\ forall fr,
       fst (extractFramesFromVideo (MetadataLoaded v)) = Resolve fr ->
       (length fr <= 10)%nat
       /\ map timestamp fr = map (fun k => Z.of_nat k * interval) (seq 0 (length fr))
       /\ (fr = [] <-> (duration v < 0)%Q).
Proof.
  pose proof (rounds_le (duration v)) as Hr.
  split.
  - intros Hd. apply rounds_zero in Hd. unfold extractFramesFromVideo.
    change initial with (sampler_after v 0).
    pose proof (captureFrame_stop v (Z.to_nat maxFrames)) as H.
    rewrite Hd in H. exact H.
  - intros fr H. unfold extractFramesFromVideo in H.
    change initial with (sampler_after v 0) in H.
    apply captureFrame_resolves in H; [|lia|unfold maxFrames; cbn; lia].
    subst fr. rewrite length_map, length_seq.
    split; [exact Hr|]. split; [apply timestamps_frame_at|].
    rewrite <- rounds_zero.
    destruct (rounds (duration v)); cbn; split; intros; (reflexivity || discriminate || lia).
Qed.

End SamplingOutcomes.

(** ** [analyzeImage]: responses without text *)

Section BackoffGeneral.
Import Async Session Retry.
Context {W T : Type}.

(** A failed attempt of any wrapped computation, with retries left. *)
Lemma backoff_retry (fn : M (session W) T) (n : nat) (d : Z)
    (s s' : session W) (e : JsError) :
  fn s = (Rejected e, s') ->
  backoff fn (S n) d s
  = backoff fn n (d * 2) (log (SetTimeout d) (log (ConsoleWarn d e) s')).
Proof.
  intros H. cbn [backoff]. unfold try_catch at 1. rewrite H.
  unfold bind, emit, modify. reflexivity.
Qed.

(** The last attempt of any wrapped computation. *)
Lemma backoff_last (fn : M (session W) T) (d : Z) (s : session W) :
  backoff fn 0 d s = fn s.
Proof.
  cbn [backoff]. unfold try_catch, throw.
  destruct (fn s) as [[v|e] s']; reflexivity.
Qed.

End BackoffGeneral.

Section ImageWithoutText.
Import Async Session Retry GeminiService Scenarios.
Context {W : Type}.
Variable generateContent : string -> W -> outcome response * W.
Variable JSON_parse : string -> outcome json.

Lemma analyzeImage_request_no_text (base64Image : string) (s : session W)
    (t : option string) (w : W) :
  generateContent base64Image (world s) = (Resolved {| text := t |}, w) ->
  truthy t = false ->
  analyzeImage_request generateContent JSON_parse base64Image s
  = (Rejected (Error "No response from Gemini"),
     {| world := w; trace := trace s ++ [GenerateContent base64Image] |}).
Proof.
  intros H Ht. rewrite analyzeImage_request_run, H. cbn [text]. rewrite Ht. reflexivity.
Qed.

(** X7.  A response without text, or with the empty text, counts as a
    failed attempt of [analyzeImage] and is retried: after four such
    responses in a row the call is rejected with
    ["No response from Gemini"], having made four requests and waited
    1000, 2000 and 4000 ms between them. *)
Theorem analyzeImage_no_text
    (base64Image : string) (w0 w1 w2 w3 w4 : W)
    (t1 t2 t3 t4 : option string) (tr : list event) :
  generateContent base64Image w0 = (Resolved {| text := t1 |}, w1) ->
  generateContent base64Image w1 = (Resolved {| text := t2 |}, w2) ->
  generateContent base64Image w2 = (Resolved {| text := t3 |}, w3) ->
  generateContent base64Image w3 = (Resolved {| text := t4 |}, w4) ->
  truthy t1 = false -> truthy t2 = false -> truthy t3 = false -> truthy t4 = false ->
  let no_response := Error "No response from Gemini" in
  analyzeImage generateContent JSON_parse base64Image {| world := w0; trace := tr |}
  = (Rejected no_response,
     {| world := w4;
        trace := tr ++ [ GenerateContent base64Image;
                         ConsoleWarn 1000 no_response; SetTimeout 1000;
                         GenerateContent base64Image;
                         ConsoleWarn 2000 no_response; SetTimeout 2000;
                         GenerateContent base64Image;
                         ConsoleWarn 4000 no_response; SetTimeout 4000;
                         GenerateContent base64Image ] |}).
Proof.
  intros H1 H2 H3 H4 T1 T2 T3 T4 no_response.
  unfold analyzeImage, withExponentialBackoff, default_retries, default_delay.
  change (Z.to_nat 3) with 3%nat.
  rewrite (backoff_retry _ _ _ _ _ _
             (analyzeImage_request_no_text _ {| world := w0; trace := tr |} t1 w1 H1 T1)).
  unfold log. cbn [world trace].
  rewrite (backoff_retry _ _ _ _ _ _
             (analyzeImage_request_no_text _ {| world := w1; trace := _ |} t2 w2 H2 T2)).
  unfold log. cbn [world trace].
  rewrite (backoff_retry _ _ _ _ _ _
             (analyzeImage_request_no_text _ {| world := w2; trace := _ |} t3 w3 H3 T3)).
  unfold log. cbn [world trace].
  rewrite backoff_last.
  rewrite (analyzeImage_request_no_text _ {| world := w3; trace := _ |} t4 w4 H4 T4).
  cbn [world trace]. rewrite <- !app_assoc. reflexivity.
Qed.

End ImageWithoutText.

Section ImageWithoutTextRun.
Import Async Session Retry GeminiService Scenarios.

Lemma analyzeImage_no_text_witness :
  let no_response := Error "No response from Gemini" in
  analyzeImage scripted_service Json.parse "snapshot"
    {| world := [says None; says (Some ""); says None; says None; says (Some very_high_text)];
       trace := [] |}
  = (Rejected no_response,
     {| world := [says (Some very_high_text)];
        trace := [] ++ [ GenerateContent "snapshot";
                         ConsoleWarn 1000 no_response; SetTimeout 1000;
                         GenerateContent "snapshot";
                         ConsoleWarn 2000 no_response; SetTimeout 2000;
                         GenerateContent "snapshot";
                         ConsoleWarn 4000 no_response; SetTimeout 4000;
                         GenerateContent "snapshot" ] |}).
Proof.
  apply (analyzeImage_no_text scripted_service Json.parse "snapshot"
           [says None; says (Some ""); says None; says None; says (Some very_high_text)]
           [says (Some ""); says None; says None; says (Some very_high_text)]
           [says None; says None; says (Some very_high_text)]
           [says None; says (Some very_high_text)]
           [says (Some very_high_text)]
           None (Some "") None None []); reflexivity.
Defined.

End ImageWithoutTextRun.

(** ** [analyzeVideoFrames]: runs over any number of frames *)

Section VideoRuns.
Import Async Session Retry RetrySpec GeminiService GeminiSpec VideoRunSpec.
Import MediaUtils.
Context {W : Type}.
Variable sendMessage : message -> W -> outcome response * W.

(** A retry-wrapped turn requests its message between one and
    [retries + 1] times and makes no callback. *)
Lemma backoff_turn_count (m : message) (n : nat) :
  forall (d : Z) (s s' : session W) (o : outcome (option string)),
    backoff (chat_turn sendMessage m) n d s = (o, s') ->
    exists ev k,
      trace s' = trace s ++ ev
      /\ callbacks ev = []
      /\ requests ev = replicate k m
      /\ (1 <= k <= S n)%nat.
Proof.
  induction n as [|n IH]; intros d s s' o H.
  - rewrite backoff_last, chat_turn_run in H.
    exists [ChatSend m], 1%nat.
    destruct (sendMessage m (world s)) as [[r|e] w]; injection H as <- <-;
      cbn [trace]; repeat split; lia.
  - cbn [backoff] in H. unfold try_catch in H. rewrite chat_turn_run in H.
    destruct (sendMessage m (world s)) as [[r|e] w].
    + injection H as <- <-. exists [ChatSend m], 1%nat.
      cbn [trace]. repeat split; lia.
    + unfold bind, emit, modify, log in H. cbn [world trace] in H.
      apply IH in H as (ev & k & Htr & Hcb & Hreq & Hk). cbn [trace] in Htr.
      exists (ChatSend m :: ConsoleWarn d e :: SetTimeout d :: ev), (S k).
      split; [rewrite Htr, <- !app_assoc; reflexivity|].
      split; [exact Hcb|].
      split; [|lia].
      change (requests (ChatSend m :: ConsoleWarn d e :: SetTimeout d :: ev))
        with (m :: requests ev).
      rewrite Hreq. reflexivity.
Qed.

Lemma requests_replicate_frame (k : nat) (i : nat) (frame : ExtractedFrame) :
  Forall is_frame_message (replicate k (frame_message i frame)).
Proof. apply Forall_replicate. exact I. Qed.

(** The loop over the frames: callbacks for a prefix of the frames, all of
    them when it resolves; at most four requests per frame. *)
Lemma process_frames_run (frames : list ExtractedFrame) :
  forall (i : nat) (acc : list Types.VideoFrameAnalysis) (s s' : session W)
         (o : outcome (list Types.VideoFrameAnalysis)),
    process_frames sendMessage i frames acc s = (o, s') ->
    exists texts ev,
      trace s' = trace s ++ ev
      /\ (length texts <= length frames)%nat
      /\ callbacks ev = results_of frames texts
      /\ (length (requests ev) <= 4 * length frames)%nat
      /\ Forall is_frame_message (requests ev)
      /\ match o with
         | Resolved rs => rs = acc ++ results_of frames texts
                          /\ length texts = length frames
         | Rejected _ => (length texts < length frames)%nat
         end.
Proof.
  induction frames as [|frame rest IH]; intros i acc s s' o H.
  - cbn in H. injection H as <- <-. exists [], [].
    rewrite !app_nil_r. cbn. repeat split; (lia || constructor).
  - rewrite process_frames_cons in H.
    destruct (frame_turn sendMessage i frame s) as [[a|e] s1] eqn:Hturn.
    + apply (backoff_turn_count _ _ _ _ _ _) in Hturn as (ev1 & k & Htr1 & Hcb1 & Hreq1 & Hk).
      apply IH in H as (texts & ev & Htr & Hlen & Hcb & Hreq & Hfm & Ho).
      cbn [log trace] in Htr.
      exists (a :: texts), (ev1 ++ [FrameAnalyzed (frame_result frame a)] ++ ev).
      split; [rewrite Htr, Htr1, <- !app_assoc; reflexivity|].
      split; [cbn; lia|].
      split.
      { rewrite !callbacks_app, Hcb1, Hcb. reflexivity. }
      split.
      { rewrite !requests_app, Hreq1, !length_app, length_replicate. cbn in *.
        change (Z.to_nat default_retries) with 3%nat in Hk. lia. }
      split.
      { rewrite !requests_app, Hreq1. apply Forall_app. split.
        - apply requests_replicate_frame.
        - exact Hfm. }
      destruct o as [rs|e].
      * destruct Ho as [-> Hl]. split; [rewrite <- app_assoc; reflexivity|cbn; lia].
      * cbn. lia.
    + injection H as <- <-.
      apply (backoff_turn_count _ _ _ _ _ _) in Hturn as (ev1 & k & Htr1 & Hcb1 & Hreq1 & Hk).
      exists [], ev1.
      split; [exact Htr1|]. split; [cbn; lia|]. split; [exact Hcb1|].
      split.
      { rewrite Hreq1, length_replicate. cbn.
        change (Z.to_nat default_retries) with 3%nat in Hk. lia. }
      split; [rewrite Hreq1; apply requests_replicate_frame|]. cbn. lia.
Qed.

Lemma results_of_timestamps (frames : list ExtractedFrame) :
  forall texts,
    map Types.timestamp (results_of frames texts)
    = map (fun f => formatTime (inject_Z (timestamp f))) (take (length texts) frames).
Proof.
  induction frames as [|f frames IH]; intros [|t texts]; try reflexivity.
  cbn. f_equal. apply IH.
Qed.

End VideoRuns.

Section VideoRunTheorems.
Import Async Session Retry RetrySpec GeminiService GeminiSpec VideoRunSpec.
Import MediaUtils.
Context {W : Type}.
Variable sendMessage : message -> W -> outcome response * W.

(** The two phases of a run: the loop over the frames, then the final
    turn if the loop got through. *)
Lemma analyzeVideoFrames_phases (frames : list ExtractedFrame) (s : session W) :
  exists texts ev_frames ev_final,
    trace (snd (analyzeVideoFrames sendMessage frames s))
    = trace s ++ ev_frames ++ ev_final
    /\ (length texts <= length frames)%nat
    /\ callbacks ev_frames = results_of frames texts
    /\ callbacks ev_final = []
    /\ (length (requests ev_frames) <= 4 * length frames)%nat
    /\ Forall is_frame_message (requests ev_frames)
    /\ (frames = [] -> ev_frames = [])
    /\ (ev_final = []
        \/ length texts = length frames
           /\ exists k, (1 <= k <= 4)%nat
                        /\ requests ev_final = replicate k final_report_message)
    /\ (forall r, fst (analyzeVideoFrames sendMessage frames s) = Resolved r ->
          Types.frames r = results_of frames texts
          /\ length texts = length frames
          /\ ev_final <> []).
Proof.
  rewrite analyzeVideoFrames_run.
  destruct (process_frames sendMessage 0 frames [] s) as [o s1] eqn:Hloop.
  assert (frames = [] -> s1 = s) as Hnil.
  { intros ->. cbn in Hloop. injection Hloop as _ <-. reflexivity. }
  destruct (process_frames_run _ _ _ _ _ _ _ Hloop)
    as (texts & ev & Htr & Hlen & Hcb & Hreq & Hfm & Ho).
  destruct o as [rs|e].
  - destruct Ho as [-> Hall].
    destruct (final_turn sendMessage s1) as [o2 s2] eqn:Hfinal.
    apply (backoff_turn_count _ _ _ _ _ _) in Hfinal as (ev2 & k & Htr2 & Hcb2 & Hreq2 & Hk).
    change (Z.to_nat default_retries) with 3%nat in Hk.
    destruct (decide (frames = [])) as [Hf|Hf].
    + exists texts, [], ev2. cbn [snd].
      rewrite Htr2, (Hnil Hf). cbn [app].
      split; [reflexivity|]. split; [exact Hlen|].
      split.
      { subst frames. destruct texts; [reflexivity|]. cbn in Hall. discriminate. }
      split; [exact Hcb2|]. split; [cbn; lia|]. split; [constructor|].
      split; [reflexivity|].
      split.
      { right. split; [exact Hall|]. exists k. split; [lia|exact Hreq2]. }
      intros r Hr. split; [|split; [exact Hall|]].
      * destruct o2; cbn in Hr; [|discriminate]. injection Hr as <-. reflexivity.
      * intros ->. destruct k; [lia|discriminate Hreq2].
    + exists texts, ev, ev2. cbn [snd].
      split; [rewrite Htr2, Htr, <- app_assoc; reflexivity|].
      split; [exact Hlen|]. split; [exact Hcb|]. split; [exact Hcb2|].
      split; [exact Hreq|]. split; [exact Hfm|].
      split; [intros; contradiction|].
      split.
      { right. split; [exact Hall|]. exists k. split; [lia|exact Hreq2]. }
      intros r Hr. split; [|split; [exact Hall|]].
      * destruct o2; cbn in Hr; [|discriminate]. injection Hr as <-. reflexivity.
      * intros ->. destruct k; [lia|discriminate Hreq2].
  - exists texts, ev, []. cbn [snd]. rewrite app_nil_r.
    split; [exact Htr|]. split; [exact Hlen|]. split; [exact Hcb|].
    split; [reflexivity|]. split; [exact Hreq|]. split; [exact Hfm|].
    split.
    { intros ->. cbn in Hloop. discriminate Hloop. }
    split; [left; reflexivity|].
    intros r Hr. discriminate Hr.
Qed.

(** X8.  In every run of [analyzeVideoFrames], over any number of frames,
    the callbacks are made for a prefix of the frames, one per frame and in
    the order of the frames, each with the formatted timestamp of its
    frame; when the run resolves, every frame had its callback and the
    [frames] of the result are exactly the analyses that were handed to
    the callbacks, in the same order. *)
Theorem analyzeVideoFrames_callbacks (frames : list ExtractedFrame) (s : session W) :
  exists texts ev,
    trace (snd (analyzeVideoFrames sendMessage frames s)) = trace s ++ ev
    /\ (length texts <= length frames)%nat
    /\ callbacks ev = results_of frames texts
    /\ length (callbacks ev) = length texts
    /\ map Types.timestamp (callbacks ev)
       = map (fun f => formatTime (inject_Z (timestamp f))) (take (length texts) frames)
    /\ (forall r, fst (analyzeVideoFrames sendMessage frames s) = Resolved r ->
          Types.frames r = callbacks ev
          /\ length (callbacks ev) = length frames).
Proof.
  destruct (analyzeVideoFrames_phases frames s)
    as (texts & ev1 & ev2 & Htr & Hlen & Hcb & Hcb2 & _ & _ & _ & _ & Hres).
  exists texts, (ev1 ++ ev2).
  assert (callbacks (ev1 ++ ev2) = results_of frames texts) as Hc
    by (rewrite callbacks_app, Hcb, Hcb2, app_nil_r; reflexivity).
  assert (length (results_of frames texts) = length texts) as Hl.
  { unfold results_of. rewrite length_zip_with. lia. }
  split; [exact Htr|]. split; [exact Hlen|]. split; [exact Hc|].
  split; [rewrite Hc; exact Hl|].
  split; [rewrite Hc; apply results_of_timestamps|].
  intros r Hr. destruct (Hres r Hr) as (Hf & Hall & _).
  rewrite Hc, Hl. split; [exact Hf|exact Hall].
Qed.

(** X9.  A run of [analyzeVideoFrames] sends every frame at most four
    times, so at most [4 * (n + 1)] chat requests are made for [n] frames;
    the final report is requested only after the callback of the last
    frame was made, between once and four times, and no callback follows
    it; for an empty list of frames the final report is the only thing
    requested. *)
Theorem analyzeVideoFrames_requests (frames : list ExtractedFrame) (s : session W) :
  exists ev_frames ev_final,
    trace (snd (analyzeVideoFrames sendMessage frames s))
    = trace s ++ ev_frames ++ ev_final
    /\ Forall is_frame_message (requests ev_frames)
    /\ (length (requests ev_frames) <= 4 * length frames)%nat
    /\ callbacks ev_final = []
    /\ (ev_final = []
        \/ length (callbacks ev_frames) = length frames
           /\ exists k, (1 <= k <= 4)%nat
                        /\ requests ev_final = replicate k final_report_message)
    /\ (length (requests (ev_frames ++ ev_final)) <= 4 * (length frames + 1))%nat
    /\ (frames = [] -> ev_frames = [])
    /\ (forall r, fst (analyzeVideoFrames sendMessage frames s) = Resolved r ->
          ev_final <> []).
Proof.
  destruct (analyzeVideoFrames_phases frames s)
    as (texts & ev1 & ev2 & Htr & Hlen & Hcb & Hcb2 & Hreq & Hfm & Hnil & Hfin & Hres).
  exists ev1, ev2.
  split; [exact Htr|]. split; [exact Hfm|]. split; [exact Hreq|].
  split; [exact Hcb2|].
  assert (length (results_of frames texts) = length texts) as Hl.
  { unfold results_of. rewrite length_zip_with. lia. }
  split.
  { destruct Hfin as [->|(Hall & k & Hk & Hr)]; [left; reflexivity|].
    right. split; [rewrite Hcb, Hl; exact Hall|]. exists k. split; assumption. }
  split.
  { rewrite requests_app, length_app.
    destruct Hfin as [->|(_ & k & Hk & ->)]; [cbn; lia|].
    rewrite length_replicate. lia. }
  split; [exact Hnil|].
  intros r Hr. destruct (Hres r Hr) as (_ & _ & Hne). exact Hne.
Qed.

End VideoRunTheorems.

(** ** The summary table of [ImageAnalyzer] *)

Section Tally.
Import Detection JsObject ImageAnalyzer OverlaySpec AggregationSpec.

Lemma aggregate_snoc (p : prototype) (objects : list DetectedObject) (obj : DetectedObject) :
  aggregate p (objects ++ [obj]) = visit (aggregate p objects) obj.
Proof. unfold aggregate. apply foldl_snoc. Qed.

Lemma occurrences_snoc (n : string) (objects : list DetectedObject) (obj : DetectedObject) :
  occurrences n (objects ++ [obj])
  = (occurrences n objects + if String.eqb (name obj) n then 1 else 0)%nat.
Proof.
  unfold occurrences. rewrite List.filter_app, length_app. cbn.
  destruct (String.eqb (name obj) n); reflexivity.
Qed.

Lemma first_named_snoc (n : string) (objects : list DetectedObject) (obj : DetectedObject) :
  first_named n (objects ++ [obj])
  = match first_named n objects with
    | Some o => Some o
    | None => if String.eqb (name obj) n then Some obj else None
    end.
Proof.
  unfold first_named. induction objects as [|o objects IH]; [reflexivity|].
  cbn. destruct (String.eqb (name o) n); [reflexivity|exact IH].
Qed.

(** The first [if] touches neither [counts] nor [Object.prototype]. *)
Lemma assign_color_counts (a : aggregation) (n : string) :
  counts (assign_color a n) = counts a
  /\ Object_prototype (assign_color a n) = Object_prototype a.
Proof. unfold assign_color. destruct (get _ _ _); split; reflexivity. Qed.

(** A name that is no builtin is inherited as NaN or not at all. *)
Lemma inherits_falsy (p : prototype) (key : string) :
  is_builtin key = false ->
  inherits p key = Some NotANumber \/ inherits p key = None.
Proof.
  intros H. unfold inherits. rewrite H.
  destruct p; [right; reflexivity|].
  destruct (String.eqb key "count"); [left|right]; reflexivity.
Qed.

(** The entries of [counts] after a visit, read off the entries before. *)
Lemma visit_counts (a : aggregation) (obj : DetectedObject) (n : string) :
  counts (visit a obj) !! n
  = if String.eqb (name obj) n then
      match counts a !! n with
      | Some e => Some {| count := count e + 1;
                          summary_confidence := summary_confidence e;
                          colorIndex := colorIndex e |}
      | None =>
          if is_builtin n then None
          else Some {| count := 0 + 1;
                       summary_confidence := confidence obj;
                       colorIndex := get (Object_prototype a)
                                         (nameColorMap (assign_color a (name obj)))
                                         (name obj) |}
      end
    else counts a !! n.
Proof.
  destruct (assign_color_counts a (name obj)) as [Hc Hp].
  assert (forall (m : gmap string summary) (e : summary),
            (<[name obj := e]> m) !! n
            = if String.eqb (name obj) n then Some e else m !! n) as Hins.
  { intros m e. destruct (String.eqb (name obj) n) eqn:E.
    - apply String.eqb_eq in E. subst n. apply lookup_insert_eq.
    - apply String.eqb_neq in E. apply lookup_insert_ne, E. }
  unfold visit.
  destruct (counts a !! name obj) as [e|] eqn:He.
  - assert (open_summary (assign_color a (name obj)) obj = assign_color a (name obj)) as ->.
    { unfold open_summary, get. rewrite Hc, He. reflexivity. }
    unfold increment, get. rewrite Hc, He. cbn [counts]. rewrite Hins.
    destruct (String.eqb (name obj) n) eqn:E; [|reflexivity].
    apply String.eqb_eq in E. subst n. rewrite He. reflexivity.
  - destruct (is_builtin (name obj)) eqn:Hb.
    + pose proof (proj1 (inherits_builtin (Object_prototype a) _) Hb) as Hi.
      assert (open_summary (assign_color a (name obj)) obj = assign_color a (name obj)) as ->.
      { unfold open_summary, get. rewrite Hc, Hp, He, Hi. reflexivity. }
      assert (counts (increment (assign_color a (name obj)) (name obj)) = counts a) as ->.
      { unfold increment, get. rewrite Hc, Hp, He, Hi.
        destruct (String.eqb (name obj) "__proto__"); cbn [counts];
          first [reflexivity|exact Hc]. }
      destruct (String.eqb (name obj) n) eqn:E; [|reflexivity].
      apply String.eqb_eq in E. subst n. rewrite He, Hb. reflexivity.
    + assert (open_summary (assign_color a (name obj)) obj
              = {| counts := <[name obj := {| count := 0;
                                              summary_confidence := confidence obj;
                                              colorIndex :=
                                                get (Object_prototype a)
                                                    (nameColorMap (assign_color a (name obj)))
                                                    (name obj) |}]> (counts a);
                   nameColorMap := nameColorMap (assign_color a (name obj));
                   colorCounter := colorCounter (assign_color a (name obj));
                   Object_prototype := Object_prototype a |}) as ->.
      { unfold open_summary. rewrite Hc, Hp. unfold get at 1. rewrite He.
        destruct (inherits_falsy (Object_prototype a) _ Hb) as [-> | ->]; reflexivity. }
      unfold increment, get. cbn [counts Object_prototype]. rewrite lookup_insert_eq.
      cbn [counts count summary_confidence colorIndex].
      rewrite insert_insert_eq, Hins.
      destruct (String.eqb (name obj) n) eqn:E; [|reflexivity].
      apply String.eqb_eq in E. subst n. rewrite He, Hb. reflexivity.
Qed.

Lemma first_named_none (n : string) (objects : list DetectedObject) :
  first_named n objects = None <-> occurrences n objects = 0%nat.
Proof.
  unfold first_named, occurrences.
  induction objects as [|o objects IH]; cbn; [tauto|].
  destruct (String.eqb (name o) n); cbn; [split; intros; discriminate|exact IH].
Qed.

Lemma aggregate_tallied (p : prototype) (objects : list DetectedObject) :
  tallied (aggregate p objects) objects.
Proof.
  induction objects as [|obj objects IH] using rev_ind.
  - intros n. cbn. rewrite lookup_empty. right. reflexivity.
  - intros n. specialize (IH n).
    rewrite aggregate_snoc, visit_counts, occurrences_snoc, first_named_snoc.
    destruct (String.eqb (name obj) n) eqn:E.
    + destruct (counts (aggregate p objects) !! n) as [e|].
      * destruct IH as (Hb & Hcount & o & Ho & Hconf).
        cbv beta iota. cbn [count summary_confidence].
        split; [exact Hb|].
        split; [rewrite Hcount; lia|]. exists o. rewrite Ho. split; [reflexivity|exact Hconf].
      * destruct (is_builtin n) eqn:Hb; [left; reflexivity|].
        destruct IH as [IH|IH]; [discriminate IH|].
        rewrite IH. cbv beta iota. cbn [count summary_confidence].
        apply first_named_none in IH. rewrite IH.
        split; [reflexivity|].
        split; [reflexivity|]. exists obj. split; reflexivity.
    + destruct (counts (aggregate p objects) !! n) as [e|].
      * destruct IH as (Hb & Hcount & o & Ho & Hconf). cbv beta iota.
        split; [exact Hb|].
        split; [rewrite Hcount; lia|]. exists o. rewrite Ho. split; [reflexivity|exact Hconf].
      * destruct IH as [IH|IH]; [left; exact IH|right; rewrite IH; reflexivity].
Qed.

Lemma map_as_fmap {A B : Type} (f : A -> B) (l : list A) : map f l = f <$> l.
Proof. induction l as [|x l IH]; [reflexivity|]. cbn. rewrite IH. reflexivity. Qed.

(** The names in the order of their first occurrence: each of the names,
    once. *)
Lemma foldl_note (names seen : list string) :
  NoDup seen ->
  NoDup (foldl note seen names)
  /\ forall n, n ∈ foldl note seen names <-> n ∈ seen \/ n ∈ names.
Proof.
  revert seen. induction names as [|x names IH]; intros seen Hnd.
  - split; [exact Hnd|]. intros n. cbn. rewrite elem_of_nil. tauto.
  - cbn [foldl]. unfold note at 2 4. destruct (decide (x ∈ seen)) as [Hx|Hx].
    + destruct (IH seen Hnd) as [H1 H2]. split; [exact H1|].
      intros n. rewrite H2, elem_of_cons. split; [tauto|].
      intros [H|[->|H]]; tauto.
    + assert (NoDup (seen ++ [x])) as Hnd'.
      { apply NoDup_app. split; [exact Hnd|]. split; [|apply NoDup_singleton].
        intros y Hy Hy'. apply list_elem_of_singleton in Hy'. subst y. contradiction. }
      destruct (IH _ Hnd') as [H1 H2]. split; [exact H1|].
      intros n. rewrite H2, elem_of_app, list_elem_of_singleton, elem_of_cons. tauto.
Qed.

Lemma first_occurrences_names (names : list string) :
  NoDup (first_occurrences names)
  /\ forall n, n ∈ first_occurrences names <-> n ∈ names.
Proof.
  destruct (foldl_note names [] (NoDup_nil_2)) as [H1 H2].
  split; [exact H1|]. intros n.
  change (first_occurrences names) with (foldl note [] names).
  rewrite H2, elem_of_nil. tauto.
Qed.

Lemma counted_names (objects : list DetectedObject) (n : string) :
  In n (map name (counted objects)) <-> In n (map name objects) /\ is_builtin n = false.
Proof.
  unfold counted. rewrite !in_map_iff. split.
  - intros (o & <- & Ho). apply List.filter_In in Ho as [Ho Hb].
    split; [exists o; split; [reflexivity|exact Ho]|].
    apply negb_true_iff, Hb.
  - intros [(o & <- & Ho) Hb]. exists o. split; [reflexivity|].
    apply List.filter_In. split; [exact Ho|]. apply negb_true_iff, Hb.
Qed.

(** X10.  The summary table of [ImageAnalyzer] has exactly one row for
    every name that occurs among the detected objects and is no builtin of
    [Object.prototype] ([toString], [constructor], [__proto__], ...), and
    no other row: an object with the name of a builtin gets no row.  The
    count of a row is the number of objects of that name (at least one),
    and its confidence is that of the first object of the name. *)
Theorem aggregatedObjects_rows (p : prototype) (objects : list DetectedObject) :
  NoDup (map fst (aggregatedObjects p (Some objects)))
  /\ (forall n, In n (map fst (aggregatedObjects p (Some objects)))
                <-> In n (map name objects) /\ is_builtin n = false)
  /\ length (aggregatedObjects p (Some objects))
     = length (first_occurrences (map name (counted objects)))
  /\ (forall n e,
        In (n, e) (aggregatedObjects p (Some objects)) ->
        count e = Z.of_nat (occurrences n objects)
        /\ 1 <= count e
        /\ exists o, first_named n objects = Some o
                     /\ summary_confidence e = confidence o).
Proof.
  pose proof (aggregate_tallied p objects) as Ht.
  assert (Hrows : forall n, In n (map fst (aggregatedObjects p (Some objects)))
                            <-> is_Some (counts (aggregate p objects) !! n)).
  { intros n. cbn [aggregatedObjects]. rewrite in_map_iff. split.
    - intros ([k e] & <- & Hke).
      apply list_elem_of_In, elem_of_map_to_list in Hke. eexists. exact Hke.
    - intros [e He]. exists (n, e). split; [reflexivity|].
      apply list_elem_of_In, elem_of_map_to_list. exact He. }
  assert (Hnames : forall n, In n (map fst (aggregatedObjects p (Some objects)))
                             <-> In n (map name objects) /\ is_builtin n = false).
  { intros n. rewrite Hrows. specialize (Ht n).
    destruct (counts (aggregate p objects) !! n) as [e|].
    - destruct Ht as (Hb & _ & o & Ho & _).
      split; [intros _|intros _; eexists; reflexivity].
      split; [|exact Hb].
      apply List.find_some in Ho as [Ho Hn]. apply String.eqb_eq in Hn. subst n.
      apply in_map. exact Ho.
    - split; [intros [x Hx]; discriminate Hx|].
      intros [Hn Hb]. exfalso. destruct Ht as [Ht|Ht]; [congruence|].
      apply in_map_iff in Hn as (o & <- & Ho).
      apply (List.find_none _ _ Ht) in Ho.
      rewrite String.eqb_refl in Ho. discriminate Ho. }
  split; [rewrite map_as_fmap; apply NoDup_fst_map_to_list|].
  split; [exact Hnames|].
  split.
  { destruct (first_occurrences_names (map name (counted objects))) as [Hnd Hin].
    rewrite <- (length_map fst).
    apply Permutation_length, NoDup_Permutation.
    - cbn [aggregatedObjects]. rewrite map_as_fmap. apply NoDup_fst_map_to_list.
    - exact Hnd.
    - intros n. rewrite Hin, !list_elem_of_In, Hnames, counted_names. reflexivity. }
  intros n e Hne. cbn [aggregatedObjects] in Hne.
  apply list_elem_of_In, elem_of_map_to_list in Hne.
  specialize (Ht n). rewrite Hne in Ht. destruct Ht as (_ & Hcount & o & Ho & Hconf).
  split; [exact Hcount|]. split.
  - rewrite Hcount.
    assert (occurrences n objects <> 0%nat) as H0
      by (rewrite <- first_named_none; congruence).
    lia.
  - exists o. split; assumption.
Qed.

End Tally.

(** ** Colours: always defined, and distinct while the palette lasts *)

Section Palette.
Import Detection JsObject ImageAnalyzer OverlaySpec AggregationSpec Legends Scenarios.

Lemma BOX_COLORS_NoDup : NoDup BOX_COLORS.
Proof. apply (bool_decide_unpack _). vm_compute. exact I. Qed.

Lemma webcam_BOX_COLORS_NoDup : NoDup WebcamAnalyzer.BOX_COLORS.
Proof. apply (bool_decide_unpack _). vm_compute. exact I. Qed.

(** The [forEach] callback keeps the colour indices within the palette. *)
Lemma visit_indexed (a : aggregation) (obj : DetectedObject) :
  indexed a -> indexed (visit a obj).
Proof.
  intros [Hm Hc].
  assert (forall n v, nameColorMap (assign_color a (name obj)) !! n = Some v ->
                      0 <= v < 8) as Hm1.
  { intros n v. unfold assign_color.
    destruct (get _ _ _); cbn [nameColorMap]; try apply Hm.
    destruct (decide (name obj = n)) as [->|Hne].
    - rewrite lookup_insert_eq. intros [= <-].
      change (Z.of_nat (length BOX_COLORS)) with 8. apply Z.mod_pos_bound. lia.
    - rewrite lookup_insert_ne by exact Hne. apply Hm. }
  split.
  - assert (nameColorMap (visit a obj) = nameColorMap (assign_color a (name obj))) as ->;
      [|exact Hm1].
    unfold visit, increment, open_summary.
    repeat (match goal with
            | |- context [match ?x with _ => _ end] => destruct x
            end; cbn [nameColorMap]); reflexivity.
  - intros n e. rewrite visit_counts.
    destruct (String.eqb (name obj) n) eqn:E; [|apply Hc].
    apply String.eqb_eq in E. subst n.
    destruct (counts a !! name obj) as [e0|] eqn:He.
    + intros [= <-]. cbn [colorIndex]. apply (Hc _ _ He).
    + destruct (is_builtin (name obj)) eqn:Hb; [discriminate|].
      intros [= <-]. cbn [colorIndex]. unfold get.
      destruct (nameColorMap (assign_color a (name obj)) !! name obj) as [v|] eqn:Hv.
      * exists v. split; [reflexivity|]. apply (Hm1 _ _ Hv).
      * destruct (inherits_falsy (Object_prototype a) _ Hb) as [-> | ->];
          exists 0; split; try reflexivity; lia.
Qed.

Lemma aggregate_indexed (p : prototype) (objects : list DetectedObject) :
  indexed (aggregate p objects).
Proof.
  induction objects as [|obj objects IH] using rev_ind.
  - split; intros n x H; cbn in H; rewrite lookup_empty in H; discriminate H.
  - rewrite aggregate_snoc. apply visit_indexed, IH.
Qed.

Lemma color_index_range (p : prototype) (objects : list DetectedObject) (n : string) :
  exists i, color_index (aggregatedObjects p (Some objects)) n = Some i /\ 0 <= i < 8.
Proof.
  destruct (aggregate_indexed p objects) as [_ Hc].
  unfold color_index, aggregatedObjects.
  destruct (counts (aggregate p objects) !! n) as [e|] eqn:He.
  - rewrite (find_by_name_entries _ _ _ He). cbn [snd]. apply (Hc _ _ He).
  - rewrite (find_by_name_none _ _ He). exists 0. split; [reflexivity|lia].
Qed.

Lemma color_of_rank (p : prototype) (objects : list DetectedObject) (r : nat) (n : string) :
  own_names p objects ->
  first_occurrences (map name objects) !! r = Some n ->
  color_of (aggregatedObjects p (Some objects)) n = BOX_COLORS !! (r mod 8)%nat.
Proof.
  intros Hown Hr. unfold color_of. rewrite (color_index_rank p objects r n Hown Hr).
  change (Z.of_nat (length BOX_COLORS)) with (Z.of_nat 8).
  rewrite <- Nat2Z.inj_mod, Nat2Z.id. reflexivity.
Qed.

(** X11.  In [ImageAnalyzer] the colour of a box is always one of the
    eight colours of the palette, never [undefined], whatever the names.
    When no name is inherited from [Object.prototype]: two different names
    among the first eight distinct names have different colours, a name
    has the colour of the name eight ranks before it, and the dot in the
    summary row of a name has the colour of the boxes of that name. *)
Theorem image_colors (p : prototype) (objects : list DetectedObject) :
  (forall n, exists c,
     color_of (aggregatedObjects p (Some objects)) n = Some c /\ In c BOX_COLORS)
  /\ (own_names p objects ->
      (forall r1 r2 n1 n2,
         first_occurrences (map name objects) !! r1 = Some n1 ->
         first_occurrences (map name objects) !! r2 = Some n2 ->
         (r1 < 8)%nat -> (r2 < 8)%nat -> n1 <> n2 ->
         color_of (aggregatedObjects p (Some objects)) n1
         <> color_of (aggregatedObjects p (Some objects)) n2)
      /\ (forall r n n',
            first_occurrences (map name objects) !! r = Some n ->
            first_occurrences (map name objects) !! (r + 8)%nat = Some n' ->
            color_of (aggregatedObjects p (Some objects)) n
            = color_of (aggregatedObjects p (Some objects)) n')
      /\ (forall n e,
            In (n, e) (aggregatedObjects p (Some objects)) ->
            row_color e = color_of (aggregatedObjects p (Some objects)) n)).
Proof.
  split.
  { intros n. destruct (color_index_range p objects n) as (i & Hi & Hr).
    unfold color_of. rewrite Hi.
    destruct (BOX_COLORS !! Z.to_nat i) as [c|] eqn:Hc.
    - exists c. split; [reflexivity|].
      apply list_elem_of_In. eapply list_elem_of_lookup_2. exact Hc.
    - apply lookup_ge_None in Hc. change (length BOX_COLORS) with 8%nat in Hc. lia. }
  intros Hown. split.
  { intros r1 r2 n1 n2 H1 H2 Hr1 Hr2 Hne Heq.
    rewrite (color_of_rank _ _ _ _ Hown H1), (color_of_rank _ _ _ _ Hown H2) in Heq.
    rewrite !Nat.mod_small in Heq by lia.
    destruct (BOX_COLORS !! r1) as [c|] eqn:L1.
    - symmetry in Heq.
      pose proof (NoDup_lookup _ _ _ _ BOX_COLORS_NoDup L1 Heq) as Hr. subst r2.
      congruence.
    - apply lookup_ge_None in L1. change (length BOX_COLORS) with 8%nat in L1. lia. }
  split.
  { intros r n n' H1 H2.
    rewrite (color_of_rank _ _ _ _ Hown H1), (color_of_rank _ _ _ _ Hown H2).
    f_equal. rewrite Nat.Div0.add_mod, Nat.Div0.mod_same, Nat.add_0_r.
    symmetry. apply Nat.Div0.mod_mod. }
  intros n e Hne. cbn [aggregatedObjects] in Hne.
  apply list_elem_of_In, elem_of_map_to_list in Hne.
  destruct (aggregate_colored p objects Hown) as (_ & _ & _ & _ & Hin & Hout).
  assert (n ∈ first_occurrences (map name objects)) as Hseen.
  { destruct (decide (n ∈ first_occurrences (map name objects))) as [H|H]; [exact H|].
    destruct (Hout n H) as [Hc _]. congruence. }
  destruct (Hin n Hseen) as (e' & i & He' & _ & Hi).
  assert (e' = e) by congruence. subst e'.
  unfold row_color, color_of, color_index, aggregatedObjects.
  rewrite (find_by_name_entries _ _ _ Hne). cbn [snd]. rewrite Hi. reflexivity.
Qed.

(** Of [[cat; dog; cat]] the cat and the dog have different colours. *)
Lemma image_colors_witness :
  color_of (aggregatedObjects Pristine (Some [cat; dog; second_cat])) "cat"
  <> color_of (aggregatedObjects Pristine (Some [cat; dog; second_cat])) "dog".
Proof.
  refine (proj1 (proj2 (image_colors Pristine [cat; dog; second_cat]) _)
            0%nat 1%nat "cat" "dog" _ _ _ _ _).
  - repeat constructor.
  - reflexivity.
  - reflexivity.
  - lia.
  - lia.
  - discriminate.
Defined.

End Palette.

Section WebcamPalette.
Import Detection OverlaySpec Legends.

Lemma webcam_color_at_defined (i : nat) :
  exists c, WebcamAnalyzer.color_at i = Some c /\ In c WebcamAnalyzer.BOX_COLORS.
Proof.
  unfold WebcamAnalyzer.color_at.
  destruct (WebcamAnalyzer.BOX_COLORS !! (i mod length WebcamAnalyzer.BOX_COLORS)%nat)
    as [c|] eqn:Hc.
  - exists c. split; [reflexivity|].
    apply list_elem_of_In. eapply list_elem_of_lookup_2. exact Hc.
  - apply lookup_ge_None in Hc.
    pose proof (Nat.mod_upper_bound i (length WebcamAnalyzer.BOX_COLORS)) as Hb.
    change (length WebcamAnalyzer.BOX_COLORS) with 7%nat in *. lia.
Qed.

(** X12.  In the overlay of the webcam snapshot every box has one of the
    seven colours of the palette; two boxes have the same colour exactly
    when their positions are equal modulo [7], so up to seven boxes are all
    coloured differently, whatever their names; and the dot of the chip of
    an object has the colour of the box of that object. *)
Theorem webcam_colors (objects : list DetectedObject) :
  (forall i j bi bj,
     WebcamAnalyzer.overlay objects !! i = Some bi ->
     WebcamAnalyzer.overlay objects !! j = Some bj ->
     (exists c, color bi = Some c /\ In c WebcamAnalyzer.BOX_COLORS)
     /\ (color bi = color bj <-> (i mod 7 = j mod 7)%nat))
  /\ chip_colors objects = map color (WebcamAnalyzer.overlay objects).
Proof.
  split.
  - intros i j bi bj Hi Hj.
    rewrite webcam_overlay_lookup in Hi, Hj.
    destruct (objects !! i) as [oi|]; [|discriminate].
    destruct (objects !! j) as [oj|]; [|discriminate].
    cbn in Hi, Hj. injection Hi as <-. injection Hj as <-. cbn [color].
    split; [apply webcam_color_at_defined|].
    unfold WebcamAnalyzer.color_at.
    change (length WebcamAnalyzer.BOX_COLORS) with 7%nat.
    split; [|intros ->; reflexivity].
    intros Heq.
    destruct (WebcamAnalyzer.BOX_COLORS !! (i mod 7)%nat) as [c|] eqn:Li.
    + symmetry in Heq.
      exact (NoDup_lookup _ _ _ _ webcam_BOX_COLORS_NoDup Li Heq).
    + apply lookup_ge_None in Li.
      pose proof (Nat.mod_upper_bound i 7) as Hb.
      change (length WebcamAnalyzer.BOX_COLORS) with 7%nat in Li. lia.
  - unfold chip_colors, WebcamAnalyzer.overlay.
    apply list_eq. intros i.
    rewrite map_as_fmap, list_lookup_fmap, !list_lookup_imap.
    destruct (objects !! i); reflexivity.
Qed.

End WebcamPalette.

(** ** [startCamera] and [stopCamera]: no error escapes, no stream leaks *)

Section CameraStates.
Import Async WebcamAnalyzer CameraSpec CameraStops.
Context {W : Type}.
Variable supported : W -> bool.
Variable getUserMedia : constraints -> W -> outcome (option nat) * W.
Variable video_mounted : W -> bool.
Variable play : W -> outcome unit * W.

Lemma stops_app (a b : list camera_event) : stops (a ++ b) = stops a ++ stops b.
Proof. unfold stops. apply omap_app. Qed.

(** Without the camera API nothing is requested. *)
Lemma startCamera_unsupported (c : camera W) :
  supported (devices c) = false ->
  startCamera supported getUserMedia video_mounted play c
  = on_failure (Error "Camera API is not supported in this browser or context.")
      (reset c).
Proof.
  intros Hs. unfold startCamera, bind at 1. rewrite stopCamera_run.
  unfold try_catch at 1, acquire, bind at 1 2, setError, setPermissionDenied, modify.
  cbn [devices streamRef isStreaming error permissionDenied events].
  rewrite Hs. reflexivity.
Qed.

(** The negotiation only adds requests and a warning, and leaves the
    state of the component alone. *)
Lemma negotiate_shape (c : camera W) :
  exists w evs,
    snd (negotiate getUserMedia c) = moved_on c w evs
    /\ stops evs = []
    /\ exists more, requested evs = HdVideo :: more.
Proof.
  rewrite negotiate_run.
  destruct (getUserMedia HdVideo (devices c)) as [[stream|hdError] w1].
  - exists w1, [GetUserMedia HdVideo]. repeat split. exists []. reflexivity.
  - destruct (getUserMedia BasicVideo w1) as [o w2].
    exists w2, [GetUserMedia HdVideo; WarnHdFailed hdError; GetUserMedia BasicVideo].
    repeat split. exists [BasicVideo]. reflexivity.
Qed.

(** The part of [startCamera] after a stream was obtained: it cannot
    fail, whatever [play] does. *)
Lemma attach_run (stream : nat) (c : camera W) :
  exists c' evs,
    try_catch
      (let* _ := setStreamRef (Some stream) in
       let* _ :=
         (fun c'' =>
            if video_mounted (devices c'')
            then try_catch (let* _ := record Play in on_devices play)
                           (fun playErr => record (ErrorPlaying playErr)) c''
            else ret tt c'') in
       setIsStreaming true)
      (on_failure (W := W)) c = (Resolved tt, c')
    /\ streamRef c' = Some stream
    /\ isStreaming c' = true
    /\ error c' = error c
    /\ permissionDenied c' = permissionDenied c
    /\ events c' = events c ++ evs
    /\ stops evs = []
    /\ requested evs = []
    /\ (forall e w, video_mounted (devices c) = true ->
                    play (devices c) = (Rejected e, w) ->
                    evs = [Play; ErrorPlaying e]).
Proof.
  unfold try_catch at 1, bind at 1, setStreamRef, modify.
  unfold bind at 1. cbn [devices].
  destruct (video_mounted (devices c)) eqn:Hv.
  - unfold try_catch, bind, record, on_devices, modify, setIsStreaming.
    cbn [devices streamRef isStreaming error permissionDenied events].
    destruct (play (devices c)) as [[[]|e] w] eqn:Hp.
    + eexists _, [Play]. cbn [devices streamRef isStreaming error permissionDenied events].
      repeat split. intros e w' _ H. discriminate H.
    + eexists _, [Play; ErrorPlaying e].
      cbn [devices streamRef isStreaming error permissionDenied events].
      rewrite <- app_assoc.
      repeat split. intros e' w' _ H. injection H as <- _. reflexivity.
  - unfold ret, setIsStreaming, modify.
    eexists _, []. cbn [devices streamRef isStreaming error permissionDenied events].
    rewrite app_nil_r. repeat split. intros e w Hm. discriminate Hm.
Qed.

End CameraStates.

Section CameraTheorems.
Import Async WebcamAnalyzer CameraSpec CameraStops.
Context {W : Type}.
Variable supported : W -> bool.
Variable getUserMedia : constraints -> W -> outcome (option nat) * W.
Variable video_mounted : W -> bool.
Variable play : W -> outcome unit * W.

Lemma on_failure_down (err : JsError) (c : camera W) :
  streamRef c = None ->
  exists c',
    on_failure err c = (Resolved tt, c')
    /\ events c' = events c ++ [ErrorAccessing err]
    /\ down c'.
Proof.
  intros Hs.
  destruct (on_failure_run err c) as (c' & Hrun & Hev & _ & Hsr & Hst & Herr & _).
  exists c'. split; [exact Hrun|]. split; [exact Hev|].
  split; [exact Hst|]. split; [congruence|exact Herr].
Qed.

(** X13.  No error escapes [startCamera]: whatever the browser does, the
    call resolves.  Afterwards the component is either live (it holds a
    stream, [isStreaming] is set, no error is shown and the permission is
    not marked as denied) or down (no stream, [isStreaming] unset, an
    error message shown).  The stream it held before, if any, has been
    stopped, once and before anything else, and no other stream is
    stopped. *)
Theorem startCamera_settles (c : camera W) :
  exists c' evs,
    startCamera supported getUserMedia video_mounted play c = (Resolved tt, c')
    /\ events c' = events (reset c) ++ evs
    /\ stops evs = []
    /\ stops (events c')
       = stops (events c) ++ match streamRef c with
                             | Some old => [old]
                             | None => []
                             end
    /\ (live c' \/ down c').
Proof.
  assert (Hstops : forall evs, stops evs = [] ->
            stops (events (reset c) ++ evs)
            = stops (events c) ++ match streamRef c with
                                  | Some old => [old]
                                  | None => []
                                  end).
  { intros evs Hevs. rewrite stops_app, Hevs, app_nil_r.
    unfold reset. cbn [events]. rewrite stops_app.
    destruct (streamRef c); reflexivity. }
  destruct (supported (devices c)) eqn:Hs.
  - rewrite (startCamera_run _ _ _ _ _ Hs).
    destruct (negotiate_shape getUserMedia (reset c)) as (w & evs & Hsnd & Hst & _).
    destruct (negotiate getUserMedia (reset c)) as [[[stream|]|err] c1];
      cbn [snd] in Hsnd; subst c1.
    + destruct (attach_run video_mounted play stream (moved_on (reset c) w evs))
        as (c' & evs' & Hrun & Hsr & Hstr & Herr & Hpd & Hev & Hst' & _).
      exists c', (evs ++ evs'). split; [exact Hrun|].
      assert (stops (evs ++ evs') = []) as Hall by (rewrite stops_app, Hst, Hst'; reflexivity).
      split; [rewrite Hev; cbn [moved_on events]; rewrite app_assoc; reflexivity|].
      split; [exact Hall|].
      split; [rewrite Hev; cbn [moved_on events]; rewrite <- app_assoc; apply Hstops, Hall|].
      left. split; [exact Hstr|]. split; [rewrite Hsr; eexists; reflexivity|].
      split; [rewrite Herr; reflexivity|rewrite Hpd; reflexivity].
    + destruct (on_failure_down (Error "Could not initialize video stream.")
                  (moved_on (reset c) w evs) eq_refl) as (c' & Hrun & Hev & Hdown).
      exists c', (evs ++ [ErrorAccessing (Error "Could not initialize video stream.")]).
      assert (stops (evs ++ [ErrorAccessing (Error "Could not initialize video stream.")]) = [])
        as Hall by (rewrite stops_app, Hst; reflexivity).
      split; [exact Hrun|].
      split; [rewrite Hev; cbn [moved_on events]; rewrite app_assoc; reflexivity|].
      split; [exact Hall|].
      split; [rewrite Hev; cbn [moved_on events]; rewrite <- app_assoc; apply Hstops, Hall|].
      right. exact Hdown.
    + destruct (on_failure_down err (moved_on (reset c) w evs) eq_refl)
        as (c' & Hrun & Hev & Hdown).
      exists c', (evs ++ [ErrorAccessing err]).
      assert (stops (evs ++ [ErrorAccessing err]) = [])
        as Hall by (rewrite stops_app, Hst; reflexivity).
      split; [exact Hrun|].
      split; [rewrite Hev; cbn [moved_on events]; rewrite app_assoc; reflexivity|].
      split; [exact Hall|].
      split; [rewrite Hev; cbn [moved_on events]; rewrite <- app_assoc; apply Hstops, Hall|].
      right. exact Hdown.
  - rewrite (startCamera_unsupported _ _ _ _ _ Hs).
    destruct (on_failure_down (Error "Camera API is not supported in this browser or context.")
                (reset c) eq_refl) as (c' & Hrun & Hev & Hdown).
    exists c', [ErrorAccessing (Error "Camera API is not supported in this browser or context.")].
    split; [exact Hrun|]. split; [exact Hev|]. split; [reflexivity|].
    split; [rewrite Hev; apply Hstops; reflexivity|].
    right. exact Hdown.
Qed.

(** X14.  Without the camera API ([navigator.mediaDevices] or its
    [getUserMedia] missing) [startCamera] makes no request at all: it
    shows ["Camera API is not supported in this browser or context."],
    leaves the permission unmarked and holds no stream. *)
Theorem startCamera_without_api (c : camera W) :
  supported (devices c) = false ->
  startCamera supported getUserMedia video_mounted play c
  = (Resolved tt,
     {| devices := devices c;
        streamRef := None;
        isStreaming := false;
        error := Some "Camera API is not supported in this browser or context.";
        permissionDenied := false;
        events := events (reset c)
                  ++ [ErrorAccessing
                        (Error "Camera API is not supported in this browser or context.")] |})
  /\ requested (events (snd (startCamera supported getUserMedia video_mounted play c)))
     = requested (events c).
Proof.
  intros Hs. rewrite (startCamera_unsupported _ _ _ _ _ Hs).
  assert (on_failure (Error "Camera API is not supported in this browser or context.")
            (reset c)
          = (Resolved tt,
             {| devices := devices c;
                streamRef := None;
                isStreaming := false;
                error := Some "Camera API is not supported in this browser or context.";
                permissionDenied := false;
                events := events (reset c)
                          ++ [ErrorAccessing
                                (Error "Camera API is not supported in this browser or context.")] |}))
    as -> by reflexivity.
  split; [reflexivity|].
  cbn [snd events]. rewrite requested_app, requested_reset. apply app_nil_r.
Qed.

(** X15.  With the camera API present, a stream obtained at the first
    request, or at the second after the first failed, makes the component
    live with that stream; a [play()] that fails is logged and changes
    nothing else. *)
Theorem startCamera_live (c : camera W) (stream : nat) :
  supported (devices c) = true ->
  (forall w1,
     getUserMedia HdVideo (devices c) = (Resolved (Some stream), w1) ->
     exists c' evs,
       startCamera supported getUserMedia video_mounted play c = (Resolved tt, c')
       /\ live c' /\ streamRef c' = Some stream
       /\ events c' = events (reset c) ++ GetUserMedia HdVideo :: evs
       /\ requested evs = []
       /\ (forall e w, video_mounted w1 = true -> play w1 = (Rejected e, w) ->
                       evs = [Play; ErrorPlaying e]))
  /\ (forall hdError w1 w2,
        getUserMedia HdVideo (devices c) = (Rejected hdError, w1) ->
        getUserMedia BasicVideo w1 = (Resolved (Some stream), w2) ->
        exists c' evs,
          startCamera supported getUserMedia video_mounted play c = (Resolved tt, c')
          /\ live c' /\ streamRef c' = Some stream
          /\ events c' = events (reset c)
                         ++ GetUserMedia HdVideo :: WarnHdFailed hdError
                            :: GetUserMedia BasicVideo :: evs
          /\ requested evs = []
          /\ (forall e w, video_mounted w2 = true -> play w2 = (Rejected e, w) ->
                          evs = [Play; ErrorPlaying e])).
Proof.
  intros Hs. split.
  - intros w1 H1. rewrite (startCamera_run _ _ _ _ _ Hs), negotiate_run.
    cbn [reset devices]. rewrite H1.
    destruct (attach_run video_mounted play stream (moved_on (reset c) w1 [GetUserMedia HdVideo]))
      as (c' & evs & Hrun & Hsr & Hstr & Herr & Hpd & Hev & _ & Hreq & Hplay).
    exists c', evs. split; [exact Hrun|].
    split; [split; [exact Hstr|]; split; [rewrite Hsr; eexists; reflexivity|];
            split; [rewrite Herr; reflexivity|rewrite Hpd; reflexivity]|].
    split; [exact Hsr|].
    split; [rewrite Hev; cbn [moved_on events]; rewrite <- app_assoc; reflexivity|].
    split; [exact Hreq|exact Hplay].
  - intros hdError w1 w2 H1 H2. rewrite (startCamera_run _ _ _ _ _ Hs), negotiate_run.
    cbn [reset devices]. rewrite H1, H2.
    destruct (attach_run video_mounted play stream
                (moved_on (reset c) w2
                   [GetUserMedia HdVideo; WarnHdFailed hdError; GetUserMedia BasicVideo]))
      as (c' & evs & Hrun & Hsr & Hstr & Herr & Hpd & Hev & _ & Hreq & Hplay).
    exists c', evs. split; [exact Hrun|].
    split; [split; [exact Hstr|]; split; [rewrite Hsr; eexists; reflexivity|];
            split; [rewrite Herr; reflexivity|rewrite Hpd; reflexivity]|].
    split; [exact Hsr|].
    split; [rewrite Hev; cbn [moved_on events]; rewrite <- app_assoc; reflexivity|].
    split; [exact Hreq|exact Hplay].
Qed.

(** X16.  [stopCamera] stops the tracks of the stream the component
    holds, forgets the stream and clears [isStreaming], leaving the error
    state as it was; a second call right after it changes nothing: no
    stream is stopped twice. *)
Theorem stopCamera_once (c : camera W) :
  exists c',
    stopCamera c = (Resolved tt, c')
    /\ streamRef c' = None
    /\ isStreaming c' = false
    /\ error c' = error c
    /\ permissionDenied c' = permissionDenied c
    /\ stops (events c')
       = stops (events c) ++ match streamRef c with
                             | Some stream => [stream]
                             | None => []
                             end
    /\ stopCamera c' = (Resolved tt, c').
Proof.
  eexists. split; [apply stopCamera_run|].
  cbn [devices streamRef isStreaming error permissionDenied events].
  do 4 (split; [reflexivity|]). split.
  - rewrite stops_app. destruct (streamRef c); reflexivity.
  - rewrite stopCamera_run.
    cbn [devices streamRef isStreaming error permissionDenied events].
    rewrite app_nil_r. reflexivity.
Qed.

End CameraTheorems.

Section CameraRuns.
Import Async WebcamAnalyzer CameraSpec CameraStops Scenarios.

Lemma startCamera_without_api_witness :
  let c := fresh_camera [Resolved (Some 1%nat)] in
  startCamera (fun _ => false) scripted_camera (fun _ => true)
    (fun w => (Resolved tt, w)) c
  = (Resolved tt,
     {| devices := devices c;
        streamRef := None;
        isStreaming := false;
        error := Some "Camera API is not supported in this browser or context.";
        permissionDenied := false;
        events := events (reset c)
                  ++ [ErrorAccessing
                        (Error "Camera API is not supported in this browser or context.")] |})
  /\ requested (events (snd (startCamera (fun _ => false) scripted_camera (fun _ => true)
                               (fun w => (Resolved tt, w)) c)))
     = requested (events c).
Proof.
  intros c.
  apply (startCamera_without_api (fun _ => false) scripted_camera (fun _ => true)
           (fun w => (Resolved tt, w)) c).
  reflexivity.
Defined.

Lemma startCamera_live_witness :
  let c := fresh_camera [Rejected overconstrained; Resolved (Some 7%nat)] in
  let blocked := {| Async.name := "NotAllowedError"; Async.message := "play() blocked" |} in
  exists c' evs,
    startCamera (fun _ => true) scripted_camera (fun _ => true)
      (fun w => (Rejected blocked, w)) c = (Resolved tt, c')
    /\ live c' /\ streamRef c' = Some 7%nat
    /\ events c' = events (reset c)
                   ++ GetUserMedia HdVideo :: WarnHdFailed overconstrained
                      :: GetUserMedia BasicVideo :: evs
    /\ requested evs = []
    /\ (forall e w, (fun _ : script (option nat) => true) [] = true ->
                    (fun w : script (option nat) => (Rejected (A := unit) blocked, w)) []
                    = (Rejected e, w) ->
                    evs = [Play; ErrorPlaying e]).
Proof.
  intros c blocked.
  refine (proj2 (startCamera_live (fun _ => true) scripted_camera (fun _ => true)
                   (fun w => (Rejected blocked, w)) c 7%nat _)
            overconstrained [Resolved (Some 7%nat)] [] _ _); reflexivity.
Defined.

End CameraRuns.

(** ** [VideoAnalyzer]: [handleAnalyze] *)

Section VideoHandler.
Import Async Session GeminiService GeminiSpec VideoRunSpec VideoAnalyzer.
Import SamplingSpec SamplingStates.
Context {W : Type}.
Variable sendMessage : message -> W -> outcome response * W.

Lemma shown_nonempty (msg : string) : shown msg <> "".
Proof.
  unfold shown. destruct (String.eqb msg "") eqn:E; [discriminate|].
  apply String.eqb_neq in E. exact E.
Qed.

(** The log after the callbacks: the analyses handed over, in order, and
    no final report yet. *)
Lemma foldl_on_frame (cbs : list Types.VideoFrameAnalysis) :
  forall u shown_so_far,
    result u = Some {| Types.frames := shown_so_far; Types.finalReport := "" |} ->
    result (foldl on_frame u cbs)
    = Some {| Types.frames := shown_so_far ++ cbs; Types.finalReport := "" |}
    /\ status (foldl on_frame u cbs) = status u
    /\ error (foldl on_frame u cbs) = error u.
Proof.
  induction cbs as [|cb cbs IH]; intros u sh Hu.
  - cbn. rewrite app_nil_r. repeat split. exact Hu.
  - cbn [foldl].
    destruct (IH (on_frame u cb) (sh ++ [cb])) as (Hr & Hs & He).
    { unfold on_frame. cbn [result]. rewrite Hu. reflexivity. }
    rewrite Hr, Hs, He, <- app_assoc. repeat split.
Qed.

Lemma foldl_on_frame_error (cbs : list Types.VideoFrameAnalysis) :
  forall u, error (foldl on_frame u cbs) = error u.
Proof.
  induction cbs as [|cb cbs IH]; intros u; [reflexivity|].
  cbn [foldl]. rewrite IH. reflexivity.
Qed.

Lemma since_app (s s' : session W) (ev : list event) :
  trace s' = trace s ++ ev -> since s s' = ev.
Proof. intros H. unfold since. rewrite H. apply drop_app_length. Qed.

(** X17.  [handleAnalyze] of [VideoAnalyzer] does nothing without a file.
    With a file it ends in [COMPLETE] or in [ERROR]; [ERROR] always comes
    with a message that is not empty.  When the extraction is rejected, or
    resolves with no frame (a negative duration), the service is not
    called at all: the error shown is the message of the rejection, or
    ["Failed to analyze video."] when it has none, or
    ["Could not extract any frames from the video."], and the result holds
    no frame. *)
Theorem handleAnalyze_settles
    (file : option MediaUtils.VideoFile) (u : ui) (s : session W) :
  (file = None -> handleAnalyze sendMessage file u s = (u, s))
  /\ (file <> None ->
      (status (fst (handleAnalyze sendMessage file u s)) = COMPLETE
       /\ error (fst (handleAnalyze sendMessage file u s)) = None
       /\ is_Some (result (fst (handleAnalyze sendMessage file u s))))
      \/ (status (fst (handleAnalyze sendMessage file u s)) = ERROR
          /\ exists msg, error (fst (handleAnalyze sendMessage file u s)) = Some msg
                         /\ msg <> ""))
  /\ (forall f r,
        file = Some f ->
        fst (MediaUtils.extractFramesFromVideo f) = MediaUtils.Reject r ->
        snd (handleAnalyze sendMessage file u s) = s
        /\ status (fst (handleAnalyze sendMessage file u s)) = ERROR
        /\ error (fst (handleAnalyze sendMessage file u s))
           = Some (shown (rejection_text r))
        /\ result (fst (handleAnalyze sendMessage file u s))
           = Some {| Types.frames := []; Types.finalReport := "" |})
  /\ (forall v,
        file = Some (MediaUtils.MetadataLoaded v) ->
        (MediaUtils.duration v < 0)%Q ->
        snd (handleAnalyze sendMessage file u s) = s
        /\ status (fst (handleAnalyze sendMessage file u s)) = ERROR
        /\ error (fst (handleAnalyze sendMessage file u s))
           = Some "Could not extract any frames from the video.").
Proof.
  split; [intros ->; reflexivity|].
  split.
  { intros Hf. destruct file as [f|]; [|contradiction]. cbn [handleAnalyze].
    pose proof (extractFramesFromVideo_settles f) as Hset.
    destruct (MediaUtils.extractFramesFromVideo f) as [[frames|r|] sampler];
      [| |cbn in Hset; contradiction].
    - destruct frames as [|fr frames].
      + right. cbn. split; [reflexivity|]. eexists. split; [reflexivity|discriminate].
      + destruct (analyzeVideoFrames sendMessage (fr :: frames) s) as [[r|e] s'] eqn:Hrun.
        * left. cbn [fst status error result].
          split; [reflexivity|]. split; [|eexists; reflexivity].
          rewrite foldl_on_frame_error. reflexivity.
        * right. cbn [fst failed status error]. split; [reflexivity|].
          eexists. split; [reflexivity|apply shown_nonempty].
    - right. cbn [fst failed status error]. split; [reflexivity|].
      eexists. split; [reflexivity|apply shown_nonempty]. }
  split.
  { intros f r -> Hr. cbn [handleAnalyze].
    destruct (MediaUtils.extractFramesFromVideo f) as [settled sampler].
    cbn [fst] in Hr. subst settled. cbn. repeat split. }
  intros v -> Hd. cbn [handleAnalyze].
  apply rounds_zero in Hd.
  pose proof (captureFrame_stop v (Z.to_nat MediaUtils.maxFrames)) as H.
  rewrite Hd in H.
  change (MediaUtils.extractFramesFromVideo (MediaUtils.MetadataLoaded v))
    with (MediaUtils.captureFrame (Z.to_nat MediaUtils.maxFrames) v (sampler_after v 0)).
  rewrite H. cbn. repeat split.
Qed.

(** X18.  When the extraction yields frames, [handleAnalyze] runs the
    service on them.  If the service resolves, the component is
    [COMPLETE] with the result of the service and no error, and the frames
    of that result are exactly the frames the log showed while the
    analysis ran: replacing the log by the result adds the final report
    and changes no entry.  If the service fails, the component is in
    [ERROR] with the message of the error (or ["Failed to analyze video."]),
    and the entries logged so far stay, without a final report. *)
Theorem handleAnalyze_log
    (f : MediaUtils.VideoFile) (u : ui) (s : session W)
    (fr : MediaUtils.ExtractedFrame) (frames : list MediaUtils.ExtractedFrame) :
  fst (MediaUtils.extractFramesFromVideo f) = MediaUtils.Resolve (fr :: frames) ->
  let run := analyzeVideoFrames sendMessage (fr :: frames) s in
  let logged := callbacks (since s (snd run)) in
  snd (handleAnalyze sendMessage (Some f) u s) = snd run
  /\ (forall r,
        fst run = Resolved r ->
        Types.frames r = logged
        /\ status (fst (handleAnalyze sendMessage (Some f) u s)) = COMPLETE
        /\ result (fst (handleAnalyze sendMessage (Some f) u s)) = Some r
        /\ error (fst (handleAnalyze sendMessage (Some f) u s)) = None)
  /\ (forall e,
        fst run = Rejected e ->
        (length logged <= length (fr :: frames))%nat
        /\ status (fst (handleAnalyze sendMessage (Some f) u s)) = ERROR
        /\ result (fst (handleAnalyze sendMessage (Some f) u s))
           = Some {| Types.frames := logged; Types.finalReport := "" |}
        /\ error (fst (handleAnalyze sendMessage (Some f) u s))
           = Some (shown (Async.message e))).
Proof.
  intros Hex run logged. cbn [handleAnalyze].
  destruct (MediaUtils.extractFramesFromVideo f) as [settled sampler].
  cbn [fst] in Hex. subst settled.
  destruct (analyzeVideoFrames_phases sendMessage (fr :: frames) s)
    as (texts & ev1 & ev2 & Htr & Hlen & Hcb & Hcb2 & _ & _ & _ & Hfin & Hres).
  fold run in Htr, Hres.
  assert (logged = results_of (fr :: frames) texts) as Hlogged.
  { unfold logged. rewrite (since_app _ _ _ Htr), callbacks_app, Hcb, Hcb2, app_nil_r.
    reflexivity. }
  subst logged. fold run.
  destruct run as [[r|e] s'] eqn:Hrun; cbn [fst snd] in *.
  - split; [reflexivity|]. split; [|intros e He; discriminate He].
    intros r' Hr'. injection Hr' as <-.
    destruct (Hres r eq_refl) as (Hf & _ & _).
    split; [rewrite Hlogged; exact Hf|].
    split; [reflexivity|]. split; [reflexivity|].
    rewrite foldl_on_frame_error. reflexivity.
  - split; [reflexivity|]. split; [intros r Hr; discriminate Hr|].
    intros e' He'. injection He' as <-.
    split.
    { rewrite Hlogged. unfold results_of. rewrite length_zip_with. lia. }
    split; [reflexivity|].
    split; [|reflexivity].
    cbn [failed result].
    destruct (foldl_on_frame (results_of (fr :: frames) texts)
                {| status := ANALYZING; progress := 0;
                   result := Some {| Types.frames := []; Types.finalReport := "" |};
                   currentFrameAnalysis := currentFrameAnalysis u;
                   error := None |} [] eq_refl) as (Hr & _ & _).
    rewrite <- Hlogged in Hr. exact Hr.
Qed.

End VideoHandler.

Section VideoHandlerRun.
Import Async Session GeminiService GeminiSpec VideoAnalyzer Scenarios VideoScenarios.

Lemma handleAnalyze_log_witness :
  let s := start [says (Some "A cat."); Rejected unavailable; says (Some "It left.");
                  says (Some "A cat came and went.")] in
  let f := MediaUtils.MetadataLoaded (clip 4) in
  let run := analyzeVideoFrames scripted_chat (frame0 :: [frame3]) s in
  let logged := callbacks (since s (snd run)) in
  snd (handleAnalyze scripted_chat (Some f) idle s) = snd run
  /\ (forall r,
        fst run = Resolved r ->
        Types.frames r = logged
        /\ status (fst (handleAnalyze scripted_chat (Some f) idle s)) = COMPLETE
        /\ result (fst (handleAnalyze scripted_chat (Some f) idle s)) = Some r
        /\ error (fst (handleAnalyze scripted_chat (Some f) idle s)) = None)
  /\ (forall e,
        fst run = Rejected e ->
        (length logged <= length (frame0 :: [frame3]))%nat
        /\ status (fst (handleAnalyze scripted_chat (Some f) idle s)) = ERROR
        /\ result (fst (handleAnalyze scripted_chat (Some f) idle s))
           = Some {| Types.frames := logged; Types.finalReport := "" |}
        /\ error (fst (handleAnalyze scripted_chat (Some f) idle s))
           = Some (shown (Async.message e))).
Proof.
  intros s f.
  apply (handleAnalyze_log scripted_chat f idle s frame0 [frame3]).
  vm_compute. reflexivity.
Defined.

End VideoHandlerRun.

(** ** [formatTime]: the label determines the second *)

Section FormatTimeLabels.
Import JsNumber MediaUtils FormatTimeSpec.

Lemma formatTime_shape (x : Q) :
  (0 <= x)%Q ->
  formatTime x = zero_padded (Qfloor x / 60) +:+ ":" +:+ two_digits (Qfloor x mod 60).
Proof.
  intros Hx. unfold formatTime.
  change (60%Q) with (inject_Z 60).
  rewrite floor_rem_pos by (lia || exact Hx).
  unfold Math_floor. rewrite Qfloor_div_pos by lia.
  pose proof (Qfloor_nonneg x Hx) as Hxn.
  rewrite padStart2_minutes by (apply Z.div_pos; lia).
  rewrite padStart2_seconds by (apply Z.mod_pos_bound; lia).
  reflexivity.
Qed.

(** Two concatenations with tails of the same length. *)
Lemma string_app_inj (a b x y : string) :
  String.length x = String.length y -> a +:+ x = b +:+ y -> a = b /\ x = y.
Proof.
  revert b. induction a as [|c a IH]; intros b Hlen H.
  - destruct b as [|d b]; [split; [reflexivity|exact H]|].
    change ("" +:+ x) with x in H. subst x.
    change (String d b +:+ y) with (String d (b +:+ y)) in Hlen.
    cbn in Hlen. rewrite string_app_length in Hlen. lia.
  - destruct b as [|d b].
    + change ("" +:+ y) with y in H. subst y.
      change (String c a +:+ x) with (String c (a +:+ x)) in Hlen.
      cbn in Hlen. rewrite string_app_length in Hlen. lia.
    + change (String c a +:+ x) with (String c (a +:+ x)) in H.
      change (String d b +:+ y) with (String d (b +:+ y)) in H.
      injection H as -> H. destruct (IH b Hlen H) as [-> ->]. split; reflexivity.
Qed.

Lemma digit_inj (a b : Z) :
  0 <= a < 10 -> 0 <= b < 10 -> digit a = digit b -> a = b.
Proof.
  intros Ha Hb H. unfold digit in H.
  apply (f_equal nat_of_ascii) in H.
  rewrite !nat_ascii_embedding in H by lia. lia.
Qed.

Lemma two_digits_inj (k k' : Z) :
  0 <= k < 60 -> 0 <= k' < 60 -> two_digits k = two_digits k' -> k = k'.
Proof.
  intros Hk Hk' H. unfold two_digits in H. injection H as H1 H2.
  apply digit_inj in H1;
    [|split; [apply Z.div_pos; lia|apply Z.div_lt_upper_bound; lia]
     |split; [apply Z.div_pos; lia|apply Z.div_lt_upper_bound; lia]].
  apply digit_inj in H2; [|apply Z.mod_pos_bound; lia|apply Z.mod_pos_bound; lia].
  rewrite (Z.div_mod k 10), (Z.div_mod k' 10) by lia. lia.
Qed.

(** A positive number is not written with a leading zero. *)
Lemma pretty_N_go_head (x : N) :
  (0 < x)%N ->
  forall s, exists c rest, pretty_N_go x s = String c rest /\ c <> "0"%char.
Proof.
  induction (N.lt_wf_0 x) as [x _ IH]. intros Hx s.
  rewrite pretty_N_go_step by exact Hx.
  destruct (N.eq_dec (x / 10) 0)%N as [E|E].
  - rewrite E, pretty_N_go_0. eexists _, _. split; [reflexivity|].
    apply N.div_small_iff in E; [|lia].
    rewrite N.mod_small by exact E.
    assert (x = 1 \/ x = 2 \/ x = 3 \/ x = 4 \/ x = 5 \/ x = 6 \/ x = 7 \/ x = 8 \/ x = 9)%N
      as Hcases by lia.
    repeat (destruct Hcases as [->|Hcases]; [discriminate|]). subst x. discriminate.
  - apply IH; [apply N.div_lt; lia|apply N.neq_0_lt_0; exact E].
Qed.

Lemma toString_head (m : Z) :
  0 < m -> exists c rest, toString m = String c rest /\ c <> "0"%char.
Proof.
  intros Hm. destruct m as [|p|p]; try lia.
  unfold toString, pretty, pretty_Z, pretty, pretty_positive, pretty, pretty_N.
  destruct (decide (N.pos p = 0%N)) as [E|_]; [discriminate E|].
  apply pretty_N_go_head. lia.
Qed.

Lemma toString_inj (m m' : Z) : toString m = toString m' -> m = m'.
Proof. unfold toString. apply pretty_Z_inj. Qed.

Lemma zero_padded_inj (m m' : Z) :
  0 <= m -> 0 <= m' -> zero_padded m = zero_padded m' -> m = m'.
Proof.
  intros Hm Hm' H. unfold zero_padded in H.
  destruct (m <? 10) eqn:E; destruct (m' <? 10) eqn:E'.
  - injection H as H. apply toString_inj, H.
  - apply Z.ltb_ge in E'. destruct (toString_head m') as (c & rest & Hc & Hne); [lia|].
    rewrite Hc in H. injection H as H _. congruence.
  - apply Z.ltb_ge in E. destruct (toString_head m) as (c & rest & Hc & Hne); [lia|].
    rewrite Hc in H. injection H as H _. congruence.
  - apply toString_inj, H.
Qed.

Lemma formatTime_same_label (s t : Q) :
  (0 <= s)%Q -> (0 <= t)%Q ->
  formatTime s = formatTime t -> Qfloor s = Qfloor t.
Proof.
  intros Hs Ht.
  pose proof (Qfloor_nonneg s Hs) as Hsn. pose proof (Qfloor_nonneg t Ht) as Htn.
  rewrite (formatTime_shape s Hs), (formatTime_shape t Ht).
  intros H.
  apply string_app_inj in H as [Hm Hk]; [|reflexivity].
  apply zero_padded_inj in Hm; [|apply Z.div_pos; lia|apply Z.div_pos; lia].
  change (":" +:+ two_digits (Qfloor s mod 60))
    with (String ":" (two_digits (Qfloor s mod 60))) in Hk.
  change (":" +:+ two_digits (Qfloor t mod 60))
    with (String ":" (two_digits (Qfloor t mod 60))) in Hk.
  assert (two_digits (Qfloor s mod 60) = two_digits (Qfloor t mod 60)) as Hk'
    by congruence.
  apply two_digits_inj in Hk'; [|apply Z.mod_pos_bound; lia|apply Z.mod_pos_bound; lia].
  rewrite (Z.div_mod (Qfloor s) 60), (Z.div_mod (Qfloor t) 60) by lia.
  rewrite Hm, Hk'. reflexivity.
Qed.

(** X19.  For numbers of seconds [s, t >= 0], [formatTime] gives the same
    label exactly when [s] and [t] have the same integer part: the label
    determines the whole second, so that different whole seconds, such as
    the sampling times of the frames, never share a label. *)
Theorem formatTime_label (s t : Q) :
  (0 <= s)%Q -> (0 <= t)%Q ->
  (formatTime s = formatTime t <-> Qfloor s = Qfloor t).
Proof.
  intros Hs Ht. split; [apply formatTime_same_label; assumption|].
  intros H. rewrite (formatTime_shape s Hs), (formatTime_shape t Ht), H. reflexivity.
Qed.

Lemma formatTime_label_witness :
  formatTime (3 # 1) = formatTime (7 # 2) <-> Qfloor (3 # 1) = Qfloor (7 # 2).
Proof.
  apply (formatTime_label (3 # 1) (7 # 2)); vm_compute; discriminate.
Defined.

End FormatTimeLabels.

(** ** From the video to the log *)

Section VideoLog.
Import Async Session GeminiService GeminiSpec VideoRunSpec VideoAnalyzer.
Import MediaUtils SamplingSpec SamplingStates.
Context {W : Type}.
Variable sendMessage : message -> W -> outcome response * W.

Lemma frame_labels_NoDup (v : VideoSource) (n k : nat) :
  NoDup (map (fun f => formatTime (inject_Z (timestamp f)))
             (take k (map (frame_at v) (seq 0 n)))).
Proof.
  rewrite !map_as_fmap, <- fmap_take, <- list_fmap_compose.
  apply NoDup_fmap_2_strong;
    [|eapply sublist_NoDup; [apply NoDup_seq|apply sublist_take]].
  intros i j _ _ H. cbn in H.
  apply formatTime_same_label in H;
    [|apply inject_Z_nonneg; unfold interval; lia
     |apply inject_Z_nonneg; unfold interval; lia].
  rewrite !Qfloor_Z in H. unfold interval in H. lia.
Qed.

(** X20.  When the frames that [extractFramesFromVideo] resolves with are
    analyzed by [analyzeVideoFrames], the timestamps of the analyses
    handed to the callback are the labels ["00:00"], ["00:03"], ... of the
    sampling times, in order, and no two entries of the log carry the same
    timestamp. *)
Theorem video_log_timestamps
    (v : VideoSource) (frames : list ExtractedFrame) (s : session W) :
  fst (extractFramesFromVideo (MetadataLoaded v)) = Resolve frames ->
  let logged := callbacks (since s (snd (analyzeVideoFrames sendMessage frames s))) in
  (length logged <= length frames)%nat
  /\ map Types.timestamp logged
     = map (fun k => formatTime (inject_Z (Z.of_nat k * interval))) (seq 0 (length logged))
  /\ NoDup (map Types.timestamp logged).
Proof.
  intros Hex logged.
  unfold extractFramesFromVideo in Hex. change initial with (sampler_after v 0) in Hex.
  pose proof (rounds_le (duration v)) as Hr.
  apply captureFrame_resolves in Hex; [|lia|unfold maxFrames; cbn; lia].
  destruct (analyzeVideoFrames_phases sendMessage frames s)
    as (texts & ev1 & ev2 & Htr & Hlen & Hcb & Hcb2 & _).
  assert (logged = results_of frames texts) as ->.
  { unfold logged. rewrite (since_app _ _ _ Htr), callbacks_app, Hcb, Hcb2, app_nil_r.
    reflexivity. }
  assert (length (results_of frames texts) = length texts) as Hl.
  { unfold results_of. rewrite length_zip_with. lia. }
  rewrite Hl, results_of_timestamps. subst frames.
  split; [exact Hlen|]. split; [|apply frame_labels_NoDup].
  rewrite length_map, length_seq in Hlen.
  rewrite !map_as_fmap, <- fmap_take, take_seq, <- list_fmap_compose.
  replace (length texts `min` rounds (duration v))%nat with (length texts) by lia.
  reflexivity.
Qed.

End VideoLog.

Section VideoLogRun.
Import Async Session GeminiService GeminiSpec VideoAnalyzer.
Import MediaUtils Scenarios VideoScenarios.

Lemma video_log_timestamps_witness :
  let s := start [says (Some "A cat."); says None; says (Some "Report.")] in
  let logged :=
    callbacks (since s (snd (analyzeVideoFrames scripted_chat [frame0; frame3] s))) in
  (length logged <= length [frame0; frame3])%nat
  /\ map Types.timestamp logged
     = map (fun k => formatTime (inject_Z (Z.of_nat k * interval))) (seq 0 (length logged))
  /\ NoDup (map Types.timestamp logged).
Proof.
  intros s.
  apply (video_log_timestamps scripted_chat (clip 4) [frame0; frame3] s).
  vm_compute. reflexivity.
Defined.

End VideoLogRun.

(** ** The counts of the summary table add up *)

Section TableSum.
Import Detection JsObject ImageAnalyzer AggregationSpec TableTotals Scenarios.

Lemma total_count_perm (l l' : list (string * summary)) :
  l ≡ₚ l' -> total_count l = total_count l'.
Proof.
  unfold total_count.
  induction 1 as [|x l l' _ IH|x y l|l l' l'' _ IH1 _ IH2]; cbn [foldr].
  - reflexivity.
  - rewrite IH. reflexivity.
  - lia.
  - congruence.
Qed.

(** A visit writes one entry of [counts], or none for a builtin. *)
Lemma visit_counts_insert (a : aggregation) (obj : DetectedObject) :
  (forall n, In n builtins -> counts a !! n = None) ->
  if is_builtin (name obj) then counts (visit a obj) = counts a
  else exists e',
         counts (visit a obj) = <[name obj := e']> (counts a)
         /\ count e' = match counts a !! name obj with
                       | Some e => count e + 1
                       | None => 1
                       end.
Proof.
  intros Ha.
  pose proof (visit_counts a obj) as Hv.
  destruct (is_builtin (name obj)) eqn:Hb.
  - apply map_eq. intros n. rewrite Hv.
    destruct (String.eqb (name obj) n) eqn:E; [|reflexivity].
    apply String.eqb_eq in E. subst n.
    rewrite (Ha _ (proj1 (is_builtin_In _) Hb)), Hb. reflexivity.
  - pose proof (Hv (name obj)) as Hn.
    rewrite String.eqb_refl, Hb in Hn.
    destruct (counts (visit a obj) !! name obj) as [e'|] eqn:He';
      [|destruct (counts a !! name obj); discriminate Hn].
    exists e'. split.
    + apply map_eq. intros n. rewrite lookup_insert.
      destruct (decide (name obj = n)) as [<-|Hne]; [exact He'|].
      rewrite Hv. apply String.eqb_neq in Hne. rewrite Hne. reflexivity.
    + destruct (counts a !! name obj) as [e|]; injection Hn as ->; reflexivity.
Qed.

Lemma total_count_cons (n : string) (e : summary) (l : list (string * summary)) :
  total_count ((n, e) :: l) = count e + total_count l.
Proof. reflexivity. Qed.

Lemma visit_total (a : aggregation) (obj : DetectedObject) :
  (forall n, In n builtins -> counts a !! n = None) ->
  total_count (map_to_list (counts (visit a obj)))
  = total_count (map_to_list (counts a))
    + if is_builtin (name obj) then 0 else 1.
Proof.
  intros Ha. pose proof (visit_counts_insert a obj Ha) as Hv.
  destruct (is_builtin (name obj)); [rewrite Hv; lia|].
  destruct Hv as (e' & -> & Hc).
  destruct (counts a !! name obj) as [e|] eqn:He.
  - rewrite <- insert_delete_eq.
    rewrite (total_count_perm _ _
               (map_to_list_insert (delete (name obj) (counts a)) (name obj) e'
                  (lookup_delete_eq _ _))).
    rewrite <- (total_count_perm _ _ (map_to_list_delete _ _ _ He)).
    rewrite !total_count_cons. lia.
  - rewrite (total_count_perm _ _ (map_to_list_insert _ _ e' He)).
    rewrite total_count_cons. lia.
Qed.

Lemma counted_snoc (objects : list DetectedObject) (obj : DetectedObject) :
  Z.of_nat (length (counted (objects ++ [obj])))
  = Z.of_nat (length (counted objects)) + if is_builtin (name obj) then 0 else 1.
Proof.
  unfold counted. rewrite List.filter_app, length_app. cbn [List.filter].
  destruct (is_builtin (name obj)); cbn; lia.
Qed.

(** X21.  The counts of the rows of the summary table of [ImageAnalyzer]
    add up to the number of detected objects whose name is no builtin of
    [Object.prototype]: each of these is counted in exactly one row, and
    an object with the name of a builtin is counted in none.  So the
    counts add up to the number of detected objects when no object has
    such a name; and without a result the table is empty. *)
Theorem aggregatedObjects_total (p : prototype) (objects : list DetectedObject) :
  total_count (aggregatedObjects p (Some objects)) = Z.of_nat (length (counted objects))
  /\ (Forall (fun o => is_builtin (name o) = false) objects ->
      total_count (aggregatedObjects p (Some objects)) = Z.of_nat (length objects))
  /\ aggregatedObjects p None = [].
Proof.
  assert (total_count (aggregatedObjects p (Some objects))
          = Z.of_nat (length (counted objects))) as Htotal.
  { cbn [aggregatedObjects].
    induction objects as [|obj objects IH] using rev_ind.
    - cbn. rewrite map_to_list_empty. reflexivity.
    - rewrite aggregate_snoc, visit_total, IH, counted_snoc; [reflexivity|].
      intros n Hn. apply aggregate_no_builtin, Hn. }
  split; [exact Htotal|]. split; [|reflexivity].
  intros Hall. rewrite Htotal. f_equal. f_equal. unfold counted. clear Htotal.
  induction Hall as [|o objects Ho _ IH]; [reflexivity|].
  cbn [List.filter]. rewrite Ho. cbn [negb]. f_equal. exact IH.
Qed.

(** Three objects with ordinary names: the counts add up to three. *)
Lemma aggregatedObjects_total_witness :
  total_count (aggregatedObjects Pristine (Some [cat; dog; second_cat]))
  = Z.of_nat (length [cat; dog; second_cat]).
Proof.
  apply (proj1 (proj2 (aggregatedObjects_total Pristine [cat; dog; second_cat]))).
  repeat constructor.
Defined.

End TableSum.

(** ** Names that [Object.prototype] holds *)

Section InheritedNames.
Import Detection JsObject ImageAnalyzer AggregationSpec Legends Scenarios.



End InheritedNames.
